(** * go-flac: metadata container codec and in-place save engine

    A shallow embedding of the go-flac library (package [flac]): the
    metadata block wire codec ([parseMetadataBlock], [readMetadataBlocks],
    [Marshal]), the STREAMINFO decoder ([GetStreamInfo]), the frame sync
    check ([checkFLACStream], [PrefixReader]), the container assembler
    ([WriteTo]) and the in-place save engine ([saveInPlace]).

    Byte sequences are [list byte]; Go's fixed-width unsigned integers are
    [Z] with the wrap-around of every shift written out; readers and
    writers are explicit states threaded through the calls. *)

From Stdlib Require Import ZArith Lia.
From Stdlib.Strings Require Import Byte.
From stdpp Require Import base numbers list.

Local Open Scope Z_scope.

(** ** Bytes and fixed-width integers *)

#[export] Instance byte_eq_decision : EqDecision byte := Byte.byte_eq_dec.

Definition byteZ (b : byte) : Z := Z.of_N (Byte.to_N b).

(** [byte(x)] for an integer already known to fit: used for literals and
    for the header bytes [Marshal] emits. *)
Definition byteOf (x : Z) : byte :=
  match Byte.of_N (Z.to_N (x mod 256)) with
  | Some b => b
  | None => x00
  end.

(** [x << k] at width [w] (the high bits fall off) and [x >> k]. *)
Definition shl (w x k : Z) : Z := Z.shiftl x k mod 2 ^ w.
Definition shr (x k : Z) : Z := Z.shiftr x k.

(** [binary.BigEndian.UintN]. *)
Definition bigEndian (bs : list byte) : Z :=
  fold_left (fun acc b => acc * 256 + byteZ b) bs 0.

(** ** Errors and results *)

Inductive error : Set :=
| ErrorNoFLACHeader
| ErrorNoStreamInfo
| ErrorNoSyncCode
| ErrorAlreadyWritten
| EOF
| ErrUnexpectedEOF
| ErrNoProgress
| ErrShortWrite
| ErrNoSpace
| ErrNegativePosition
| ErrNegativeOffset
| ErrInvalidArgument
| ErrSizeOverflow
| ErrNegativeAudioSize
| ErrParseMetadata (cause : error)
| ErrReadShift (cause : error)
| ErrWriteShift (cause : error)
| ErrExpand (cause : error)
| ErrShrink (cause : error)
| ErrWriteMetadata (cause : error).

Inductive panic : Set :=
| IndexOutOfRange
| MakeSliceLenOutOfRange.

Inductive result (A : Type) : Type :=
| Ok (a : A)
| Err (e : error)
| Panic (p : panic).
Arguments Ok {A} a.
Arguments Err {A} e.
Arguments Panic {A} p.

#[export] Instance result_bind : MBind result := fun A B k r =>
  match r with
  | Ok a => k a
  | Err e => Err e
  | Panic p => Panic p
  end.

(** [fmt.Errorf("...: %w", err)]: a failure is re-labelled, success kept. *)
Definition wrapErr {A} (f : error -> error) (r : result A) : result A :=
  match r with
  | Ok a => Ok a
  | Err e => Err (f e)
  | Panic p => Panic p
  end.

(** ** Readers

    [Read r n] is one call [r.Read(p)] with [len(p) = n]: the bytes stored
    at the front of [p], the error returned, and the reader afterwards. *)

Class IoReader (R : Type) := {
  Read : R -> nat -> (list byte * option error) * R;
  (** The bytes the reader can still deliver; it only bounds the loops
      that read until the stream is exhausted. *)
  Pending : R -> list byte
}.

(** [bytes.Reader]: the slice and the read index. *)
Record BytesReader := mkBytesReader { br_s : list byte; br_i : Z }.

Definition NewReader (s : list byte) : BytesReader := mkBytesReader s 0.

Definition BytesReader_Read (r : BytesReader) (n : nat)
  : (list byte * option error) * BytesReader :=
  if br_i r >=? Z.of_nat (length (br_s r)) then ([], Some EOF, r)
  else
    let bs := take n (drop (Z.to_nat (br_i r)) (br_s r)) in
    (bs, None, mkBytesReader (br_s r) (br_i r + Z.of_nat (length bs))).

#[export] Instance BytesReader_IoReader : IoReader BytesReader := {|
  Read := BytesReader_Read;
  Pending r := drop (Z.to_nat (br_i r)) (br_s r)
|}.

(** [bytes.Reader.Seek(offset, io.SeekCurrent)]. *)
Definition SeekCurrent (r : BytesReader) (offset : Z)
  : result (Z * BytesReader) :=
  let abs := br_i r + offset in
  if abs <? 0 then Err ErrNegativePosition
  else Ok (abs, mkBytesReader (br_s r) abs).

(** [bytes.Buffer]: the unread bytes. *)
Record Buffer := mkBuffer { buf_bytes : list byte }.

Definition NewBuffer (bs : list byte) : Buffer := mkBuffer bs.
Definition Buffer_Write (b : Buffer) (p : list byte) : Buffer :=
  mkBuffer (buf_bytes b ++ p).
Definition Buffer_WriteByte (b : Buffer) (c : byte) : Buffer :=
  mkBuffer (buf_bytes b ++ [c]).
Definition Buffer_Reset (b : Buffer) : Buffer := mkBuffer [].

Definition Buffer_Read (b : Buffer) (n : nat)
  : (list byte * option error) * Buffer :=
  match buf_bytes b with
  | [] => ([], (if n is O then None else Some EOF), b)
  | _ => (take n (buf_bytes b), None, mkBuffer (drop n (buf_bytes b)))
  end.

#[export] Instance Buffer_IoReader : IoReader Buffer := {|
  Read := Buffer_Read;
  Pending := buf_bytes
|}.

(** [io.ReadAtLeast(r, buf, min)] with [len(buf) = min = want]: the loop
    [for n < min && err == nil].  A reader that keeps returning [(0, nil)]
    would spin; the fuel stands for the loop count and none of the readers
    below exhausts it. *)
Fixpoint ReadAtLeast {R} `{IoReader R} (fuel : nat) (r : R) (want : nat)
    (got : list byte) : (list byte * option error) * R :=
  if (want <=? length got)%nat then (got, None, r)
  else
    match fuel with
    | O => (got, Some ErrNoProgress, r)
    | S fuel' =>
        let '(bs, err, r') := Read r (want - length got)%nat in
        let got' := got ++ bs in
        match err with
        | None => ReadAtLeast fuel' r' want got'
        | Some e =>
            if (want <=? length got')%nat then (got', None, r')
            else
              match got', e with
              | _ :: _, EOF => (got', Some ErrUnexpectedEOF, r')
              | _, _ => (got', Some e, r')
              end
        end
    end.

(** [io.ReadFull(r, buf)] as the callers use it: the count is dropped and
    an error ends the caller, so the filled buffer and the reader are kept
    on success only. *)
Definition ReadFull {R} `{IoReader R} (r : R) (n : nat)
  : result (list byte * R) :=
  match ReadAtLeast (S n) r n [] with
  | (bs, None, r') => Ok (bs, r')
  | (_, Some e, _) => Err e
  end.

(** [binary.Read(r, binary.BigEndian, &res)] for [uint8], [uint16],
    [uint32]. *)
Definition binaryRead {R} `{IoReader R} (r : R) (size : nat)
  : result (Z * R) :=
  '(bs, r') ← ReadFull r size; Ok (bigEndian bs, r').

Definition readUint8 {R} `{IoReader R} (r : R) := binaryRead r 1.
Definition readUint16 {R} `{IoReader R} (r : R) := binaryRead r 2.
Definition readUint32 {R} `{IoReader R} (r : R) := binaryRead r 4.

(** A direct [r.Read(p)] whose count is dropped: [p] keeps its old
    contents past the bytes read. *)
Definition readInto {R} `{IoReader R} (r : R) (p : list byte)
  : result (list byte * R) :=
  match Read r (length p) with
  | (bs, None, r') => Ok (bs ++ drop (length bs) p, r')
  | (_, Some e, _) => Err e
  end.

(** ** Data model *)

(** [BlockType]: the 7-bit type tag of a metadata block. *)
Definition BlockType := Z.
Definition StreamInfo : BlockType := 0.
Definition Padding : BlockType := 1.
Definition Application : BlockType := 2.
Definition SeekTable : BlockType := 3.
Definition VorbisComment : BlockType := 4.
Definition CueSheet : BlockType := 5.
Definition Picture : BlockType := 6.

(** [MetaDataBlock]; the field [Type] is spelled [Type_]. *)
Record MetaDataBlock := mkBlock { Type_ : BlockType; Data : list byte }.

(** [*os.File]: the bytes of the underlying file and the handle's offset. *)
Record OsFile := mkOsFile { f_data : list byte; f_off : Z }.

Definition OsFile_Read (f : OsFile) (n : nat)
  : (list byte * option error) * OsFile :=
  match n with
  | O => ([], None, f)
  | _ =>
      let bs := take n (drop (Z.to_nat (f_off f)) (f_data f)) in
      match bs with
      | [] => ([], Some EOF, f)
      | _ => (bs, None, mkOsFile (f_data f) (f_off f + Z.of_nat (length bs)))
      end
  end.

#[export] Instance OsFile_IoReader : IoReader OsFile := {|
  Read := OsFile_Read;
  Pending f := drop (Z.to_nat (f_off f)) (f_data f)
|}.

(** The dynamic types an [io.Reader] stored in [File.Frames] takes.
    [BufIOWithInner] forwards to its [bufio.Reader], which delivers the
    bytes of [inner] in order; its chunking is not modelled. *)
Inductive Reader : Type :=
| RBytes (r : BytesReader)
| RFile (f : OsFile)
| BufIOWithInner (inner : Reader)
| PrefixReader (prefix : list byte) (r : Reader)
| ErrorReader (err : error).

Fixpoint Reader_Read (c : Reader) (n : nat)
  : (list byte * option error) * Reader :=
  match c with
  | RBytes r => let '(bs, e, r') := BytesReader_Read r n in (bs, e, RBytes r')
  | RFile f => let '(bs, e, f') := OsFile_Read f n in (bs, e, RFile f')
  | BufIOWithInner inner =>
      let '(bs, e, inner') := Reader_Read inner n in
      (bs, e, BufIOWithInner inner')
  | PrefixReader prefix r =>
      match prefix with
      | [] => let '(bs, e, r') := Reader_Read r n in (bs, e, PrefixReader [] r')
      | _ => (take n prefix, None, PrefixReader (drop n prefix) r)
      end
  | ErrorReader err => ([], Some err, ErrorReader err)
  end.

Fixpoint Reader_Pending (c : Reader) : list byte :=
  match c with
  | RBytes r => Pending r
  | RFile f => Pending f
  | BufIOWithInner inner => Reader_Pending inner
  | PrefixReader prefix r => prefix ++ Reader_Pending r
  | ErrorReader _ => []
  end.

#[export] Instance Reader_IoReader : IoReader Reader := {|
  Read := Reader_Read;
  Pending := Reader_Pending
|}.

Fixpoint isFileBacked (r : Reader) : option OsFile :=
  match r with
  | RFile f => Some f
  | PrefixReader _ p => isFileBacked p
  | BufIOWithInner inner => isFileBacked inner
  | _ => None
  end.

(** [File]; a nil [Frames] is [None]. *)
Record File := mkFile { Meta : list MetaDataBlock; Frames : option Reader }.

(** ** STREAMINFO decoder (streamdata.go) *)

Record StreamInfoBlock := mkStreamInfoBlock {
  BlockSizeMin : Z;
  BlockSizeMax : Z;
  FrameSizeMin : Z;
  FrameSizeMax : Z;
  SampleRate : Z;
  ChannelCount : Z;
  BitDepth : Z;
  SampleCount : Z;
  AudioMD5 : list byte
}.

Definition GetStreamInfo (c : File) : result StreamInfoBlock :=
  match Meta c with
  | [] => Panic IndexOutOfRange
  | m0 :: _ =>
      if negb (Type_ m0 =? StreamInfo) then Err ErrorNoStreamInfo
      else
        let streamInfo := NewReader (Data m0) in
        '(v, streamInfo) ← readUint16 streamInfo;
        let blockSizeMin := v in
        '(v, streamInfo) ← readUint16 streamInfo;
        let blockSizeMax := v in
        let buf := NewBuffer [x00] in
        let buf24 := replicate 3 x00 in
        '(buf24, streamInfo) ← readInto streamInfo buf24;
        let buf := Buffer_Write buf buf24 in
        '(v, buf) ← readUint32 buf;
        let frameSizeMin := v in
        let buf := Buffer_Reset buf in
        let buf := Buffer_WriteByte buf x00 in
        '(buf24, streamInfo) ← readInto streamInfo buf24;
        let buf := Buffer_Write buf buf24 in
        '(v, buf) ← readUint32 buf;
        let frameSizeMax := v in
        let buf := Buffer_Reset buf in
        let buf := Buffer_WriteByte buf x00 in
        let smpl := replicate 3 x00 in
        '(smpl, streamInfo) ← readInto streamInfo smpl;
        let buf := Buffer_Write buf smpl in
        '(smplrate, buf) ← readUint32 buf;
        let sampleRate := shr smplrate 4 in
        '(_, streamInfo) ← SeekCurrent streamInfo (-1);
        '(channel, streamInfo) ← readUint8 streamInfo;
        let channelCount := shr (shl 8 channel 4) 5 + 1 in
        let buf := Buffer_Reset buf in
        '(_, streamInfo) ← SeekCurrent streamInfo (-1);
        '(bitdepth, streamInfo) ← readUint16 streamInfo;
        let bitDepth := shr (shl 16 bitdepth 7) 11 + 1 in
        '(_, streamInfo) ← SeekCurrent streamInfo (-1);
        let smplcount := 0 in
        '(count, streamInfo) ← readUint32 streamInfo;
        let smplcount := smplcount + Z.shiftl (shr (shl 32 count 4) 4) 8 in
        '(count, streamInfo) ← readUint8 streamInfo;
        let smplcount := smplcount + count in
        let md5 := replicate 16 x00 in
        '(md5, streamInfo) ← readInto streamInfo md5;
        Ok (mkStreamInfoBlock blockSizeMin blockSizeMax frameSizeMin
              frameSizeMax sampleRate channelCount bitDepth smplcount md5)
  end.

Definition bytesOf (l : list Z) : list byte := map byteOf l.

Definition sampleStreamInfo : list byte :=
  bytesOf [0x04; 0x80; 0x04; 0x80; 0x00; 0x06; 0x72; 0x00; 0x17; 0xF2;
           0x17; 0x70; 0x03; 0x70; 0x00; 0x3A; 0x69; 0x80;
           229; 209; 0; 198; 63; 81; 136; 144; 12; 102; 182; 166; 160; 140;
           226; 235].


(** ** The bit-cursor reader of the format description

    The decoding of STREAMINFO as the specification words it: successive
    big-endian bit groups pulled most-significant-bit first from a running
    bit offset.  [decodeStreamParameters] is compared with [GetStreamInfo]
    below. *)

Definition bit (b : byte) (k : nat) : Z :=
  Z.b2z (N.testbit (Byte.to_N b) (N.of_nat k)).

Definition bitAt (buf : list byte) (pos : nat) : option Z :=
  b ← buf !! (pos / 8)%nat; Some (bit b (7 - pos mod 8)).

Fixpoint readBitsAcc (buf : list byte) (pos n : nat) (acc : Z) : option Z :=
  match n with
  | O => Some acc
  | S n' => v ← bitAt buf pos; readBitsAcc buf (S pos) n' (acc * 2 + v)
  end.

Record BitCursor := mkBitCursor { bc_buf : list byte; bc_pos : nat }.

Definition readBits (c : BitCursor) (n : nat) : option (Z * BitCursor) :=
  v ← readBitsAcc (bc_buf c) (bc_pos c) n 0;
  Some (v, mkBitCursor (bc_buf c) (bc_pos c + n)).

Definition decodeStreamParameters (payload : list byte)
  : option StreamInfoBlock :=
  let c := mkBitCursor payload 0 in
  '(minBlockSize, c) ← readBits c 16;
  '(maxBlockSize, c) ← readBits c 16;
  '(minFrameSize, c) ← readBits c 24;
  '(maxFrameSize, c) ← readBits c 24;
  '(sampleRate, c) ← readBits c 20;
  '(channels, c) ← readBits c 3;
  '(depth, c) ← readBits c 5;
  '(totalSampleCount, c) ← readBits c 36;
  let checksum := take 16 (drop (bc_pos c / 8) payload) in
  if (length checksum =? 16)%nat then
    Some (mkStreamInfoBlock minBlockSize maxBlockSize minFrameSize
            maxFrameSize sampleRate (channels + 1) (depth + 1)
            totalSampleCount checksum)
  else None.


(** ** Metadata block codec (util.go) *)

Definition magic : list byte := bytesOf [0x66; 0x4C; 0x61; 0x43].

Definition readFLACHead {R} `{IoReader R} (f : R) : result R :=
  '(buffer, f) ← ReadFull f 4;
  if decide (buffer = magic) then Ok f else Err ErrorNoFLACHeader.

Definition parseMetadataBlock {R} `{IoReader R} (f : R)
  : result (MetaDataBlock * bool * R) :=
  '(header, f) ← ReadFull f 4;
  match header with
  | [] => Panic IndexOutOfRange
  | h0 :: _ =>
      let isfinal := negb (shr (byteZ h0) 7 =? 0) in
      let type := shr (shl 8 (byteZ h0) 1) 1 in
      '(length, _) ← readUint32 (NewBuffer header);
      let length := shr (shl 32 length 8) 8 in
      '(buf, f) ← ReadFull f (Z.to_nat length);
      Ok (mkBlock type buf, isfinal, f)
  end.

(** The loop [for !finishMetaData]; every round reads a 4-byte header, so
    the pending bytes bound the number of rounds. *)
Fixpoint readMetadataBlocksLoop {R} `{IoReader R} (fuel : nat) (f : R)
    (blocks : list MetaDataBlock) : result (list MetaDataBlock * R) :=
  match fuel with
  | O => Err ErrNoProgress
  | S fuel' =>
      '(block, finishMetaData, f) ← parseMetadataBlock f;
      let blocks := blocks ++ [block] in
      if finishMetaData : bool then Ok (blocks, f)
      else readMetadataBlocksLoop fuel' f blocks
  end.

Definition readMetadataBlocks {R} `{IoReader R} (f : R)
  : result (list MetaDataBlock * R) :=
  readMetadataBlocksLoop (S (length (Pending f))) f [].

(** ** Frame sync check (util.go) *)

Definition checkFLACStream (f : Reader) : result Reader :=
  '(first2Bytes, f) ← ReadFull f 2;
  match first2Bytes with
  | b0 :: b1 :: _ =>
      if negb (byteZ b0 =? 0xFF) || negb (shr (byteZ b1) 2 =? 0x3E)
      then Err ErrorNoSyncCode
      else Ok (PrefixReader first2Bytes f)
  | _ => Panic IndexOutOfRange
  end.

(** ** Parsing entry points (flacfile.go) *)

Definition ParseMetadata {R} `{IoReader R} (f : R) : result (File * R) :=
  f ← readFLACHead f;
  '(meta, f) ← readMetadataBlocks f;
  Ok (mkFile meta None, f).

Definition ParseBytes (f : Reader) : result File :=
  '(res, f) ← ParseMetadata f;
  frames ← checkFLACStream f;
  Ok (mkFile (Meta res) (Some frames)).

(** [ParseFile]: the opened file wrapped in a [BufIOWithInner]. *)
Definition ParseFile (contents : list byte) : result File :=
  ParseBytes (BufIOWithInner (RFile (mkOsFile contents 0))).

(** ** Block serialisation *)

(** Modelled from the spec: [MetaDataBlock.Marshal] (its file is not among
    the sources; only the call [meta.Marshal(last)] in [WriteTo] is).
    Header byte 0 is [(isLastFlag << 7) | type], bytes 1..3 are the
    big-endian 24-bit payload length, the payload follows verbatim; a
    payload longer than [2^24 - 1] bytes fails. *)
Definition Marshal (c : MetaDataBlock) (isfinal : bool)
  : result (list byte) :=
  let n := Z.of_nat (length (Data c)) in
  if n >? 2 ^ 24 - 1 then Err ErrSizeOverflow
  else
    Ok ([byteOf (Z.lor (Z.shiftl (Z.b2z isfinal) 7) (Type_ c));
         byteOf (Z.shiftr n 16); byteOf (Z.shiftr n 8); byteOf n]
        ++ Data c).

(** ** Writers *)

Class IoWriter (W : Type) :=
  Write : W -> list byte -> (Z * option error) * W.

(** [bytes.Buffer] as a writer: it grows and never reports an error. *)
#[export] Instance Buffer_IoWriter : IoWriter Buffer := fun b p =>
  (Z.of_nat (length p), None, Buffer_Write b p).

(** A destination with bounded room (a file on a device, a pipe): it takes
    what fits and reports an error for the rest.  [room = None] is
    unbounded. *)
Record Sink := mkSink { written : list byte; room : option nat }.

Definition Sink_Write (w : Sink) (p : list byte)
  : (Z * option error) * Sink :=
  match room w with
  | None => (Z.of_nat (length p), None, mkSink (written w ++ p) None)
  | Some k =>
      if (length p <=? k)%nat then
        (Z.of_nat (length p), None,
         mkSink (written w ++ p) (Some (k - length p)%nat))
      else (Z.of_nat k, Some ErrNoSpace,
            mkSink (written w ++ take k p) (Some O))
  end.

#[export] Instance Sink_IoWriter : IoWriter Sink := Sink_Write.

(** [io.Copy(dst, src)]: the read/write loop of [io.copyBuffer] with its
    32 KiB buffer (the [ReaderFrom]/[WriterTo] short cuts move the same
    bytes and return the same error). *)
Definition copyBufSize : nat := 32 * 1024.

Fixpoint copyLoop {W} `{IoWriter W} (fuel : nat) (dst : W) (src : Reader)
    (n : Z) : (Z * option error) * W * Reader :=
  match fuel with
  | O => (n, Some ErrNoProgress, dst, src)
  | S fuel' =>
      let '(bs, er, src) := Read src copyBufSize in
      let nr := Z.of_nat (length bs) in
      let '(n, ew, dst) :=
        if 0 <? nr then
          let '(nw, ew, dst) := Write dst bs in
          match ew with
          | Some e => (n + nw, Some e, dst)
          | None =>
              if negb (nr =? nw) then (n + nw, Some ErrShortWrite, dst)
              else (n + nw, None, dst)
          end
        else (n, None, dst) in
      match ew with
      | Some e => (n, Some e, dst, src)
      | None =>
          match er with
          | Some EOF => (n, None, dst, src)
          | Some e => (n, Some e, dst, src)
          | None => copyLoop fuel' dst src n
          end
      end
  end.

Definition Copy {W} `{IoWriter W} (dst : W) (src : Reader)
  : (Z * option error) * W * Reader :=
  copyLoop (S (length (Pending src))) dst src 0.

(** ** Container assembler (flacfile.go) *)

(** The loop [for i, meta := range c.Meta] of [WriteTo]; [len] is
    [len(c.Meta)].  The source hands the result of [meta.Marshal(last)]
    straight to [w.Write] and has no error path for it: the branches for
    a failing [Marshal] are there only because the modelled [Marshal] can
    fail, on a payload longer than [2^24 - 1] bytes, and nothing stated
    for blocks that fit the header fields goes through them. *)
Fixpoint writeBlocks {W} `{IoWriter W} (metas : list MetaDataBlock)
    (i len : Z) (n : Z) (w : W) : (Z * option error) * W :=
  match metas with
  | [] => (n, None, w)
  | meta :: rest =>
      let last := i =? len - 1 in
      match Marshal meta last with
      | Ok bs =>
          let '(n2, err, w) := Write w bs in
          match err with
          | Some e => (n + n2, Some e, w)
          | None => writeBlocks rest (i + 1) len (n + n2) w
          end
      | Err e => (n, Some e, w)
      | Panic _ => (n, Some ErrSizeOverflow, w)
      end
  end.

(** [File.WriteTo] of the current sources (v2 and later): once the frames
    were copied the deferred calls close them and leave an [ErrorReader]
    in their place. *)
Definition WriteTo {W} `{IoWriter W} (c : File) (w : W)
  : (Z * option error) * File * W :=
  let '(nInt, err, w) := Write w magic in
  let n := nInt in
  match err with
  | Some e => (n, Some e, c, w)
  | None =>
      let '(n, err, w) :=
        writeBlocks (Meta c) 0 (Z.of_nat (length (Meta c))) n w in
      match err with
      | Some e => (n, Some e, c, w)
      | None =>
          match Frames c with
          | Some frames =>
              let '(n2, err, w, _) := Copy w frames in
              let c := mkFile (Meta c) (Some (ErrorReader ErrorAlreadyWritten)) in
              (n + n2, err, c, w)
          | None => (n, None, c, w)
          end
      end
  end.

(** [File.WriteTo] of the first version (flacfile.go at the root): the
    frames reader is left as the copy left it. *)
Definition WriteTo_v1 {W} `{IoWriter W} (c : File) (w : W)
  : (Z * option error) * File * W :=
  let '(nInt, err, w) := Write w magic in
  let n := nInt in
  match err with
  | Some e => (n, Some e, c, w)
  | None =>
      let '(n, err, w) :=
        writeBlocks (Meta c) 0 (Z.of_nat (length (Meta c))) n w in
      match err with
      | Some e => (n, Some e, c, w)
      | None =>
          match Frames c with
          | Some frames =>
              let '(n2, err, w, frames) := Copy w frames in
              (n + n2, err, mkFile (Meta c) (Some frames), w)
          | None => (n, None, c, w)
          end
      end
  end.

(** ** Random access on an open file

    The storage never fails by itself here (no full device, no I/O fault):
    the errors are the ones the arguments cause. *)

(** [file.ReadAt(buf, off)] with [buf := make([]byte, n)]: the buffer
    afterwards and the error; a short read leaves the zeros of [make] and
    reports [io.EOF]. *)
Definition ReadAt (f : OsFile) (n : nat) (off : Z)
  : list byte * option error :=
  if off <? 0 then (replicate n x00, Some ErrNegativeOffset)
  else
    let bs := take n (drop (Z.to_nat off) (f_data f)) in
    (bs ++ replicate (n - length bs) x00,
     if (length bs <? n)%nat then Some EOF else None).

(** [file.WriteAt(b, off)]: writing past the end first fills the gap with
    zeros; an empty [b] writes nothing. *)
Definition WriteAt (f : OsFile) (b : list byte) (off : Z) : result OsFile :=
  if off <? 0 then Err ErrNegativeOffset
  else
    match b with
    | [] => Ok f
    | _ =>
        let o := Z.to_nat off in
        let d := f_data f in
        Ok (mkOsFile
              (take o d ++ replicate (o - length d) x00 ++ b
                 ++ drop (o + length b) d)
              (f_off f))
    end.

(** [file.Truncate(size)]: cuts the file or extends it with zeros. *)
Definition Truncate (f : OsFile) (size : Z) : result OsFile :=
  if size <? 0 then Err ErrInvalidArgument
  else
    let s := Z.to_nat size in
    let d := f_data f in
    Ok (mkOsFile (take s d ++ replicate (s - length d) x00) (f_off f)).

(** [file.Stat().Size()] and [file.Seek(0, io.SeekCurrent)]. *)
Definition Size (f : OsFile) : Z := Z.of_nat (length (f_data f)).
Definition Tell (f : OsFile) : Z := f_off f.

(** ** In-place save engine *)

Section InPlace.

(** The chunk size of the relocation loops ([bufferSize], 256 KiB in the
    source). *)
Variable bufferSize : Z.

(** [delta > 0]: the loop that copies the audio region from its end to
    its start.  Every round advances [i] by [bufferSize]; [fuel] bounds
    the rounds and is not exhausted for a positive [bufferSize]
    ([shiftForward_spec]). *)
Fixpoint shiftForward (fuel : nat) (file : OsFile)
    (originalHeaderSize audioDataSize delta i : Z) : result OsFile :=
  if i <? audioDataSize then
    match fuel with
    | O => Err ErrNoProgress
    | S fuel' =>
        let readOffset := audioDataSize - i - bufferSize in
        let chunkSize := bufferSize in
        let '(chunkSize, readOffset) :=
          if readOffset <? 0 then (chunkSize + readOffset, 0)
          else (chunkSize, readOffset) in
        let readPos := originalHeaderSize + readOffset in
        let writePos := readPos + delta in
        if chunkSize <? 0 then Panic MakeSliceLenOutOfRange
        else
          match ReadAt file (Z.to_nat chunkSize) readPos with
          | (_, Some e) => Err (ErrReadShift e)
          | (buf, None) =>
              file ← wrapErr ErrWriteShift (WriteAt file buf writePos);
              shiftForward fuel' file originalHeaderSize audioDataSize
                delta (i + bufferSize)
          end
    end
  else Ok file.

(** [delta < 0]: the loop that copies the audio region from its start
    to its end; [break] leaves the loop with the file as it is. *)
Fixpoint shiftBackward (fuel : nat) (file : OsFile)
    (originalHeaderSize audioDataSize totalSize delta i : Z)
  : result OsFile :=
  if i <? audioDataSize then
    match fuel with
    | O => Err ErrNoProgress
    | S fuel' =>
        let readPos := originalHeaderSize + i in
        let writePos := readPos + delta in
        let chunkSize := bufferSize in
        let chunkSize :=
          if readPos + chunkSize >? totalSize then totalSize - readPos
          else chunkSize in
        if chunkSize <=? 0 then Ok file
        else
          let '(buf, err) := ReadAt file (Z.to_nat chunkSize) readPos in
          match err with
          | Some EOF | None =>
              file ← wrapErr ErrWriteShift (WriteAt file buf writePos);
              shiftBackward fuel' file originalHeaderSize audioDataSize
                totalSize delta (i + bufferSize)
          | Some e => Err (ErrReadShift e)
          end
    end
  else Ok file.

(** [saveInPlace] on the file reopened for reading and writing, whose
    bytes are [disk]: the file's bytes afterwards and [c] with its
    frames dropped.  Closing the old handle and reopening the file are
    taken to succeed.  The [int64] sizes and offsets are sums and
    differences of lengths of byte sequences held in memory or on disk,
    far below [2^63]: they are computed in [Z] without wrap-around. *)
Definition saveInPlaceWith (c : File) (disk : list byte)
  : result (list byte * File) :=
  let file := mkOsFile disk 0 in
  '(_, file) ← wrapErr ErrParseMetadata (ParseMetadata file);
  let originalHeaderSize := Tell file in
  let newMetaBuf := NewBuffer [] in
  let c := mkFile (Meta c) None in
  let '(newHeaderSize, err, c, newMetaBuf) := WriteTo c newMetaBuf in
  match err with
  | Some e => Err e
  | None =>
      let totalSize := Size file in
      let audioDataSize := totalSize - originalHeaderSize in
      if audioDataSize <? 0 then Err ErrNegativeAudioSize
      else
        let delta := newHeaderSize - originalHeaderSize in
        file ←
          (if delta >? 0 then
             file ← wrapErr ErrExpand (Truncate file (totalSize + delta));
             shiftForward (Z.to_nat audioDataSize) file originalHeaderSize
               audioDataSize delta 0
           else if delta <? 0 then
             file ← shiftBackward (Z.to_nat audioDataSize) file
                      originalHeaderSize audioDataSize totalSize delta 0;
             wrapErr ErrShrink (Truncate file (totalSize + delta))
           else Ok file);
        file ← wrapErr ErrWriteMetadata
                 (WriteAt file (buf_bytes newMetaBuf) 0);
        Ok (f_data file, c)
  end.

End InPlace.

Definition bufferSize : Z := 256 * 1024.

Definition saveInPlace (c : File) (disk : list byte)
  : result (list byte * File) :=
  saveInPlaceWith bufferSize c disk.

(** ** A small container used in the examples *)

Definition sampleFrames : list byte :=
  bytesOf [0xFF; 0xF8; 0xC9; 0x18; 0x00; 0x01; 0x02; 0x03; 0x04; 0x05].

Definition sampleBlocks : list MetaDataBlock :=
  [mkBlock StreamInfo sampleStreamInfo;
   mkBlock Padding (bytesOf [1; 2; 3; 4; 5; 6; 7]);
   mkBlock VorbisComment (bytesOf [9; 8; 7])].

Definition sampleContainer : list byte :=
  magic
  ++ bytesOf [0x00; 0; 0; 34] ++ sampleStreamInfo
  ++ bytesOf [0x01; 0; 0; 7] ++ bytesOf [1; 2; 3; 4; 5; 6; 7]
  ++ bytesOf [0x84; 0; 0; 3] ++ bytesOf [9; 8; 7]
  ++ sampleFrames.


(** ** Well-formed sequential readers

    What the proofs use of a reader: it delivers its pending bytes in
    order, a read that returns no error makes progress, and the only error
    is [io.EOF], reported once nothing is pending. *)

Definition BytesReader_wf (r : BytesReader) : Prop := 0 <= br_i r.
Definition OsFile_wf (f : OsFile) : Prop := 0 <= f_off f.

Fixpoint Reader_wf (c : Reader) : Prop :=
  match c with
  | RBytes r => BytesReader_wf r
  | RFile f => OsFile_wf f
  | BufIOWithInner inner => Reader_wf inner
  | PrefixReader _ r => Reader_wf r
  | ErrorReader _ => False
  end.

Definition read_step_law {R} `{IoReader R} (wf : R -> Prop) : Prop :=
  forall (r : R) (n : nat) bs e r',
    wf r -> Read r n = (bs, e, r') ->
    wf r' /\ (length bs <= n)%nat /\ Pending r = bs ++ Pending r' /\
    match e with
    | None => n = O \/ bs <> []
    | Some e' => e' = EOF /\ bs = [] /\ Pending r = []
    end.

Class SeqReader (R : Type) `{IoReader R} := wf : R -> Prop.

#[export] Instance BytesReader_SeqReader : SeqReader BytesReader :=
  BytesReader_wf.
#[export] Instance OsFile_SeqReader : SeqReader OsFile := OsFile_wf.
#[export] Instance Reader_SeqReader : SeqReader Reader := Reader_wf.

Class SeqReaderLaw (R : Type) `{SeqReader R} : Prop :=
  read_step : read_step_law wf.

(** The error [io.ReadFull] reports when the input ends after [seen]. *)
Definition eofError (seen : list byte) : error :=
  match seen with
  | [] => EOF
  | _ => ErrUnexpectedEOF
  end.

(** Reading never changes the bytes of the file nor moves the offset
    outside of it. *)
Definition within (disk : list byte) (f : OsFile) : Prop :=
  f_data f = disk /\ 0 <= f_off f <= Z.of_nat (length disk).

(** The invariants of the two relocation loops: [D0] is the file before
    the save, [h] its header length, [e] the size change.

    End-to-start copy, the lowest [m] audio bytes still to move: they and
    the header are untouched, everything above already sits [e] bytes
    further. *)
Definition forwardInv (D0 : list byte) (h e : nat) (d : list byte)
    (m : nat) : Prop :=
  length d = (length D0 + e)%nat /\ (h + m <= length D0)%nat /\
  take (h + m) d = take (h + m) D0 /\
  drop (h + m + e) d = drop (h + m) D0.

(** Start-to-end copy, the first [p] audio bytes already moved [e] bytes
    down: the rest of the region is untouched. *)
Definition backwardInv (D0 : list byte) (h e : nat) (d : list byte)
    (p : nat) : Prop :=
  length d = length D0 /\ (e <= h)%nat /\ (h + p <= length D0)%nat /\
  drop (h + p) d = drop (h + p) D0 /\
  take p (drop (h - e) d) = take p (drop h D0).

(** The bytes [writeBlocks] emits for a block list: every block marshalled
    with the last flag exactly on the final one. *)
Fixpoint encodeBlocks (metas : list MetaDataBlock) : result (list byte) :=
  match metas with
  | [] => Ok []
  | meta :: rest =>
      m ← Marshal meta (match rest with [] => true | _ => false end);
      e ← encodeBlocks rest;
      Ok (m ++ e)
  end.

(** Serialised size of a block list: a 4-byte header and the payload for
    each block. *)
Fixpoint encodedSize (metas : list MetaDataBlock) : nat :=
  match metas with
  | [] => O
  | m :: rest => (4 + length (Data m) + encodedSize rest)%nat
  end.

(** Offset of block [i]'s header in the serialised container. *)
Definition blockOffset (metas : list MetaDataBlock) (i : nat) : nat :=
  4 + encodedSize (take i metas).

(** The 7-bit types and 24-bit lengths a block list must have to be
    serialised. *)
Definition blockOk (m : MetaDataBlock) : Prop :=
  0 <= Type_ m < 128 /\ Z.of_nat (length (Data m)) <= 2 ^ 24 - 1.

(** The sample container without its padding block. *)
Definition sampleShrunkBlocks : list MetaDataBlock :=
  take 1 sampleBlocks ++ drop 2 sampleBlocks.

Definition sampleShrunkContainer : list byte :=
  magic
  ++ bytesOf [0x00; 0; 0; 34] ++ sampleStreamInfo
  ++ bytesOf [0x84; 0; 0; 3] ++ bytesOf [9; 8; 7]
  ++ sampleFrames.

(** The sample container as [ParseBytes] returns it, and after a first
    [WriteTo]. *)
Definition sampleFile : File :=
  mkFile sampleBlocks
    (Some (PrefixReader (bytesOf [0xFF; 0xF8])
             (RBytes (mkBytesReader sampleContainer 62)))).

Definition sampleFileWritten : File :=
  mkFile sampleBlocks (Some (ErrorReader ErrorAlreadyWritten)).

(** The part of [WriteTo] before the frames: the magic and the blocks. *)
Definition writeHeader {W} `{IoWriter W} (c : File) (w : W)
  : (Z * option error) * W :=
  let '(nInt, err, w) := Write w magic in
  match err with
  | Some e => (nInt, Some e, w)
  | None => writeBlocks (Meta c) 0 (Z.of_nat (length (Meta c))) nInt w
  end.

(** ** Further functions of the library *)

(** [encodeUint32] (util.go): [binary.Write(buf, binary.BigEndian, n)] for
    a [uint32], the four bytes of [n] from the most significant one. *)
Definition encodeUint32 (n : Z) : list byte :=
  [byteOf (Z.shiftr n 24); byteOf (Z.shiftr n 16); byteOf (Z.shiftr n 8);
   byteOf n].

(** [File.Close] and [PrefixReader.Close] (v2): the [*os.File] whose
    [Close] is reached, if any.  [*os.File] and [*PrefixReader] have a
    [Close] method; [*BufIOWithInner], [*ErrorReader] and [*bytes.Reader]
    have none, so the type assertion [.(io.Closer)] fails on them and the
    call returns nil. *)
Fixpoint Reader_Close (r : Reader) : option OsFile :=
  match r with
  | RFile f => Some f
  | PrefixReader _ inner => Reader_Close inner
  | RBytes _ | BufIOWithInner _ | ErrorReader _ => None
  end.

Definition Close (f : File) : option OsFile :=
  match Frames f with
  | Some frames => Reader_Close frames
  | None => None
  end.

(** The readers that [isFileBacked] resolves to a file with bytes
    [contents]. *)
Definition backedBy (contents : list byte) (r : Reader) : Prop :=
  exists f, isFileBacked r = Some f /\ within contents f.

(** What [os.Stat(fn)] and [os.SameFile] find at the destination of
    [Save]. *)
Inductive Destination : Set :=
| DestSame
| DestOther
| DestMissing
| DestStatError (e : error).

(** What [Save] did: the result of [saveInPlace] on the input file, or
    the bytes of the file it created with the error of [WriteTo], or the
    error of [os.Stat]. *)
Inductive SaveOutcome : Type :=
| SavedInPlace (r : result (list byte * File))
| SavedTo (err : option error) (out : list byte) (c : File)
| StatFailed (e : error).

(** [File.Save] of the current sources: in place when the frames are
    backed by the file found at [fn], through [os.Create] and [WriteTo]
    otherwise.  [room] is the room of the device the new file is created
    on; [fileIn.Stat] and [os.Create] are taken to succeed, and the input
    file still has the bytes it was opened with. *)
Definition Save (c : File) (dst : Destination) (room : option nat)
  : SaveOutcome :=
  let create :=
    let '(_, err, c, f) := WriteTo c (mkSink [] room) in
    SavedTo err (written f) c in
  match
    match Frames c with
    | Some frames => isFileBacked frames
    | None => None
    end
  with
  | Some fileIn =>
      match dst with
      | DestStatError e => StatFailed e
      | DestSame => SavedInPlace (saveInPlace c (f_data fileIn))
      | DestOther | DestMissing => create
      end
  | None => create
  end.

(** The sample container as [ParseFile] returns it. *)
Definition sampleOpenedFile : File :=
  mkFile sampleBlocks
    (Some (PrefixReader (bytesOf [0xFF; 0xF8])
             (BufIOWithInner (RFile (mkOsFile sampleContainer 62))))).

(** * Properties *)

(** ** Bytes *)

Arguments byteZ : simpl never.
Arguments bit : simpl never.
Arguments shl : simpl never.
Arguments shr : simpl never.

Lemma byteZ_range (b : byte) : 0 <= byteZ b < 256.
Proof.
  unfold byteZ. pose proof (Byte.to_N_bounded b). lia.
Qed.

Lemma bit_range (b : byte) (k : nat) : 0 <= bit b k <= 1.
Proof.
  unfold bit. destruct (N.testbit _ _); simpl; lia.
Qed.

(** A byte is the sum of its bits. *)
Lemma byteZ_bits (b : byte) :
  byteZ b = 128 * bit b 7 + 64 * bit b 6 + 32 * bit b 5 + 16 * bit b 4
            + 8 * bit b 3 + 4 * bit b 2 + 2 * bit b 1 + bit b 0.
Proof.
  destruct b; reflexivity.
Qed.

Lemma byteOf_byteZ (b : byte) : byteOf (byteZ b) = b.
Proof.
  destruct b; reflexivity.
Qed.

Lemma byteZ_byteOf (x : Z) : byteZ (byteOf x) = x mod 256.
Proof.
  unfold byteOf, byteZ.
  assert (Hx : 0 <= x mod 256 < 256) by (apply Z.mod_pos_bound; lia).
  destruct (Byte.of_N (Z.to_N (x mod 256))) as [b|] eqn:E.
  - apply Byte.to_of_N in E. rewrite E. lia.
  - apply Byte.of_N_None_iff in E. lia.
Qed.

(** ** Reads on a [bytes.Reader] and a [bytes.Buffer] with enough bytes *)

Lemma ReadAtLeast_done {R} `{IoReader R} (fuel : nat) (r : R) (want : nat)
    (got : list byte) :
  (want <= length got)%nat -> ReadAtLeast fuel r want got = (got, None, r).
Proof.
  intros Hle. apply Nat.leb_le in Hle.
  destruct fuel; simpl; rewrite Hle; reflexivity.
Qed.

Lemma ReadAtLeast_more {R} `{IoReader R} (fuel : nat) (r : R) (want : nat)
    (got bs : list byte) (r' : R) :
  (length got < want)%nat ->
  Read r (want - length got)%nat = (bs, None, r') ->
  ReadAtLeast (S fuel) r want got = ReadAtLeast fuel r' want (got ++ bs).
Proof.
  intros Hlt Hread. apply Nat.leb_gt in Hlt.
  simpl. rewrite Hlt, Hread. reflexivity.
Qed.

Lemma ReadFull_BytesReader (s : list byte) (i : Z) (n : nat) :
  0 <= i -> (Z.to_nat i + n <= length s)%nat ->
  ReadFull (mkBytesReader s i) n
  = Ok (take n (drop (Z.to_nat i) s), mkBytesReader s (i + Z.of_nat n)).
Proof.
  intros Hi Hn. unfold ReadFull.
  destruct n as [|n].
  - simpl. rewrite Z.add_0_r. reflexivity.
  - assert (Hlen : length (take (S n) (drop (Z.to_nat i) s)) = S n).
    { rewrite length_take, length_drop. lia. }
    erewrite ReadAtLeast_more; [| simpl; lia |].
    2:{ cbn [Read BytesReader_IoReader]. unfold BytesReader_Read.
        cbn [br_i br_s length].
        destruct (Z.geb_spec i (Z.of_nat (length s))) as [Hge|Hlt]; [lia|].
        rewrite Nat.sub_0_r, Hlen. reflexivity. }
    rewrite ReadAtLeast_done by (simpl; lia). reflexivity.
Qed.

Lemma readInto_BytesReader (s p : list byte) (i : Z) :
  0 <= i -> (0 < length p)%nat -> (Z.to_nat i + length p <= length s)%nat ->
  readInto (mkBytesReader s i) p
  = Ok (take (length p) (drop (Z.to_nat i) s),
        mkBytesReader s (i + Z.of_nat (length p))).
Proof.
  intros Hi Hp Hn. unfold readInto.
  cbn [Read BytesReader_IoReader]. unfold BytesReader_Read. cbn [br_i br_s].
  destruct (Z.geb_spec i (Z.of_nat (length s))) as [Hge|Hlt]; [lia|].
  assert (Hlen : length (take (length p) (drop (Z.to_nat i) s)) = length p).
  { rewrite length_take, length_drop. lia. }
  rewrite Hlen, drop_all, app_nil_r. reflexivity.
Qed.

Lemma binaryRead_BytesReader (s : list byte) (i : Z) (n : nat) :
  0 <= i -> (Z.to_nat i + n <= length s)%nat ->
  binaryRead (mkBytesReader s i) n
  = Ok (bigEndian (take n (drop (Z.to_nat i) s)),
        mkBytesReader s (i + Z.of_nat n)).
Proof.
  intros Hi Hn. unfold binaryRead.
  rewrite ReadFull_BytesReader by assumption. reflexivity.
Qed.

Lemma binaryRead_Buffer (bs : list byte) (n : nat) :
  length bs = n ->
  binaryRead (mkBuffer bs) n = Ok (bigEndian bs, mkBuffer []).
Proof.
  intros Hn. unfold binaryRead, ReadFull.
  destruct n as [|n].
  - destruct bs; [reflexivity | discriminate].
  - erewrite ReadAtLeast_more; [| simpl; lia |].
    2:{ cbn [Read Buffer_IoReader]. unfold Buffer_Read. cbn [buf_bytes length].
        destruct bs as [|b bs]; [discriminate|]. reflexivity. }
    rewrite Nat.sub_0_r, take_ge, drop_ge by lia.
    rewrite ReadAtLeast_done by (simpl; lia). reflexivity.
Qed.

Lemma SeekCurrent_ok (s : list byte) (i offset : Z) :
  0 <= i + offset ->
  SeekCurrent (mkBytesReader s i) offset
  = Ok (i + offset, mkBytesReader s (i + offset)).
Proof.
  intros Hpos. unfold SeekCurrent. cbn [br_i br_s].
  destruct (Z.ltb_spec (i + offset) 0); [lia | reflexivity].
Qed.

Lemma length_take_drop (s : list byte) (j n : nat) :
  (j + n <= length s)%nat -> length (take n (drop j s)) = n.
Proof.
  intros Hle. rewrite length_take, length_drop. lia.
Qed.

(** Evaluates the closed indices and lengths in the goal. *)
Ltac norm_index :=
  cbn [length];
  repeat match goal with
    | |- context [Z.to_nat (Zpos ?p)] =>
        let n := eval vm_compute in (Z.to_nat (Zpos p)) in
        change (Z.to_nat (Zpos p)) with n
    end;
  rewrite ?length_take_drop by lia;
  repeat match goal with
    | |- context [mkBytesReader ?s ?i] =>
        lazymatch i with
        | Z0 => fail
        | Zpos _ => fail
        | context [length] => fail
        | _ => let i' := eval vm_compute in i in change i with i'
        end
    end.

Ltac reader_side :=
  cbn [length]; rewrite ?length_take_drop by lia; cbn [length]; lia.

Ltac reader_step :=
  first
    [ rewrite binaryRead_BytesReader by reader_side
    | rewrite readInto_BytesReader by reader_side
    | rewrite SeekCurrent_ok by lia
    | rewrite binaryRead_Buffer by reader_side ];
  cbn [mbind result_bind]; norm_index.

Lemma readInto_BytesReader_partial (s p : list byte) (i : Z) :
  0 <= i -> (Z.to_nat i < length s)%nat ->
  readInto (mkBytesReader s i) p
  = Ok (take (length p) (drop (Z.to_nat i) s)
          ++ drop (length (take (length p) (drop (Z.to_nat i) s))) p,
        mkBytesReader s
          (i + Z.of_nat (length (take (length p) (drop (Z.to_nat i) s))))).
Proof.
  intros Hi Hn. unfold readInto.
  cbn [Read BytesReader_IoReader]. unfold BytesReader_Read. cbn [br_i br_s].
  destruct (Z.geb_spec i (Z.of_nat (length s))) as [Hge|Hlt]; [lia|].
  reflexivity.
Qed.

(** [GetStreamInfo] on a payload of at least 19 bytes, as reads at fixed
    byte offsets: the last read takes what is left of the 16 checksum
    bytes and reports no error. *)
Lemma GetStreamInfo_offsets_partial (s : list byte)
    (rest : list MetaDataBlock) (frames : option Reader) :
  (19 <= length s)%nat ->
  GetStreamInfo (mkFile (mkBlock StreamInfo s :: rest) frames)
  = Ok (mkStreamInfoBlock
          (bigEndian (take 2 s))
          (bigEndian (take 2 (drop 2 s)))
          (bigEndian (x00 :: take 3 (drop 4 s)))
          (bigEndian (x00 :: take 3 (drop 7 s)))
          (shr (bigEndian (x00 :: take 3 (drop 10 s))) 4)
          (shr (shl 8 (bigEndian (take 1 (drop 12 s))) 4) 5 + 1)
          (shr (shl 16 (bigEndian (take 2 (drop 12 s))) 7) 11 + 1)
          (Z.shiftl (shr (shl 32 (bigEndian (take 4 (drop 13 s))) 4) 4) 8
           + bigEndian (take 1 (drop 17 s)))
          (take 16 (drop 18 s)
             ++ replicate (16 - (length s - 18)) x00)).
Proof.
  intros H.
  unfold GetStreamInfo. cbn [Meta Type_ Data].
  change (StreamInfo =? StreamInfo) with true. cbn [negb].
  unfold NewReader, readUint16, readUint8, readUint32, NewBuffer,
    Buffer_Write, Buffer_WriteByte, Buffer_Reset.
  cbn [buf_bytes app replicate].
  repeat reader_step.
  rewrite readInto_BytesReader_partial by (simpl; lia).
  cbn [mbind result_bind]. norm_index.
  do 3 f_equal.
  match goal with
  | |- drop ?n ?zeros = _ => change zeros with (replicate 16 x00)
  end.
  rewrite drop_replicate, length_take, length_drop. f_equal. lia.
Qed.

Lemma GetStreamInfo_offsets (s : list byte) (rest : list MetaDataBlock)
    (frames : option Reader) :
  (34 <= length s)%nat ->
  GetStreamInfo (mkFile (mkBlock StreamInfo s :: rest) frames)
  = Ok (mkStreamInfoBlock
          (bigEndian (take 2 s))
          (bigEndian (take 2 (drop 2 s)))
          (bigEndian (x00 :: take 3 (drop 4 s)))
          (bigEndian (x00 :: take 3 (drop 7 s)))
          (shr (bigEndian (x00 :: take 3 (drop 10 s))) 4)
          (shr (shl 8 (bigEndian (take 1 (drop 12 s))) 4) 5 + 1)
          (shr (shl 16 (bigEndian (take 2 (drop 12 s))) 7) 11 + 1)
          (Z.shiftl (shr (shl 32 (bigEndian (take 4 (drop 13 s))) 4) 4) 8
           + bigEndian (take 1 (drop 17 s)))
          (take 16 (drop 18 s))).
Proof.
  intros H. rewrite GetStreamInfo_offsets_partial by lia.
  replace (16 - (length s - 18))%nat with O by lia.
  cbn [replicate]. rewrite app_nil_r. reflexivity.
Qed.

(** Names every bit of the goal and records that it is 0 or 1. *)
Ltac name_bits :=
  repeat match goal with
    | |- context [bit ?b ?k] =>
        let v := fresh "t" in
        let Hv := fresh "Ht" in
        pose proof (bit_range b k) as Hv;
        set (v := bit b k) in *; clearbody v
    end.

Ltac bits_arith :=
  unfold bigEndian, shr, shl; cbn [fold_left take drop];
  rewrite ?Z.shiftr_div_pow2, ?Z.shiftl_mul_pow2 by lia;
  change (byteZ x00) with 0;
  rewrite ?byteZ_bits; name_bits;
  Z.div_mod_to_equations; lia.

Lemma decodeStreamParameters_offsets (s : list byte) :
  (34 <= length s)%nat ->
  decodeStreamParameters s
  = Some (mkStreamInfoBlock
          (bigEndian (take 2 s))
          (bigEndian (take 2 (drop 2 s)))
          (bigEndian (x00 :: take 3 (drop 4 s)))
          (bigEndian (x00 :: take 3 (drop 7 s)))
          (shr (bigEndian (x00 :: take 3 (drop 10 s))) 4)
          (shr (shl 8 (bigEndian (take 1 (drop 12 s))) 4) 5 + 1)
          (shr (shl 16 (bigEndian (take 2 (drop 12 s))) 7) 11 + 1)
          (Z.shiftl (shr (shl 32 (bigEndian (take 4 (drop 13 s))) 4) 4) 8
           + bigEndian (take 1 (drop 17 s)))
          (take 16 (drop 18 s))).
Proof.
  intros H.
  do 34 (destruct s as [|? s]; [simpl in H; lia|]). clear H.
  cbn. f_equal. f_equal.
  all: bits_arith.
Qed.

(** C2. For a STREAMINFO payload of at least 34 bytes, [GetStreamInfo]
    returns exactly the fields obtained by pulling successive big-endian,
    MSB-first bit groups of widths 16, 16, 24, 24, 20, 3 (plus one),
    5 (plus one) and 36 from the payload, followed by the 16 checksum bytes
    copied verbatim ([decodeStreamParameters]). *)
Theorem GetStreamInfo_reads_bit_groups (payload : list byte)
    (rest : list MetaDataBlock) (frames : option Reader) :
  (34 <= length payload)%nat ->
  exists sib,
    decodeStreamParameters payload = Some sib /\
    GetStreamInfo (mkFile (mkBlock StreamInfo payload :: rest) frames)
    = Ok sib.
Proof.
  intros H. eexists. split.
  - apply decodeStreamParameters_offsets. exact H.
  - apply GetStreamInfo_offsets. exact H.
Qed.

(** The example payload of the specification decodes to minBlockSize 1152,
    maxBlockSize 1152, sampleRate 96000, channelCount 2, bitDepth 24 and
    totalSampleCount 3828096. *)
Lemma GetStreamInfo_example :
  (34 <= length sampleStreamInfo)%nat /\
  GetStreamInfo (mkFile [mkBlock StreamInfo sampleStreamInfo] None)
  = Ok (mkStreamInfoBlock 1152 1152 1650 6130 96000 2 24 3828096
          (bytesOf [229; 209; 0; 198; 63; 81; 136; 144; 12; 102; 182; 166;
                    160; 140; 226; 235])).
Proof.
  assert (Hlen : (34 <= length sampleStreamInfo)%nat) by (vm_compute; lia).
  split; [exact Hlen|].
  destruct (GetStreamInfo_reads_bit_groups sampleStreamInfo [] None Hlen)
    as (sib & Hdec & Hget).
  rewrite Hget. vm_compute in Hdec. injection Hdec as <-. reflexivity.
Defined.

(** ** Sequential readers *)

Lemma BytesReader_read_step : read_step_law BytesReader_wf.
Proof.
  intros r n bs e r' Hwf Hread. unfold BytesReader_wf in *.
  cbn [Read BytesReader_IoReader Pending] in *.
  unfold BytesReader_Read in Hread.
  destruct (Z.geb_spec (br_i r) (Z.of_nat (length (br_s r)))) as [Hge|Hlt].
  - injection Hread as <- <- <-.
    rewrite drop_ge by lia. repeat split; auto; simpl; lia.
  - injection Hread as <- <- <-. cbn [br_i br_s].
    rewrite length_take, length_drop.
    split; [lia|]. split; [lia|]. split.
    + replace (Z.to_nat (br_i r
                 + Z.of_nat (n `min` (length (br_s r) - Z.to_nat (br_i r)))))
        with (Z.to_nat (br_i r) + n `min` (length (br_s r) - Z.to_nat (br_i r)))%nat
        by lia.
      rewrite <- drop_drop.
      destruct (Nat.le_ge_cases n (length (br_s r) - Z.to_nat (br_i r)))
        as [Hle|Hle].
      * rewrite Nat.min_l by lia. symmetry. apply take_drop.
      * rewrite Nat.min_r by lia.
        rewrite take_ge by (rewrite length_drop; lia).
        rewrite (drop_ge (drop _ _)) by (rewrite length_drop; lia).
        rewrite app_nil_r. reflexivity.
    + destruct n as [|n]; [left; reflexivity | right].
      destruct (drop (Z.to_nat (br_i r)) (br_s r)) eqn:E; [|discriminate].
      apply (f_equal length) in E. rewrite length_drop in E. simpl in E. lia.
Qed.

#[export] Instance BytesReader_SeqReaderLaw : SeqReaderLaw BytesReader.
Proof. exact BytesReader_read_step. Qed.

Lemma OsFile_read_step : read_step_law OsFile_wf.
Proof.
  intros f n bs e f' Hwf Hread. unfold OsFile_wf in *.
  cbn [Read OsFile_IoReader Pending] in *.
  unfold OsFile_Read in Hread.
  destruct n as [|n].
  - injection Hread as <- <- <-. simpl. auto.
  - destruct (take (S n) (drop (Z.to_nat (f_off f)) (f_data f)))
      as [|b bs'] eqn:E.
    + injection Hread as <- <- <-.
      destruct (drop (Z.to_nat (f_off f)) (f_data f)); [|discriminate].
      repeat split; auto; simpl; lia.
    + injection Hread as <- <- <-. cbn [f_off f_data].
      pose proof (f_equal length E) as Hlen.
      rewrite length_take, length_drop in Hlen. cbn [length] in *.
      split; [lia|]. split; [lia|]. split; [|right; discriminate].
      rewrite <- E.
      replace (Z.to_nat (f_off f + Z.of_nat (S (length bs'))))
        with (Z.to_nat (f_off f)
              + S n `min` (length (f_data f) - Z.to_nat (f_off f)))%nat
        by lia.
      rewrite <- drop_drop.
      destruct (Nat.le_ge_cases (S n)
                  (length (f_data f) - Z.to_nat (f_off f))) as [Hle|Hle].
      * rewrite Nat.min_l by lia. symmetry. apply take_drop.
      * rewrite Nat.min_r by lia.
        rewrite take_ge by (rewrite length_drop; lia).
        rewrite (drop_ge (drop _ _)) by (rewrite length_drop; lia).
        rewrite app_nil_r. reflexivity.
Qed.

#[export] Instance OsFile_SeqReaderLaw : SeqReaderLaw OsFile.
Proof. exact OsFile_read_step. Qed.

Lemma Reader_read_step : read_step_law Reader_wf.
Proof.
  intros c. induction c as [r|f|inner IH|prefix r IH|err];
    intros n bs e c' Hwf Hread;
    cbn [Read Reader_IoReader Pending Reader_Pending Reader_Read Reader_wf]
      in *.
  - destruct (BytesReader_Read r n) as [[bs0 e0] r0] eqn:E.
    injection Hread as <- <- <-.
    apply (BytesReader_read_step r n bs0 e0 r0 Hwf E).
  - destruct (OsFile_Read f n) as [[bs0 e0] f0] eqn:E.
    injection Hread as <- <- <-.
    apply (OsFile_read_step f n bs0 e0 f0 Hwf E).
  - destruct (Reader_Read inner n) as [[bs0 e0] r0] eqn:E.
    injection Hread as <- <- <-.
    apply (IH n bs0 e0 r0 Hwf E).
  - destruct prefix as [|p prefix].
    + destruct (Reader_Read r n) as [[bs0 e0] r0] eqn:E.
      injection Hread as <- <- <-.
      apply (IH n bs0 e0 r0 Hwf E).
    + injection Hread as <- <- <-.
      cbn [Reader_wf Reader_Pending].
      split; [exact Hwf|]. split; [rewrite length_take; lia|]. split.
      * rewrite app_assoc, take_drop. reflexivity.
      * destruct n; [left; reflexivity | right; discriminate].
  - destruct Hwf.
Qed.

#[export] Instance Reader_SeqReaderLaw : SeqReaderLaw Reader.
Proof. exact Reader_read_step. Qed.

Lemma ReadAtLeast_unfold {R} `{IoReader R} (fuel : nat) (r : R) (want : nat)
    (got : list byte) :
  (length got < want)%nat ->
  ReadAtLeast (S fuel) r want got
  = let '(bs, err, r') := Read r (want - length got)%nat in
    let got' := got ++ bs in
    match err with
    | None => ReadAtLeast fuel r' want got'
    | Some e =>
        if (want <=? length got')%nat then (got', None, r')
        else
          match got', e with
          | _ :: _, EOF => (got', Some ErrUnexpectedEOF, r')
          | _, _ => (got', Some e, r')
          end
    end.
Proof.
  intros Hlt. apply Nat.leb_gt in Hlt. simpl. rewrite Hlt. reflexivity.
Qed.

Section SeqReaderFacts.

Context {R : Type} `{SeqReaderLaw R}.

Lemma ReadAtLeast_spec (fuel : nat) : forall (r : R) (want : nat)
    (got : list byte),
  wf r -> (length got <= want)%nat -> (want - length got < fuel)%nat ->
  exists r', wf r' /\
    (((want - length got <= length (Pending r))%nat /\
      ReadAtLeast fuel r want got
      = (got ++ take (want - length got) (Pending r), None, r') /\
      Pending r' = drop (want - length got) (Pending r))
     \/
     ((length (Pending r) < want - length got)%nat /\
      ReadAtLeast fuel r want got
      = (got ++ Pending r, Some (eofError (got ++ Pending r)), r'))).
Proof.
  induction fuel as [|fuel IH]; intros r want got Hwf Hle Hfuel; [lia|].
  destruct (Nat.eq_dec (length got) want) as [Heq|Hne].
  - exists r. split; [exact Hwf|]. left.
    rewrite ReadAtLeast_done by lia.
    replace (want - length got)%nat with O by lia.
    rewrite take_0, drop_0, app_nil_r. split; [lia|]. split; reflexivity.
  - rewrite ReadAtLeast_unfold by lia.
    destruct (Read r (want - length got)) as [[bs e] r1] eqn:E.
    destruct (read_step r _ bs e r1 Hwf E) as (Hwf1 & Hlen & Hpend & He).
    destruct e as [e|].
    + destruct He as (-> & -> & Hnil).
      rewrite Hnil, app_nil_r in *.
      exists r1. split; [exact Hwf1|]. right.
      split; [simpl; lia|]. cbv zeta.
      replace (want <=? length got)%nat with false
        by (symmetry; apply Nat.leb_gt; lia).
      destruct got; reflexivity.
    + destruct He as [He|He]; [lia|].
      assert (Hbs : (0 < length bs)%nat) by (destruct bs; simpl; [easy|lia]).
      destruct (IH r1 want (got ++ bs)) as (r' & Hwf' & Hres);
        [exact Hwf1 | rewrite length_app; lia | rewrite length_app; lia |].
      exists r'. split; [exact Hwf'|]. cbv beta iota zeta.
      rewrite length_app in Hres. rewrite Hpend.
      destruct Hres as [(Hav & Heq & Hp)|(Hav & Heq)].
      * left. split; [rewrite length_app; lia|]. rewrite Heq, Hp.
        split.
        -- rewrite take_app, (take_ge bs) by lia.
           rewrite <- app_assoc. do 5 f_equal. lia.
        -- rewrite drop_app, (drop_ge bs) by lia.
           cbn [app]. f_equal. lia.
      * right. split; [rewrite length_app; lia|].
        rewrite Heq, <- app_assoc. reflexivity.
Qed.

Lemma ReadFull_ok (r : R) (n : nat) :
  wf r -> (n <= length (Pending r))%nat ->
  exists r', ReadFull r n = Ok (take n (Pending r), r') /\
             wf r' /\ Pending r' = drop n (Pending r).
Proof.
  intros Hwf Hn. unfold ReadFull.
  destruct (ReadAtLeast_spec (S n) r n [] Hwf) as (r' & Hwf' & Hres);
    [simpl; lia | simpl; lia |].
  cbn [length] in Hres. rewrite Nat.sub_0_r in Hres.
  destruct Hres as [(_ & -> & Hp)|(Hav & _)]; [|lia].
  exists r'. auto.
Qed.

Lemma ReadFull_short (r : R) (n : nat) :
  wf r -> (length (Pending r) < n)%nat ->
  ReadFull r n = Err (eofError (Pending r)).
Proof.
  intros Hwf Hn. unfold ReadFull.
  destruct (ReadAtLeast_spec (S n) r n [] Hwf) as (r' & Hwf' & Hres);
    [simpl; lia | simpl; lia |].
  cbn [length] in Hres. rewrite Nat.sub_0_r in Hres.
  destruct Hres as [(Hav & _)|(_ & ->)]; [lia|]. reflexivity.
Qed.

Lemma ReadFull_inv (r : R) (n : nat) bs r' :
  wf r -> ReadFull r n = Ok (bs, r') ->
  wf r' /\ length bs = n /\ Pending r = bs ++ Pending r'.
Proof.
  intros Hwf Hread.
  destruct (Nat.le_gt_cases n (length (Pending r))) as [Hle|Hgt].
  - destruct (ReadFull_ok r n Hwf Hle) as (r1 & Heq & Hwf1 & Hp).
    rewrite Heq in Hread. injection Hread as <- <-.
    split; [exact Hwf1|]. split; [rewrite length_take; lia|].
    rewrite Hp, take_drop. reflexivity.
  - rewrite ReadFull_short in Hread by assumption. discriminate.
Qed.

End SeqReaderFacts.

(** ** The block codec *)

Lemma byteOf_eq (x : Z) (b : byte) : x mod 256 = byteZ b -> byteOf x = b.
Proof.
  intros Hx. rewrite <- (byteOf_byteZ b). unfold byteOf.
  rewrite Hx, (Z.mod_small (byteZ b)) by apply byteZ_range. reflexivity.
Qed.

Lemma header_byte_roundtrip (h : byte) :
  byteOf (Z.lor (Z.shiftl (Z.b2z (negb (shr (byteZ h) 7 =? 0))) 7)
            (shr (shl 8 (byteZ h) 1) 1)) = h.
Proof.
  destruct h; vm_compute; reflexivity.
Qed.

Lemma header_type_range (h : byte) : 0 <= shr (shl 8 (byteZ h) 1) 1 < 128.
Proof.
  destruct h; vm_compute; split; congruence.
Qed.

Lemma header_length (h0 h1 h2 h3 : byte) :
  shr (shl 32 (bigEndian [h0; h1; h2; h3]) 8) 8
  = byteZ h1 * 65536 + byteZ h2 * 256 + byteZ h3.
Proof.
  unfold shr, shl, bigEndian. cbn [fold_left].
  rewrite Z.shiftr_div_pow2, Z.shiftl_mul_pow2 by lia.
  pose proof (byteZ_range h0). pose proof (byteZ_range h1).
  pose proof (byteZ_range h2). pose proof (byteZ_range h3).
  change (2 ^ 8) with 256. change (2 ^ 32) with 4294967296.
  Z.div_mod_to_equations. lia.
Qed.

Lemma Marshal_length (c : MetaDataBlock) (isfinal : bool) (m : list byte) :
  Marshal c isfinal = Ok m -> length m = (4 + length (Data c))%nat.
Proof.
  unfold Marshal. destruct (_ >? _); [discriminate|].
  intros [= <-]. reflexivity.
Qed.

Lemma Marshal_ok (c : MetaDataBlock) (isfinal : bool) :
  Z.of_nat (length (Data c)) <= 2 ^ 24 - 1 ->
  exists hdr, length hdr = 4%nat /\ Marshal c isfinal = Ok (hdr ++ Data c).
Proof.
  intros Hlen. unfold Marshal.
  destruct (Z.gtb_spec (Z.of_nat (length (Data c))) (2 ^ 24 - 1)); [lia|].
  eexists. split; [|reflexivity]. reflexivity.
Qed.

Section ParseFacts.

Context {R : Type} `{SeqReaderLaw R}.

Lemma parseMetadataBlock_inv (f : R) blk (fin : bool) (f' : R) :
  wf f -> parseMetadataBlock f = Ok (blk, fin, f') ->
  wf f' /\ blockOk blk /\
  exists m, Marshal blk fin = Ok m /\ Pending f = m ++ Pending f'.
Proof.
  intros Hwf Hp. unfold parseMetadataBlock in Hp.
  destruct (ReadFull f 4) as [[header f1]| |] eqn:E1;
    cbn [mbind result_bind] in Hp; try discriminate.
  destruct (ReadFull_inv _ _ _ _ Hwf E1) as (Hwf1 & Hlen1 & Hp1).
  destruct header as [|h0 [|h1 [|h2 [|h3 [|]]]]]; try discriminate.
  change (readUint32 (NewBuffer [h0; h1; h2; h3]))
    with (Ok (bigEndian [h0; h1; h2; h3], mkBuffer [])) in Hp.
  cbn [mbind result_bind] in Hp. rewrite header_length in Hp.
  destruct (ReadFull f1 _) as [[buf f2]| |] eqn:E2;
    cbn [mbind result_bind] in Hp; try discriminate.
  destruct (ReadFull_inv _ _ _ _ Hwf1 E2) as (Hwf2 & Hlen2 & Hp2).
  injection Hp as <- <- <-.
  pose proof (byteZ_range h1). pose proof (byteZ_range h2).
  pose proof (byteZ_range h3).
  split; [exact Hwf2|]. split.
  { split; cbn [Type_ Data]; [apply header_type_range | lia]. }
  exists ([h0; h1; h2; h3] ++ buf). split.
  - unfold Marshal. cbn [Type_ Data].
    destruct (Z.gtb_spec (Z.of_nat (length buf)) (2 ^ 24 - 1)); [lia|].
    rewrite header_byte_roundtrip.
    rewrite !Z.shiftr_div_pow2 by lia.
    cbn [app]. repeat f_equal.
    all: apply byteOf_eq; rewrite Hlen2;
      change (2 ^ 16) with 65536; change (2 ^ 8) with 256;
      Z.div_mod_to_equations; lia.
  - rewrite Hp1, Hp2, <- app_assoc. reflexivity.
Qed.

Lemma readMetadataBlocksLoop_inv (fuel : nat) : forall (f : R) acc blocks
    (f' : R),
  wf f -> readMetadataBlocksLoop fuel f acc = Ok (blocks, f') ->
  wf f' /\
  exists new enc,
    blocks = acc ++ new /\ new <> [] /\ Forall blockOk new /\
    encodeBlocks new = Ok enc /\ Pending f = enc ++ Pending f'.
Proof.
  induction fuel as [|fuel IH]; intros f acc blocks f' Hwf Hl;
    [discriminate|].
  cbn [readMetadataBlocksLoop] in Hl.
  destruct (parseMetadataBlock f) as [[[blk fin] f1]| |] eqn:E;
    cbn [mbind result_bind] in Hl; try discriminate.
  destruct (parseMetadataBlock_inv _ _ _ _ Hwf E)
    as (Hwf1 & Hok & m & Hm & Hp).
  destruct fin.
  - injection Hl as <- <-. split; [exact Hwf1|].
    exists [blk], (m ++ []). split; [reflexivity|]. split; [discriminate|].
    split; [constructor; [exact Hok | constructor]|]. split.
    + cbn [encodeBlocks]. rewrite Hm. reflexivity.
    + rewrite app_nil_r. exact Hp.
  - destruct (IH _ _ _ _ Hwf1 Hl)
      as (Hwf' & new & enc & -> & Hne & Hall & Henc & Hp').
    split; [exact Hwf'|].
    exists (blk :: new), (m ++ enc).
    split; [rewrite <- app_assoc; reflexivity|]. split; [discriminate|].
    split; [constructor; assumption|]. split.
    + cbn [encodeBlocks]. destruct new as [|b new]; [congruence|].
      rewrite Hm. cbn [mbind result_bind].
      rewrite Henc. reflexivity.
    + rewrite Hp, Hp', <- app_assoc. reflexivity.
Qed.

Lemma ParseMetadata_inv (f : R) (file : File) (f' : R) :
  wf f -> ParseMetadata f = Ok (file, f') ->
  wf f' /\ Frames file = None /\ Meta file <> [] /\
  Forall blockOk (Meta file) /\
  exists enc,
    encodeBlocks (Meta file) = Ok enc /\
    Pending f = magic ++ enc ++ Pending f'.
Proof.
  intros Hwf Hp. unfold ParseMetadata, readFLACHead in Hp.
  destruct (ReadFull f 4) as [[buffer f1]| |] eqn:E1;
    cbn [mbind result_bind] in Hp; try discriminate.
  destruct (ReadFull_inv _ _ _ _ Hwf E1) as (Hwf1 & _ & Hp1).
  destruct (decide (buffer = magic)) as [->|]; [|discriminate].
  cbn [mbind result_bind] in Hp. unfold readMetadataBlocks in Hp.
  destruct (readMetadataBlocksLoop _ f1 []) as [[meta f2]| |] eqn:E2;
    cbn [mbind result_bind] in Hp; try discriminate.
  injection Hp as <- <-.
  destruct (readMetadataBlocksLoop_inv _ _ _ _ _ Hwf1 E2)
    as (Hwf2 & new & enc & -> & Hne & Hall & Henc & Hp2).
  cbn [app Meta Frames].
  split; [exact Hwf2|]. split; [reflexivity|]. split; [exact Hne|].
  split; [exact Hall|].
  exists enc. split; [exact Henc|]. rewrite Hp1, Hp2. reflexivity.
Qed.

End ParseFacts.

(** ** Writing to a [bytes.Buffer] *)

Lemma encodeBlocks_cons (meta : MetaDataBlock) (rest : list MetaDataBlock)
    (enc : list byte) :
  encodeBlocks (meta :: rest) = Ok enc ->
  exists m e,
    Marshal meta (match rest with [] => true | _ => false end) = Ok m /\
    encodeBlocks rest = Ok e /\ enc = m ++ e.
Proof.
  cbn [encodeBlocks]. intros Henc.
  destruct (Marshal meta _) as [m| |]; cbn [mbind result_bind] in Henc;
    try discriminate.
  destruct (encodeBlocks rest) as [e| |]; cbn [mbind result_bind] in Henc;
    try discriminate.
  injection Henc as <-. eauto.
Qed.

Lemma writeBlocks_Buffer (metas : list MetaDataBlock) : forall (i len n : Z)
    (acc enc : list byte),
  encodeBlocks metas = Ok enc ->
  len = i + Z.of_nat (length metas) ->
  writeBlocks metas i len n (mkBuffer acc)
  = (n + Z.of_nat (length enc), None, mkBuffer (acc ++ enc)).
Proof.
  induction metas as [|meta rest IH]; intros i len n acc enc Henc Hlen.
  - injection Henc as <-. cbn [writeBlocks length].
    rewrite Z.add_0_r, app_nil_r. reflexivity.
  - destruct (encodeBlocks_cons _ _ _ Henc) as (m & e & Hm & He & ->).
    cbn [writeBlocks].
    replace (i =? len - 1) with (match rest with [] => true | _ => false end).
    2:{ cbn [length] in Hlen. destruct rest; cbn [length] in Hlen; symmetry;
        [apply Z.eqb_eq | apply Z.eqb_neq]; lia. }
    rewrite Hm.
    cbn [Write Buffer_IoWriter]. unfold Buffer_Write. cbn [buf_bytes].
    rewrite (IH (i + 1) len _ _ e He) by (cbn [length] in Hlen; lia).
    rewrite length_app, <- app_assoc. do 2 f_equal. lia.
Qed.

(** A failing [Marshal] makes [writeBlocks] stop with that error. *)
Lemma writeBlocks_Buffer_fails (metas : list MetaDataBlock) :
  forall (i len n : Z) (acc : list byte) (e : error),
  encodeBlocks metas = Err e ->
  len = i + Z.of_nat (length metas) ->
  exists n' w', writeBlocks metas i len n (mkBuffer acc) = (n', Some e, w').
Proof.
  induction metas as [|meta rest IH]; intros i len n acc e Henc Hlen;
    [discriminate|].
  cbn [writeBlocks].
  replace (i =? len - 1) with (match rest with [] => true | _ => false end).
  2:{ cbn [length] in Hlen. destruct rest; cbn [length] in Hlen; symmetry;
      [apply Z.eqb_eq | apply Z.eqb_neq]; lia. }
  cbn [encodeBlocks] in Henc.
  destruct (Marshal meta _) as [m|e'|p] eqn:Hm;
    cbn [mbind result_bind] in Henc; try discriminate.
  - cbn [Write Buffer_IoWriter]. unfold Buffer_Write. cbn [buf_bytes].
    destruct (encodeBlocks rest) as [x|e'|p] eqn:He;
      cbn [mbind result_bind] in Henc; try discriminate.
    injection Henc as ->.
    apply (IH (i + 1) len); [reflexivity | cbn [length] in Hlen; lia].
  - injection Henc as ->. eauto.
Qed.

Lemma encodeBlocks_no_panic (metas : list MetaDataBlock) (p : panic) :
  encodeBlocks metas <> Panic p.
Proof.
  induction metas as [|meta rest IH]; [discriminate|].
  cbn [encodeBlocks]. unfold Marshal.
  destruct (_ >? _); cbn [mbind result_bind]; [discriminate|].
  destruct (encodeBlocks rest); cbn [mbind result_bind];
    [discriminate | discriminate | exact IH].
Qed.

(** [io.Copy] of a well-formed reader into a buffer appends its pending
    bytes. *)
Lemma copyLoop_Buffer (fuel : nat) : forall (src : Reader) (acc : list byte)
    (n : Z),
  wf src -> (length (Pending src) < fuel)%nat ->
  exists src',
    copyLoop fuel (mkBuffer acc) src n
    = (n + Z.of_nat (length (Pending src)), None,
       mkBuffer (acc ++ Pending src), src').
Proof.
  induction fuel as [|fuel IH]; intros src acc n Hwf Hfuel; [lia|].
  cbn [copyLoop].
  destruct (Read src copyBufSize) as [[bs e] src1] eqn:E.
  destruct (read_step src _ bs e src1 Hwf E) as (Hwf1 & Hlen & Hpend & He).
  destruct e as [e|].
  - destruct He as (-> & -> & Hnil). rewrite Hnil.
    cbn [length Z.of_nat Z.ltb Z.compare]. exists src1.
    rewrite Z.add_0_r, app_nil_r. reflexivity.
  - destruct He as [He|He]; [discriminate|].
    assert (Hbs : (0 < length bs)%nat) by (destruct bs; simpl; [easy|lia]).
    destruct (Z.ltb_spec 0 (Z.of_nat (length bs))) as [_|]; [|lia].
    cbn [Write Buffer_IoWriter]. unfold Buffer_Write. cbn [buf_bytes].
    rewrite Z.eqb_refl. cbn [negb].
    destruct (IH src1 (acc ++ bs) (n + Z.of_nat (length bs)) Hwf1)
      as (src' & Heq).
    { rewrite Hpend, length_app in Hfuel. lia. }
    exists src'. rewrite Heq, Hpend, length_app, <- app_assoc.
    do 3 f_equal. lia.
Qed.

Lemma Copy_Buffer (src : Reader) (acc : list byte) :
  wf src ->
  exists src',
    Copy (mkBuffer acc) src
    = (Z.of_nat (length (Pending src)), None,
       mkBuffer (acc ++ Pending src), src').
Proof.
  intros Hwf. unfold Copy.
  destruct (copyLoop_Buffer (S (length (Pending src))) src acc 0 Hwf)
    as (src' & Heq); [lia|].
  exists src'. rewrite Heq. reflexivity.
Qed.

Lemma WriteTo_Buffer_meta (c : File) (acc enc : list byte) :
  encodeBlocks (Meta c) = Ok enc -> Frames c = None ->
  WriteTo c (mkBuffer acc)
  = (4 + Z.of_nat (length enc), None, c, mkBuffer (acc ++ magic ++ enc)).
Proof.
  intros Henc Hfr. unfold WriteTo.
  cbn [Write Buffer_IoWriter]. unfold Buffer_Write. cbn [buf_bytes].
  rewrite (writeBlocks_Buffer _ 0 _ _ _ enc Henc) by lia.
  rewrite Hfr, <- app_assoc. reflexivity.
Qed.

Lemma WriteTo_Buffer_frames (c : File) (frames : Reader)
    (acc enc : list byte) :
  encodeBlocks (Meta c) = Ok enc -> Frames c = Some frames -> wf frames ->
  WriteTo c (mkBuffer acc)
  = (4 + Z.of_nat (length enc) + Z.of_nat (length (Pending frames)), None,
     mkFile (Meta c) (Some (ErrorReader ErrorAlreadyWritten)),
     mkBuffer (acc ++ magic ++ enc ++ Pending frames)).
Proof.
  intros Henc Hfr Hwf. unfold WriteTo.
  cbn [Write Buffer_IoWriter]. unfold Buffer_Write. cbn [buf_bytes].
  rewrite (writeBlocks_Buffer _ 0 _ _ _ enc Henc) by lia.
  rewrite Hfr.
  destruct (Copy_Buffer frames ((acc ++ magic) ++ enc) Hwf) as (src' & ->).
  rewrite <- !app_assoc. reflexivity.
Qed.

Lemma WriteTo_v1_Buffer_frames (c : File) (frames : Reader)
    (acc enc : list byte) :
  encodeBlocks (Meta c) = Ok enc -> Frames c = Some frames -> wf frames ->
  exists frames',
    WriteTo_v1 c (mkBuffer acc)
    = (4 + Z.of_nat (length enc) + Z.of_nat (length (Pending frames)), None,
       mkFile (Meta c) (Some frames'),
       mkBuffer (acc ++ magic ++ enc ++ Pending frames)).
Proof.
  intros Henc Hfr Hwf. unfold WriteTo_v1.
  cbn [Write Buffer_IoWriter]. unfold Buffer_Write. cbn [buf_bytes].
  rewrite (writeBlocks_Buffer _ 0 _ _ _ enc Henc) by lia.
  rewrite Hfr.
  destruct (Copy_Buffer frames ((acc ++ magic) ++ enc) Hwf) as (src' & ->).
  exists src'. rewrite <- !app_assoc. reflexivity.
Qed.

(** ** Frame sync check *)

Lemma checkFLACStream_two (f : Reader) (b0 b1 : byte) (rest : list byte) :
  wf f -> Pending f = b0 :: b1 :: rest ->
  exists f', wf f' /\ Pending f' = rest /\
    checkFLACStream f
    = if negb (byteZ b0 =? 0xFF) || negb (shr (byteZ b1) 2 =? 0x3E)
      then Err ErrorNoSyncCode
      else Ok (PrefixReader [b0; b1] f').
Proof.
  intros Hwf Hp. unfold checkFLACStream.
  destruct (ReadFull_ok f 2 Hwf) as (f' & Heq & Hwf' & Hp').
  { rewrite Hp. simpl. lia. }
  rewrite Hp in Heq, Hp'. cbn [take drop] in Heq, Hp'.
  exists f'. rewrite Heq. cbn [mbind result_bind]. auto.
Qed.

Lemma checkFLACStream_short (f : Reader) :
  wf f -> (length (Pending f) < 2)%nat ->
  checkFLACStream f = Err (eofError (Pending f)).
Proof.
  intros Hwf Hlen. unfold checkFLACStream.
  rewrite ReadFull_short by assumption. reflexivity.
Qed.

Lemma checkFLACStream_inv (f fr : Reader) :
  wf f -> checkFLACStream f = Ok fr ->
  wf fr /\ Pending fr = Pending f /\ (2 <= length (Pending f))%nat.
Proof.
  intros Hwf Hc.
  destruct (Pending f) as [|b0 [|b1 rest]] eqn:Hp.
  - rewrite checkFLACStream_short in Hc by (try rewrite Hp; simpl; auto).
    discriminate.
  - rewrite checkFLACStream_short in Hc by (try rewrite Hp; simpl; auto).
    discriminate.
  - destruct (checkFLACStream_two f b0 b1 rest Hwf Hp)
      as (f' & Hwf' & Hp' & Heq).
    rewrite Heq in Hc. destruct (_ || _); [discriminate|].
    injection Hc as <-. cbn [wf Reader_SeqReader Reader_wf].
    cbn [Pending Reader_IoReader Reader_Pending] in *.
    rewrite Hp'. split; [exact Hwf'|]. split; [reflexivity | simpl; lia].
Qed.

Lemma ParseBytes_inv (f : Reader) (file : File) :
  wf f -> ParseBytes f = Ok file ->
  Meta file <> [] /\ Forall blockOk (Meta file) /\
  exists enc frames,
    encodeBlocks (Meta file) = Ok enc /\
    Frames file = Some frames /\ wf frames /\
    (2 <= length (Pending frames))%nat /\
    Pending f = magic ++ enc ++ Pending frames.
Proof.
  intros Hwf Hp. unfold ParseBytes in Hp.
  destruct (ParseMetadata f) as [[res f1]| |] eqn:E1;
    cbn [mbind result_bind] in Hp; try discriminate.
  destruct (ParseMetadata_inv _ _ _ Hwf E1)
    as (Hwf1 & _ & Hne & Hall & enc & Henc & Hp1).
  destruct (checkFLACStream f1) as [frames| |] eqn:E2;
    cbn [mbind result_bind] in Hp; try discriminate.
  destruct (checkFLACStream_inv _ _ Hwf1 E2) as (Hwf2 & Hp2 & Hlen).
  injection Hp as <-. cbn [Meta Frames].
  split; [exact Hne|]. split; [exact Hall|].
  exists enc, frames. rewrite Hp2. auto 10.
Qed.

(** ** Relocating the audio region

    The facts about one chunk copy, on plain lists: [D0] is the file
    before the save, [h] its header length, [e] the size change. *)

Lemma take_plus {A} (l : list A) (p c : nat) :
  take (p + c) l = take p l ++ take c (drop p l).
Proof.
  revert l. induction p as [|p IH]; intros l; [reflexivity|].
  destruct l as [|x l]; cbn [Nat.add take drop app].
  - rewrite take_nil. reflexivity.
  - rewrite IH. reflexivity.
Qed.

Section ChunkCopy.

Variable D0 : list byte.
Variables h e : nat.

Lemma take_eq_prefix (d : list byte) (n k : nat) :
  (k <= n)%nat -> take n d = take n D0 -> take k d = take k D0.
Proof.
  intros Hk Heq.
  rewrite <- (Nat.min_l k n) by lia.
  rewrite <- !take_take, Heq. reflexivity.
Qed.

Lemma take_eq_chunk (d : list byte) (n j c : nat) :
  (j + c <= n)%nat -> take n d = take n D0 ->
  take c (drop j d) = take c (drop j D0).
Proof.
  intros Hk Heq. rewrite !take_drop_commute.
  rewrite (take_eq_prefix d n (j + c)) by assumption. reflexivity.
Qed.

Lemma forward_step (d : list byte) (m c : nat) :
  (c <= m)%nat -> forwardInv D0 h e d m ->
  forwardInv D0 h e
    (take (h + (m - c) + e) d ++ take c (drop (h + (m - c)) d)
       ++ drop (h + (m - c) + e + c) d)
    (m - c).
Proof.
  intros Hc (Hlen & Hm & Htake & Hdrop).
  assert (Hbuf : take c (drop (h + (m - c)) d)
                 = take c (drop (h + (m - c)) D0)).
  { apply (take_eq_chunk d (h + m)); [lia | exact Htake]. }
  assert (Hlbuf : length (take c (drop (h + (m - c)) D0)) = c).
  { rewrite length_take, length_drop. lia. }
  rewrite Hbuf. repeat split.
  - rewrite !length_app, length_take, length_drop, Hlbuf. lia.
  - lia.
  - rewrite take_app_le by (rewrite length_take; lia).
    rewrite take_take, Nat.min_l by lia.
    apply (take_eq_prefix d (h + m)); [lia | exact Htake].
  - rewrite drop_app_length' by (rewrite length_take; lia).
    replace (h + (m - c) + e + c)%nat with (h + m + e)%nat by lia.
    rewrite Hdrop.
    replace (h + m)%nat with (h + (m - c) + c)%nat by lia.
    rewrite <- (drop_drop D0 c (h + (m - c))). apply take_drop.
Qed.

Lemma forward_step' (d : list byte) (m c x c' y z m' : nat) :
  x = (h + (m - c) + e)%nat -> c' = c -> y = (h + (m - c))%nat ->
  z = (x + c)%nat -> m' = (m - c)%nat ->
  (c <= m)%nat -> forwardInv D0 h e d m ->
  forwardInv D0 h e (take x d ++ take c' (drop y d) ++ drop z d) m'.
Proof.
  intros -> -> -> -> ->. apply forward_step.
Qed.

Lemma backward_step (d : list byte) (p c : nat) :
  (h + p + c <= length D0)%nat -> backwardInv D0 h e d p ->
  backwardInv D0 h e
    (take (h + p - e) d ++ take c (drop (h + p) d)
       ++ drop (h + p - e + c) d)
    (p + c).
Proof.
  intros Hc (Hlen & He & Hp & Hdrop & Htake).
  assert (Hbuf : take c (drop (h + p) d) = take c (drop (h + p) D0)).
  { rewrite Hdrop. reflexivity. }
  assert (Hlbuf : length (take c (drop (h + p) D0)) = c).
  { rewrite length_take, length_drop. lia. }
  rewrite Hbuf. repeat split.
  - rewrite !length_app, length_take, length_drop, Hlbuf. lia.
  - lia.
  - lia.
  - rewrite app_assoc, drop_app_ge
      by (rewrite length_app, length_take, Hlbuf; lia).
    rewrite length_app, length_take, Hlbuf, drop_drop.
    replace (h + p - e + c
             + (h + (p + c) - ((h + p - e) `min` length d + c)))%nat
      with (h + p + c)%nat by lia.
    replace (h + (p + c))%nat with (h + p + c)%nat by lia.
    rewrite <- (drop_drop d c (h + p)), <- (drop_drop D0 c (h + p)), Hdrop.
    reflexivity.
  - rewrite drop_app_le by (rewrite length_take; lia).
    replace (h + p - e)%nat with (h - e + p)%nat by lia.
    rewrite <- take_drop_commute, Htake.
    assert (Hlp : length (take p (drop h D0)) = p).
    { rewrite length_take, length_drop. lia. }
    rewrite take_app, Hlp, (take_ge (take p _)) by lia.
    replace (p + c - p)%nat with c by lia.
    rewrite take_app_le by lia.
    rewrite take_take, Nat.min_id, take_plus, drop_drop. reflexivity.
Qed.

Lemma backward_step' (d : list byte) (p c x c' y z p' : nat) :
  x = (h + p - e)%nat -> c' = c -> y = (h + p)%nat -> z = (x + c)%nat ->
  p' = (p + c)%nat ->
  (h + p + c <= length D0)%nat -> backwardInv D0 h e d p ->
  backwardInv D0 h e (take x d ++ take c' (drop y d) ++ drop z d) p'.
Proof.
  intros -> -> -> -> ->. apply backward_step.
Qed.

End ChunkCopy.

(** ** Random access *)

Lemma ReadAt_full (f : OsFile) (n : nat) (off : Z) :
  0 <= off -> (Z.to_nat off + n <= length (f_data f))%nat ->
  ReadAt f n off = (take n (drop (Z.to_nat off) (f_data f)), None).
Proof.
  intros Hoff Hn. unfold ReadAt.
  destruct (Z.ltb_spec off 0); [lia|].
  assert (Hlen : length (take n (drop (Z.to_nat off) (f_data f))) = n).
  { rewrite length_take, length_drop. lia. }
  rewrite Hlen, Nat.sub_diag, Nat.ltb_irrefl. cbn [replicate].
  rewrite app_nil_r. reflexivity.
Qed.

Lemma WriteAt_inside (f : OsFile) (b : list byte) (off : Z) :
  0 <= off -> (0 < length b)%nat ->
  (Z.to_nat off + length b <= length (f_data f))%nat ->
  WriteAt f b off
  = Ok (mkOsFile
          (take (Z.to_nat off) (f_data f) ++ b
             ++ drop (Z.to_nat off + length b) (f_data f))
          (f_off f)).
Proof.
  intros Hoff Hb Hn. unfold WriteAt.
  destruct (Z.ltb_spec off 0); [lia|].
  destruct b as [|x b]; [simpl in Hb; lia|].
  replace (Z.to_nat off - length (f_data f))%nat with O by lia.
  reflexivity.
Qed.

Section ShiftLoops.

Variable B : Z.
Hypothesis B_pos : 0 < B.

Variable D0 : list byte.
Variables h a e : nat.
Hypothesis D0_length : length D0 = (h + a)%nat.
Hypothesis e_pos : (0 < e)%nat.

Lemma shiftForward_spec (fuel : nat) : forall (file : OsFile) (i : Z),
  0 <= i ->
  forwardInv D0 h e (f_data file) (Z.to_nat (Z.of_nat a - i)) ->
  (Z.to_nat (Z.of_nat a - i) <= fuel)%nat ->
  exists file',
    shiftForward B fuel file (Z.of_nat h) (Z.of_nat a) (Z.of_nat e) i
    = Ok file' /\
    forwardInv D0 h e (f_data file') 0 /\ f_off file' = f_off file.
Proof.
  induction fuel as [|fuel IH]; intros file i Hi Hinv Hfuel.
  - cbn [shiftForward].
    destruct (Z.ltb_spec i (Z.of_nat a)); [lia|].
    exists file. replace (Z.to_nat (Z.of_nat a - i)) with O in Hinv by lia.
    auto.
  - cbn [shiftForward].
    destruct (Z.ltb_spec i (Z.of_nat a)) as [Hlt|Hge].
    2:{ exists file.
        replace (Z.to_nat (Z.of_nat a - i)) with O in Hinv by lia. auto. }
    set (m := Z.to_nat (Z.of_nat a - i)) in *.
    pose proof Hinv as (Hlen & Hm & _ & _).
    set (c := Z.to_nat (Z.min B (Z.of_nat a - i))).
    assert (Hc : (0 < c <= m)%nat) by lia.
    destruct (Z.ltb_spec (Z.of_nat a - i - B) 0) as [Hneg|Hpos];
      cbv beta iota zeta;
      [ destruct (Z.ltb_spec (B + (Z.of_nat a - i - B)) 0); [lia|]
      | destruct (Z.ltb_spec B 0); [lia|] ];
      rewrite ReadAt_full by lia;
      (rewrite WriteAt_inside
         by (rewrite ?length_take, ?length_drop; lia));
      cbn [wrapErr mbind result_bind];
      match goal with
      | |- exists file', shiftForward _ _ ?f1 _ _ _ _ = Ok file' /\ _ =>
          destruct (IH f1 (i + B)) as (file' & Heq & Hinv' & Hoff');
          [ lia
          | cbn [f_data]; rewrite length_take, length_drop;
            apply (forward_step' D0 h e _ m c); [lia .. | exact Hinv]
          | lia
          | exists file'; rewrite Heq; split; [reflexivity|];
            split; [exact Hinv' | exact Hoff'] ]
      end.
Qed.

Hypothesis e_le_h : (e <= h)%nat.

Lemma shiftBackward_spec (fuel : nat) : forall (file : OsFile) (i : Z),
  0 <= i ->
  backwardInv D0 h e (f_data file) (Z.to_nat (Z.min i (Z.of_nat a))) ->
  (Z.to_nat (Z.of_nat a - i) <= fuel)%nat ->
  exists file',
    shiftBackward B fuel file (Z.of_nat h) (Z.of_nat a)
      (Z.of_nat h + Z.of_nat a) (- Z.of_nat e) i
    = Ok file' /\
    backwardInv D0 h e (f_data file') a /\ f_off file' = f_off file.
Proof.
  induction fuel as [|fuel IH]; intros file i Hi Hinv Hfuel.
  - cbn [shiftBackward].
    destruct (Z.ltb_spec i (Z.of_nat a)); [lia|].
    exists file.
    replace (Z.to_nat (Z.min i (Z.of_nat a))) with a in Hinv by lia.
    auto.
  - cbn [shiftBackward].
    destruct (Z.ltb_spec i (Z.of_nat a)) as [Hlt|Hge].
    2:{ exists file.
        replace (Z.to_nat (Z.min i (Z.of_nat a))) with a in Hinv by lia.
        auto. }
    set (p := Z.to_nat (Z.min i (Z.of_nat a))) in *.
    pose proof Hinv as (Hlen & _ & Hp & _ & _).
    set (c := Z.to_nat (Z.min B (Z.of_nat a - i))).
    assert (Hc : (0 < c /\ h + p + c <= length D0)%nat) by lia.
    destruct (Z.gtb_spec (Z.of_nat h + i + B) (Z.of_nat h + Z.of_nat a))
      as [Hbig|Hsmall];
      cbv beta iota zeta;
      [ destruct (Z.leb_spec (Z.of_nat h + Z.of_nat a - (Z.of_nat h + i)) 0);
        [lia|]
      | destruct (Z.leb_spec B 0); [lia|] ];
      rewrite ReadAt_full by lia;
      (rewrite WriteAt_inside
         by (rewrite ?length_take, ?length_drop; lia));
      cbn [wrapErr mbind result_bind];
      match goal with
      | |- exists file', shiftBackward _ _ ?f1 _ _ _ _ _ = Ok file' /\ _ =>
          destruct (IH f1 (i + B)) as (file' & Heq & Hinv' & Hoff');
          [ lia
          | cbn [f_data]; rewrite length_take, length_drop;
            apply (backward_step' D0 h e _ p c); [lia .. | exact Hinv]
          | lia
          | exists file'; rewrite Heq; split; [reflexivity|];
            split; [exact Hinv' | exact Hoff'] ]
      end.
Qed.

End ShiftLoops.

(** ** What parsing leaves of the reader *)

Section Preserved.

Context {R : Type} `{IoReader R}.
Variable P : R -> Prop.
Hypothesis P_Read : forall (r : R) (n : nat), P r -> P (Read r n).2.

Lemma ReadAtLeast_preserves (fuel : nat) : forall (r : R) (want : nat)
    (got : list byte),
  P r -> P (ReadAtLeast fuel r want got).2.
Proof.
  induction fuel as [|fuel IH]; intros r want got HP;
    cbn [ReadAtLeast]; destruct (want <=? length got)%nat; try exact HP.
  pose proof (P_Read r (want - length got) HP) as HP1.
  destruct (Read r (want - length got)) as [[bs err] r1].
  cbn [snd] in HP1. cbv zeta.
  destruct err as [e|]; [|apply IH; exact HP1].
  destruct (want <=? length (got ++ bs))%nat; [exact HP1|].
  destruct (got ++ bs); [exact HP1|]. destruct e; exact HP1.
Qed.

Lemma ReadFull_preserves (r : R) (n : nat) bs (r' : R) :
  P r -> ReadFull r n = Ok (bs, r') -> P r'.
Proof.
  intros HP Hread. unfold ReadFull in Hread.
  pose proof (ReadAtLeast_preserves (S n) r n [] HP) as HP1.
  destruct (ReadAtLeast (S n) r n []) as [[bs1 [e|]] r1];
    [discriminate|].
  injection Hread as <- <-. exact HP1.
Qed.

Lemma parseMetadataBlock_preserves (f : R) blk (fin : bool) (f' : R) :
  P f -> parseMetadataBlock f = Ok (blk, fin, f') -> P f'.
Proof.
  intros HP Hp. unfold parseMetadataBlock in Hp.
  destruct (ReadFull f 4) as [[header f1]| |] eqn:E1;
    cbn [mbind result_bind] in Hp; try discriminate.
  apply (ReadFull_preserves _ _ _ _ HP) in E1.
  destruct header as [|h0 header]; [discriminate|].
  destruct (readUint32 (NewBuffer (h0 :: header))) as [[len b]| |];
    cbn [mbind result_bind] in Hp; try discriminate.
  destruct (ReadFull f1 _) as [[buf f2]| |] eqn:E2;
    cbn [mbind result_bind] in Hp; try discriminate.
  apply (ReadFull_preserves _ _ _ _ E1) in E2.
  injection Hp as <- <- <-. exact E2.
Qed.

Lemma readMetadataBlocksLoop_preserves (fuel : nat) : forall (f : R) acc
    blocks (f' : R),
  P f -> readMetadataBlocksLoop fuel f acc = Ok (blocks, f') -> P f'.
Proof.
  induction fuel as [|fuel IH]; intros f acc blocks f' HP Hl;
    [discriminate|].
  cbn [readMetadataBlocksLoop] in Hl.
  destruct (parseMetadataBlock f) as [[[blk fin] f1]| |] eqn:E;
    cbn [mbind result_bind] in Hl; try discriminate.
  apply (parseMetadataBlock_preserves _ _ _ _ HP) in E.
  destruct fin.
  - injection Hl as <- <-. exact E.
  - exact (IH _ _ _ _ E Hl).
Qed.

Lemma ParseMetadata_preserves (f : R) (file : File) (f' : R) :
  P f -> ParseMetadata f = Ok (file, f') -> P f'.
Proof.
  intros HP Hp. unfold ParseMetadata, readFLACHead in Hp.
  destruct (ReadFull f 4) as [[buffer f1]| |] eqn:E1;
    cbn [mbind result_bind] in Hp; try discriminate.
  apply (ReadFull_preserves _ _ _ _ HP) in E1.
  destruct (decide (buffer = magic)); [|discriminate].
  cbn [mbind result_bind] in Hp. unfold readMetadataBlocks in Hp.
  destruct (readMetadataBlocksLoop _ f1 []) as [[meta f2]| |] eqn:E2;
    cbn [mbind result_bind] in Hp; try discriminate.
  injection Hp as <- <-.
  exact (readMetadataBlocksLoop_preserves _ _ _ _ _ E1 E2).
Qed.

End Preserved.

Lemma OsFile_Read_within (disk : list byte) (f : OsFile) (n : nat) :
  within disk f -> within disk (Read f n).2.
Proof.
  intros (Hd & Hoff). cbn [Read OsFile_IoReader]. unfold OsFile_Read.
  destruct n as [|n]; [split; assumption|].
  destruct (take (S n) (drop (Z.to_nat (f_off f)) (f_data f)))
    as [|b bs] eqn:E; [split; assumption|].
  cbn [snd]. split; [exact Hd|]. cbn [f_off].
  apply (f_equal length) in E.
  rewrite length_take, length_drop, Hd in E. cbn [length] in *. lia.
Qed.

(** The header end offset that [saveInPlace] measures: the re-parse stops
    exactly where the audio region starts, inside the file. *)
Lemma ParseMetadata_OsFile (disk : list byte) (file0 : File) (f' : OsFile) :
  ParseMetadata (mkOsFile disk 0) = Ok (file0, f') ->
  f_data f' = disk /\
  0 <= f_off f' <= Z.of_nat (length disk) /\
  exists enc0,
    encodeBlocks (Meta file0) = Ok enc0 /\
    f_off f' = 4 + Z.of_nat (length enc0) /\
    disk = magic ++ enc0 ++ drop (Z.to_nat (f_off f')) disk.
Proof.
  intros Hp.
  assert (Hw : within disk (mkOsFile disk 0)).
  { split; [reflexivity | cbn [f_off]; lia]. }
  destruct (ParseMetadata_preserves (within disk) (OsFile_Read_within disk)
              _ _ _ Hw Hp) as (Hd & Hoff).
  destruct (ParseMetadata_inv (mkOsFile disk 0) file0 f') as
    (_ & _ & _ & _ & enc0 & Henc & Hpend);
    [exact (Z.le_refl 0) | exact Hp |].
  cbn [Pending OsFile_IoReader f_off f_data] in Hpend.
  change (Z.to_nat 0) with O in Hpend. rewrite drop_0, Hd in Hpend.
  split; [exact Hd|]. split; [exact Hoff|].
  exists enc0. split; [exact Henc|]. split; [|exact Hpend].
  apply (f_equal length) in Hpend.
  rewrite !length_app, length_drop in Hpend.
  change (length magic) with 4%nat in Hpend. lia.
Qed.

(** ** The in-place save *)

Lemma saveInPlaceWith_ok (B : Z) (c : File) (disk : list byte)
    (file0 : File) (f' : OsFile) (enc : list byte) :
  0 < B ->
  ParseMetadata (mkOsFile disk 0) = Ok (file0, f') ->
  encodeBlocks (Meta c) = Ok enc ->
  saveInPlaceWith B c disk
  = Ok (magic ++ enc ++ drop (Z.to_nat (f_off f')) disk,
        mkFile (Meta c) None).
Proof.
  intros HB Hp Henc.
  destruct (ParseMetadata_OsFile disk file0 f' Hp)
    as (Hd & Hoff & enc0 & Henc0 & Hoffeq & Hdisk).
  unfold saveInPlaceWith. rewrite Hp.
  destruct f' as [fd fo]. cbn [f_data f_off] in *. subst fd.
  cbn [wrapErr mbind result_bind]. unfold Tell, Size, NewBuffer.
  rewrite (WriteTo_Buffer_meta (mkFile (Meta c) None) [] enc Henc eq_refl).
  cbn [app buf_bytes f_data f_off].
  set (h := (4 + length enc0)%nat).
  set (a := (length disk - h)%nat).
  assert (Hlen : length disk = (h + a)%nat) by lia.
  assert (Hh : fo = Z.of_nat h) by lia.
  rewrite Hh, Nat2Z.id.
  destruct (Z.ltb_spec (Z.of_nat (length disk) - Z.of_nat h) 0); [lia|].
  assert (Hnew : length (magic ++ enc) = (4 + length enc)%nat)
    by (rewrite length_app; reflexivity).
  destruct (Z.gtb_spec (4 + Z.of_nat (length enc) - Z.of_nat h) 0)
    as [Hgrow|Hngrow].
  - (* the header grows *)
    set (e := (4 + length enc - h)%nat).
    unfold Truncate.
    destruct (Z.ltb_spec (Z.of_nat (length disk)
                + (4 + Z.of_nat (length enc) - Z.of_nat h)) 0); [lia|].
    cbn [wrapErr mbind result_bind f_data f_off].
    rewrite take_ge by lia.
    destruct (shiftForward_spec B HB disk h a e Hlen ltac:(lia) (Z.to_nat
                (Z.of_nat (length disk) - Z.of_nat h))
                (mkOsFile (disk ++ replicate
                   (Z.to_nat (Z.of_nat (length disk)
                      + (4 + Z.of_nat (length enc) - Z.of_nat h))
                    - length disk) x00) (Z.of_nat h)) 0)
      as (file' & Heq & Hinv & Hoff'); [lia | | lia |].
    { cbn [f_data]. replace (Z.to_nat (Z.of_nat a - 0)) with a by lia.
      repeat split.
      - rewrite length_app, length_replicate. lia.
      - lia.
      - rewrite take_app_le by lia. reflexivity.
      - rewrite !drop_ge; [reflexivity | lia |].
        rewrite length_app, length_replicate. lia. }
    replace (Z.of_nat (length disk) - Z.of_nat h) with (Z.of_nat a) by lia.
    replace (4 + Z.of_nat (length enc) - Z.of_nat h) with (Z.of_nat e)
      in * by lia.
    replace (Z.to_nat (Z.of_nat (length disk) - Z.of_nat h)) with
      (Z.to_nat (Z.of_nat a)) in Heq by lia.
    rewrite Heq. cbn [mbind result_bind].
    destruct Hinv as (Hl' & _ & _ & Hdrop).
    rewrite WriteAt_inside by (rewrite ?Hnew; lia).
    cbn [wrapErr mbind result_bind f_data]. rewrite Hnew.
    change (Z.to_nat 0) with O. rewrite take_0. cbn [app]. rewrite ?Nat.add_0_l.
    rewrite Nat.add_0_r in Hdrop.
    replace (4 + length enc)%nat with (h + e)%nat by lia.
    rewrite Hdrop, <- app_assoc. reflexivity.
  - destruct (Z.ltb_spec (4 + Z.of_nat (length enc) - Z.of_nat h) 0)
      as [Hshrink|Hsame].
    + (* the header shrinks *)
      set (e := (h - (4 + length enc))%nat).
      destruct (shiftBackward_spec B HB disk h a e Hlen ltac:(lia)
                  ltac:(lia)
                  (Z.to_nat (Z.of_nat (length disk) - Z.of_nat h))
                  (mkOsFile disk (Z.of_nat h)) 0)
        as (file' & Heq & Hinv & Hoff'); [lia | | lia |].
      { cbn [f_data]. replace (Z.to_nat (Z.min 0 (Z.of_nat a))) with O by lia.
        repeat split; lia. }
      replace (Z.of_nat (length disk) - Z.of_nat h) with (Z.of_nat a) by lia.
      replace (4 + Z.of_nat (length enc) - Z.of_nat h) with (- Z.of_nat e)
        in * by lia.
      replace (Z.of_nat (length disk)) with (Z.of_nat h + Z.of_nat a) by lia.
      replace (Z.to_nat (Z.of_nat (length disk) - Z.of_nat h)) with
        (Z.to_nat (Z.of_nat a)) in Heq by lia.
      rewrite Heq. cbn [mbind result_bind].
      destruct Hinv as (Hl' & _ & _ & _ & Htake).
      unfold Truncate.
      destruct (Z.ltb_spec (Z.of_nat h + Z.of_nat a + - Z.of_nat e) 0);
        [lia|].
      cbn [wrapErr mbind result_bind f_data f_off].
      rewrite WriteAt_inside;
        [ | lia | rewrite Hnew; lia | ].
      2:{ cbn [f_data].
          rewrite ?length_app, ?length_take, ?length_replicate.
          change (length magic) with 4%nat. lia. }
      cbn [wrapErr mbind result_bind f_data]. rewrite Hnew.
      change (Z.to_nat 0) with O. rewrite take_0. cbn [app]. rewrite ?Nat.add_0_l.
      replace (Z.to_nat (Z.of_nat h + Z.of_nat a + - Z.of_nat e)
               - length (f_data file'))%nat with O by lia.
      cbn [replicate]. rewrite app_nil_r.
      replace (Z.to_nat (Z.of_nat h + Z.of_nat a + - Z.of_nat e))
        with (h - e + a)%nat by lia.
      replace (4 + length enc)%nat with (h - e)%nat by lia.
      rewrite <- take_drop_commute, Htake.
      rewrite take_ge by (rewrite length_drop; lia).
      rewrite <- app_assoc. reflexivity.
    + (* same size *)
      cbn [mbind result_bind].
      rewrite WriteAt_inside by (cbn [f_data]; rewrite ?Hnew; lia).
      cbn [wrapErr mbind result_bind f_data]. rewrite Hnew.
      change (Z.to_nat 0) with O. rewrite take_0. cbn [app]. rewrite ?Nat.add_0_l.
      replace (4 + length enc)%nat with h by lia.
      rewrite <- app_assoc. reflexivity.
Qed.

(** ** Parsing what was serialised *)

Lemma header_byte_decodes (t : byte) (fin : bool) :
  byteZ t < 128 ->
  negb (shr (byteZ (byteOf (Z.lor (Z.shiftl (Z.b2z fin) 7) (byteZ t)))) 7
        =? 0) = fin /\
  shr (shl 8 (byteZ (byteOf (Z.lor (Z.shiftl (Z.b2z fin) 7) (byteZ t)))) 1) 1
  = byteZ t.
Proof.
  destruct t, fin; vm_compute; intros Hlt; try discriminate Hlt;
    split; reflexivity.
Qed.

Lemma encodeBlocks_length (metas : list MetaDataBlock) (enc : list byte) :
  encodeBlocks metas = Ok enc -> length enc = encodedSize metas.
Proof.
  revert enc. induction metas as [|meta rest IH]; intros enc Henc.
  - injection Henc as <-. reflexivity.
  - destruct (encodeBlocks_cons _ _ _ Henc) as (m & e & Hm & He & ->).
    rewrite length_app, (Marshal_length _ _ _ Hm), (IH e He). reflexivity.
Qed.

Lemma encodedSize_ge (metas : list MetaDataBlock) :
  (length metas <= encodedSize metas)%nat.
Proof.
  induction metas; cbn [length encodedSize]; lia.
Qed.

Lemma encodeBlocks_error (metas : list MetaDataBlock) (e : error) :
  encodeBlocks metas = Err e -> e = ErrSizeOverflow.
Proof.
  induction metas as [|meta rest IH]; [discriminate|].
  cbn [encodeBlocks]. unfold Marshal.
  destruct (_ >? _); cbn [mbind result_bind]; [congruence|].
  destruct (encodeBlocks rest); cbn [mbind result_bind];
    [discriminate | | discriminate].
  intros [= <-]. apply IH. reflexivity.
Qed.

Section ParseForward.

Context {R : Type} `{SeqReaderLaw R}.

Lemma parseMetadataBlock_fwd (f : R) (blk : MetaDataBlock) (fin : bool)
    (m rest : list byte) :
  wf f -> blockOk blk -> Marshal blk fin = Ok m ->
  Pending f = m ++ rest ->
  exists f', parseMetadataBlock f = Ok (blk, fin, f') /\ wf f' /\
             Pending f' = rest.
Proof.
  intros Hwf ((Ht0 & Ht1) & Hsize) Hm Hp.
  unfold Marshal in Hm.
  destruct (Z.gtb_spec (Z.of_nat (length (Data blk))) (2 ^ 24 - 1));
    [discriminate|].
  injection Hm as <-. cbn [app] in Hp.
  destruct (ReadFull_ok f 4 Hwf) as (f1 & Heq1 & Hwf1 & Hp1).
  { rewrite Hp. simpl. lia. }
  rewrite Hp in Heq1, Hp1. cbn [take drop] in Heq1, Hp1.
  rewrite take_0 in Heq1. rewrite drop_0 in Hp1.
  destruct (ReadFull_ok f1 (length (Data blk)) Hwf1)
    as (f2 & Heq2 & Hwf2 & Hp2).
  { rewrite Hp1, length_app. lia. }
  rewrite Hp1, take_app_length in Heq2. rewrite Hp1, drop_app_length in Hp2.
  exists f2. split; [|split; assumption].
  unfold parseMetadataBlock. rewrite Heq1. cbn [mbind result_bind].
  match goal with
  | |- context [readUint32 (NewBuffer [?a; ?b; ?c; ?d])] =>
      change (readUint32 (NewBuffer [a; b; c; d]))
        with (Ok (bigEndian [a; b; c; d], mkBuffer []))
  end.
  cbn [mbind result_bind].
  assert (Ht : Type_ blk = byteZ (byteOf (Type_ blk))).
  { rewrite byteZ_byteOf, Z.mod_small by lia. reflexivity. }
  rewrite Ht.
  destruct (header_byte_decodes (byteOf (Type_ blk)) fin) as (-> & ->);
    [lia|].
  rewrite <- Ht.
  rewrite header_length, !byteZ_byteOf.
  rewrite !Z.shiftr_div_pow2 by lia.
  change (2 ^ 16) with 65536. change (2 ^ 8) with 256.
  set (n := Z.of_nat (length (Data blk))) in *.
  replace (((n / 65536) mod 256) * 65536 + ((n / 256) mod 256) * 256
           + n mod 256)
    with n
    by (change (2 ^ 24 - 1) with 16777215 in *;
        Z.div_mod_to_equations; lia).
  subst n. rewrite Nat2Z.id, Heq2. cbn [mbind result_bind].
  destruct blk. reflexivity.
Qed.

Lemma readMetadataBlocksLoop_fwd (metas : list MetaDataBlock) :
  forall (fuel : nat) (f : R) acc (enc rest : list byte),
  wf f -> metas <> [] -> Forall blockOk metas ->
  encodeBlocks metas = Ok enc -> Pending f = enc ++ rest ->
  (length metas <= fuel)%nat ->
  exists f', readMetadataBlocksLoop fuel f acc = Ok (acc ++ metas, f') /\
             wf f' /\ Pending f' = rest.
Proof.
  induction metas as [|meta more IH];
    intros fuel f acc enc rest Hwf Hne Hall Henc Hp Hfuel; [congruence|].
  destruct fuel as [|fuel]; [simpl in Hfuel; lia|].
  destruct (encodeBlocks_cons _ _ _ Henc) as (m & e & Hm & He & ->).
  inversion Hall as [|? ? Hok Hall']; subst.
  rewrite <- app_assoc in Hp.
  destruct (parseMetadataBlock_fwd f meta _ m (e ++ rest) Hwf Hok Hm Hp)
    as (f1 & Heq & Hwf1 & Hp1).
  cbn [readMetadataBlocksLoop]. rewrite Heq. cbn [mbind result_bind].
  destruct more as [|meta' more].
  - injection He as <-. exists f1. auto.
  - destruct (IH fuel f1 (acc ++ [meta]) e rest Hwf1) as (f' & Heq' & Hr);
      [discriminate | exact Hall' | exact He | exact Hp1
      | simpl in *; lia |].
    exists f'. rewrite Heq', <- app_assoc. auto.
Qed.

Lemma ParseMetadata_fwd (f : R) (metas : list MetaDataBlock)
    (enc rest : list byte) :
  wf f -> metas <> [] -> Forall blockOk metas ->
  encodeBlocks metas = Ok enc -> Pending f = magic ++ enc ++ rest ->
  exists f', ParseMetadata f = Ok (mkFile metas None, f') /\ wf f' /\
             Pending f' = rest.
Proof.
  intros Hwf Hne Hall Henc Hp.
  destruct (ReadFull_ok f 4 Hwf) as (f1 & Heq1 & Hwf1 & Hp1).
  { rewrite Hp, length_app. change (length magic) with 4%nat. lia. }
  rewrite Hp in Heq1, Hp1.
  rewrite (take_app_length' magic _ 4 eq_refl) in Heq1.
  rewrite (drop_app_length' magic _ 4 eq_refl) in Hp1.
  destruct (readMetadataBlocksLoop_fwd metas (S (length (Pending f1))) f1 []
              enc rest Hwf1 Hne Hall Henc Hp1) as (f' & Heq & Hwf' & Hp').
  { rewrite Hp1, length_app, (encodeBlocks_length _ _ Henc).
    pose proof (encodedSize_ge metas). lia. }
  exists f'. split; [|split; assumption].
  unfold ParseMetadata, readFLACHead. rewrite Heq1.
  cbn [mbind result_bind].
  destruct (decide (magic = magic)); [|congruence].
  cbn [mbind result_bind]. unfold readMetadataBlocks. rewrite Heq.
  reflexivity.
Qed.

End ParseForward.

(** ** The loops never run out of fuel *)

Section ParseErrors.

Context {R : Type} `{SeqReaderLaw R}.

Lemma ReadFull_error (r : R) (n : nat) (e : error) :
  wf r -> ReadFull r n = Err e -> e = EOF \/ e = ErrUnexpectedEOF.
Proof.
  intros Hwf Hread.
  destruct (Nat.le_gt_cases n (length (Pending r))) as [Hle|Hgt].
  - destruct (ReadFull_ok r n Hwf Hle) as (r' & Heq & _).
    rewrite Heq in Hread. discriminate.
  - rewrite ReadFull_short in Hread by assumption.
    injection Hread as <-. destruct (Pending r); auto.
Qed.

Lemma parseMetadataBlock_error (f : R) (e : error) :
  wf f -> parseMetadataBlock f = Err e -> e = EOF \/ e = ErrUnexpectedEOF.
Proof.
  intros Hwf Hp. unfold parseMetadataBlock in Hp.
  destruct (ReadFull f 4) as [[header f1]|e1|] eqn:E1;
    cbn [mbind result_bind] in Hp; try discriminate.
  - destruct (ReadFull_inv _ _ _ _ Hwf E1) as (Hwf1 & Hlen1 & _).
    destruct header as [|h0 [|h1 [|h2 [|h3 [|]]]]]; try discriminate.
    change (readUint32 (NewBuffer [h0; h1; h2; h3]))
      with (Ok (bigEndian [h0; h1; h2; h3], mkBuffer [])) in Hp.
    cbn [mbind result_bind] in Hp.
    destruct (ReadFull f1 _) as [[buf f2]|e2|] eqn:E2;
      cbn [mbind result_bind] in Hp; try discriminate.
    injection Hp as <-. exact (ReadFull_error _ _ _ Hwf1 E2).
  - injection Hp as <-. exact (ReadFull_error _ _ _ Hwf E1).
Qed.

(** The fuel of [readMetadataBlocks] is never the reason it stops: a
    failure is the end of the input. *)
Lemma readMetadataBlocksLoop_error (fuel : nat) : forall (f : R) acc
    (e : error),
  wf f -> (length (Pending f) < fuel)%nat ->
  readMetadataBlocksLoop fuel f acc = Err e ->
  e = EOF \/ e = ErrUnexpectedEOF.
Proof.
  induction fuel as [|fuel IH]; intros f acc e Hwf Hfuel Hl; [lia|].
  cbn [readMetadataBlocksLoop] in Hl.
  destruct (parseMetadataBlock f) as [[[blk fin] f1]|e1|] eqn:E;
    cbn [mbind result_bind] in Hl; try discriminate.
  - destruct (parseMetadataBlock_inv _ _ _ _ Hwf E)
      as (Hwf1 & _ & m & Hm & Hp).
    destruct fin; [discriminate|].
    apply (IH f1 (acc ++ [blk]) e Hwf1); [|exact Hl].
    rewrite Hp, length_app, (Marshal_length _ _ _ Hm) in Hfuel. lia.
  - injection Hl as <-. exact (parseMetadataBlock_error _ _ Hwf E).
Qed.

Lemma readMetadataBlocks_error (f : R) (e : error) :
  wf f -> readMetadataBlocks f = Err e -> e = EOF \/ e = ErrUnexpectedEOF.
Proof.
  intros Hwf. apply readMetadataBlocksLoop_error; [exact Hwf | lia].
Qed.

End ParseErrors.

(** Every serialised container whose frames start with the sync pattern
    is accepted by [ParseBytes], which returns its blocks. *)
Lemma ParseBytes_serialised (metas : list MetaDataBlock)
    (enc : list byte) (b0 b1 : byte) (rest : list byte) :
  metas <> [] -> Forall blockOk metas -> encodeBlocks metas = Ok enc ->
  byteZ b0 = 255 -> byteZ b1 / 4 = 62 ->
  exists frames,
    ParseBytes (RBytes (NewReader (magic ++ enc ++ b0 :: b1 :: rest)))
    = Ok (mkFile metas (Some frames)) /\
    Pending frames = b0 :: b1 :: rest.
Proof.
  intros Hne Hall Henc Hb0 Hb1.
  assert (Hwf : wf (RBytes (NewReader (magic ++ enc ++ b0 :: b1 :: rest))))
    by exact (Z.le_refl 0).
  destruct (ParseMetadata_fwd _ metas enc (b0 :: b1 :: rest) Hwf Hne Hall Henc)
    as (f1 & Hparse & Hwf1 & Hp1).
  { cbn [Pending Reader_IoReader Reader_Pending BytesReader_IoReader
           NewReader br_i br_s].
    change (Z.to_nat 0) with O. apply drop_0. }
  destruct (checkFLACStream_two f1 b0 b1 rest Hwf1 Hp1)
    as (f2 & Hwf2 & Hp2 & Hcheck).
  unfold shr in Hcheck. rewrite Z.shiftr_div_pow2 in Hcheck by lia.
  change (2 ^ 2) with 4 in Hcheck. rewrite Hb0, Hb1 in Hcheck.
  cbn [Z.eqb Pos.eqb negb orb] in Hcheck.
  exists (PrefixReader [b0; b1] f2). split.
  - unfold ParseBytes. rewrite Hparse. cbn [mbind result_bind].
    rewrite Hcheck. reflexivity.
  - cbn [Pending Reader_IoReader Reader_Pending] in *. rewrite Hp2.
    reflexivity.
Qed.

(** * The claims *)

(** C4, as the code behaves: a STREAMINFO payload of 33 bytes is accepted.
    The last read asks for the 16 checksum bytes, gets 15 and no error,
    and the decoder returns a block whose checksum ends with a zero byte
    that is not in the payload. *)
Theorem GetStreamInfo_accepts_short_payload :
  length (take 33 sampleStreamInfo) = 33%nat /\
  GetStreamInfo (mkFile [mkBlock StreamInfo (take 33 sampleStreamInfo)] None)
  = Ok (mkStreamInfoBlock 1152 1152 1650 6130 96000 2 24 3828096
          (bytesOf [229; 209; 0; 198; 63; 81; 136; 144; 12; 102; 182; 166;
                    160; 140; 226; 0])).
Proof.
  split; reflexivity.
Qed.

(** Every payload of 19 to 33 bytes is accepted the same way. *)
Lemma GetStreamInfo_accepts_from_19 (s : list byte)
    (rest : list MetaDataBlock) (frames : option Reader) :
  (19 <= length s)%nat ->
  exists sib,
    GetStreamInfo (mkFile (mkBlock StreamInfo s :: rest) frames) = Ok sib.
Proof.
  intros H. eexists. apply GetStreamInfo_offsets_partial. exact H.
Qed.

(** Payloads of fewer than 19 bytes are rejected with an end-of-input
    error. *)
Lemma GetStreamInfo_rejects_below_19 (s : list byte)
    (rest : list MetaDataBlock) (frames : option Reader) :
  (length s < 19)%nat ->
  GetStreamInfo (mkFile (mkBlock StreamInfo s :: rest) frames) = Err EOF \/
  GetStreamInfo (mkFile (mkBlock StreamInfo s :: rest) frames)
  = Err ErrUnexpectedEOF.
Proof.
  intros H.
  do 19 (destruct s as [|? s];
         [first [left; reflexivity | right; reflexivity]|]).
  simpl in H. lia.
Qed.

(** C5, as the code behaves: with an empty metadata sequence
    [GetStreamInfo] indexes [c.Meta[0]] and panics instead of returning
    [ErrorNoStreamInfo]. *)
Theorem GetStreamInfo_empty_Meta_panics (frames : option Reader) :
  GetStreamInfo (mkFile [] frames) = Panic IndexOutOfRange.
Proof.
  reflexivity.
Qed.

(** With a first block of another type the error is [ErrorNoStreamInfo]. *)
Lemma GetStreamInfo_wrong_type (m : MetaDataBlock)
    (rest : list MetaDataBlock) (frames : option Reader) :
  Type_ m <> StreamInfo ->
  GetStreamInfo (mkFile (m :: rest) frames) = Err ErrorNoStreamInfo.
Proof.
  intros Hne. unfold GetStreamInfo. cbn [Meta].
  destruct (Z.eqb_spec (Type_ m) StreamInfo); [contradiction | reflexivity].
Qed.

(** C9. [Marshal] fails with the size-overflow error whenever the payload
    is longer than [2^24 - 1] bytes; otherwise it emits a header whose
    byte 0 is [(isLastFlag << 7) | type] (as a byte) and whose bytes 1..3
    are the big-endian 24-bit payload length, followed by the payload
    verbatim. *)
Theorem Marshal_header (c : MetaDataBlock) (isfinal : bool) :
  if Z.of_nat (length (Data c)) >? 2 ^ 24 - 1
  then Marshal c isfinal = Err ErrSizeOverflow
  else
    exists b0 b1 b2 b3,
      Marshal c isfinal = Ok (b0 :: b1 :: b2 :: b3 :: Data c) /\
      byteZ b0 = Z.lor (Z.shiftl (Z.b2z isfinal) 7) (Type_ c) mod 256 /\
      bigEndian [b1; b2; b3] = Z.of_nat (length (Data c)).
Proof.
  unfold Marshal.
  destruct (Z.gtb_spec (Z.of_nat (length (Data c))) (2 ^ 24 - 1)) as [|Hle];
    [reflexivity|].
  do 4 eexists. split; [reflexivity|]. split; [apply byteZ_byteOf|].
  unfold bigEndian. cbn [fold_left]. rewrite !byteZ_byteOf.
  rewrite !Z.shiftr_div_pow2 by lia.
  change (2 ^ 16) with 65536. change (2 ^ 8) with 256.
  change (2 ^ 24 - 1) with 16777215 in Hle.
  Z.div_mod_to_equations. lia.
Qed.

(** C7, as the code behaves.  [checkFLACStream] is decided by what the
    source still holds.  With two bytes or more it succeeds exactly when
    byte 0 is [0xFF] and the top six bits of byte 1 are [111110] (62), and
    fails with [ErrorNoSyncCode] otherwise; the reader it returns delivers
    those two bytes and then the rest of the source, so copying it out
    yields the whole unconsumed stream.  With fewer than two bytes it
    fails with the end-of-input error of [io.ReadFull] ([io.EOF] on an
    empty source, [io.ErrUnexpectedEOF] after one byte), not with
    [ErrorNoSyncCode]. *)
Theorem checkFLACStream_sync (f : Reader) :
  wf f ->
  match Pending f with
  | b0 :: b1 :: rest =>
      if (byteZ b0 =? 255) && (byteZ b1 / 4 =? 62)
      then
        exists frames,
          checkFLACStream f = Ok frames /\
          Pending frames = b0 :: b1 :: rest /\
          exists frames',
            Copy (NewBuffer []) frames
            = (Z.of_nat (length (b0 :: b1 :: rest)), None,
               mkBuffer (b0 :: b1 :: rest), frames')
      else checkFLACStream f = Err ErrorNoSyncCode
  | short => checkFLACStream f = Err (eofError short)
  end.
Proof.
  intros Hwf.
  destruct (Pending f) as [|b0 [|b1 rest]] eqn:Hp.
  - rewrite <- Hp. apply checkFLACStream_short; [exact Hwf|].
    rewrite Hp. simpl. lia.
  - rewrite <- Hp. apply checkFLACStream_short; [exact Hwf|].
    rewrite Hp. simpl. lia.
  - destruct (checkFLACStream_two f b0 b1 rest Hwf Hp)
      as (f' & Hwf' & Hp' & Heq).
    rewrite Heq. unfold shr. rewrite Z.shiftr_div_pow2 by lia.
    change (2 ^ 2) with 4. change 0xFF with 255. change 0x3E with 62.
    destruct (byteZ b0 =? 255); cbn [negb orb andb]; [|reflexivity].
    destruct (byteZ b1 / 4 =? 62); cbn [negb]; [|reflexivity].
    eexists. split; [reflexivity|].
    assert (Hpf : Pending (PrefixReader [b0; b1] f') = b0 :: b1 :: rest).
    { cbn [Pending Reader_IoReader Reader_Pending] in *. rewrite Hp'.
      reflexivity. }
    split; [exact Hpf|].
    destruct (Copy_Buffer (PrefixReader [b0; b1] f') [] Hwf') as (fr' & Hc).
    exists fr'. unfold NewBuffer. rewrite Hc, Hpf. reflexivity.
Qed.

Lemma checkFLACStream_sync_witness :
  Reader_wf (RBytes (NewReader sampleFrames)) /\
  exists frames,
    checkFLACStream (RBytes (NewReader sampleFrames)) = Ok frames /\
    Pending frames = sampleFrames.
Proof.
  split; [exact (Z.le_refl 0)|].
  pose proof (checkFLACStream_sync (RBytes (NewReader sampleFrames))
                (Z.le_refl 0)) as Hs.
  change (if true then
            exists frames,
              checkFLACStream (RBytes (NewReader sampleFrames)) = Ok frames /\
              Pending frames = sampleFrames /\
              exists frames',
                Copy (NewBuffer []) frames
                = (Z.of_nat (length sampleFrames), None,
                   mkBuffer sampleFrames, frames')
          else checkFLACStream (RBytes (NewReader sampleFrames))
               = Err ErrorNoSyncCode) in Hs.
  destruct Hs as (frames & Hc & Hp & _).
  exists frames. split; assumption.
Defined.

(** C7, the claim as written fails on a source that ends early: with the
    single byte [0xFF] left, or with nothing left, there are no two bytes
    that satisfy the pattern, and the error is the end-of-input error of
    [io.ReadFull], not [ErrorNoSyncCode]. *)
Lemma checkFLACStream_short_source :
  checkFLACStream (RBytes (NewReader [byteOf 0xFF])) = Err ErrUnexpectedEOF /\
  checkFLACStream (RBytes (NewReader [])) = Err EOF /\
  checkFLACStream (RBytes (NewReader [byteOf 0xFF])) <> Err ErrorNoSyncCode /\
  checkFLACStream (RBytes (NewReader [])) <> Err ErrorNoSyncCode.
Proof.
  repeat split; try reflexivity; vm_compute; discriminate.
Qed.

(** ** The last flag *)

Lemma header_byte_flag (t : byte) (fin : bool) :
  byteZ t < 128 ->
  Z.testbit (byteZ (byteOf (Z.lor (Z.shiftl (Z.b2z fin) 7) (byteZ t)))) 7
  = fin /\
  byteZ (byteOf (Z.lor (Z.shiftl (Z.b2z fin) 7) (byteZ t))) mod 128
  = byteZ t.
Proof.
  destruct t, fin; vm_compute; intros Hlt; try discriminate Hlt;
    split; reflexivity.
Qed.

Lemma encodeBlocks_ok (metas : list MetaDataBlock) :
  Forall blockOk metas -> exists enc, encodeBlocks metas = Ok enc.
Proof.
  induction 1 as [|meta rest (_ & Hsize) _ (e & He)]; [eexists; reflexivity|].
  destruct (Marshal_ok meta (match rest with [] => true | _ => false end)
              Hsize) as (hdr & _ & Hm).
  cbn [encodeBlocks]. rewrite Hm, He. eexists. reflexivity.
Qed.

(** The header byte of block [i] in the serialised block list. *)
Lemma encodeBlocks_lookup (metas : list MetaDataBlock) :
  forall (i : nat) (b : MetaDataBlock) (enc : list byte),
  encodeBlocks metas = Ok enc -> metas !! i = Some b ->
  enc !! encodedSize (take i metas)
  = Some (byteOf (Z.lor
            (Z.shiftl (Z.b2z (bool_decide (i = (length metas - 1)%nat))) 7)
            (Type_ b))).
Proof.
  induction metas as [|meta rest IH]; intros i b enc Henc Hi; [discriminate|].
  destruct (encodeBlocks_cons _ _ _ Henc) as (m & e & Hm & He & ->).
  destruct i as [|i].
  - injection Hi as ->. cbn [take encodedSize].
    unfold Marshal in Hm. destruct (_ >? _); [discriminate|].
    injection Hm as <-. cbn [app lookup list_lookup length].
    do 3 f_equal. destruct rest; reflexivity.
  - cbn [take encodedSize lookup list_lookup] in *.
    rewrite lookup_app_r by (rewrite (Marshal_length _ _ _ Hm); lia).
    rewrite (Marshal_length _ _ _ Hm).
    replace (4 + length (Data meta) + encodedSize (take i rest)
             - (4 + length (Data meta)))%nat
      with (encodedSize (take i rest)) by lia.
    rewrite (IH i b e He Hi). do 5 f_equal.
    apply lookup_lt_Some in Hi. cbn [length].
    apply bool_decide_ext. lia.
Qed.

(** Copying the frames only appends to the buffer. *)
Lemma copyLoop_appends (fuel : nat) : forall (src : Reader)
    (acc : list byte) (n : Z),
  exists tail,
    buf_bytes (copyLoop fuel (mkBuffer acc) src n).1.2 = acc ++ tail.
Proof.
  induction fuel as [|fuel IH]; intros src acc n.
  - exists []. cbn. rewrite app_nil_r. reflexivity.
  - cbn [copyLoop].
    destruct (Read src copyBufSize) as [[bs er] src1].
    destruct (0 <? Z.of_nat (length bs)).
    + cbn [Write Buffer_IoWriter]. unfold Buffer_Write. cbn [buf_bytes].
      rewrite Z.eqb_refl. cbn [negb].
      destruct er as [e|].
      * exists bs. destruct e; reflexivity.
      * destruct (IH src1 (acc ++ bs) (n + Z.of_nat (length bs)))
          as (tail & Ht).
        exists (bs ++ tail). rewrite Ht, <- app_assoc. reflexivity.
    + destruct er as [e|].
      * exists []. rewrite app_nil_r. destruct e; reflexivity.
      * destruct (IH src1 acc n) as (tail & Ht). exists tail. exact Ht.
Qed.

Lemma WriteTo_Buffer_prefix (c : File) (enc : list byte) :
  encodeBlocks (Meta c) = Ok enc ->
  (exists tail,
     buf_bytes (WriteTo c (NewBuffer [])).2 = (magic ++ enc) ++ tail) /\
  (exists tail,
     buf_bytes (WriteTo_v1 c (NewBuffer [])).2 = (magic ++ enc) ++ tail).
Proof.
  intros Henc. unfold WriteTo, WriteTo_v1, NewBuffer.
  cbn [Write Buffer_IoWriter]. unfold Buffer_Write. cbn [buf_bytes app].
  rewrite (writeBlocks_Buffer _ 0 _ _ _ enc Henc) by lia.
  destruct (Frames c) as [frames|].
  - unfold Copy.
    destruct (copyLoop_appends (S (length (Pending frames))) frames
                (magic ++ enc) 0) as (tail & Ht).
    destruct (copyLoop _ _ frames 0) as [[[n2 err] w] fr].
    cbn [fst snd] in *. split; exists tail; exact Ht.
  - split; exists []; cbn [snd buf_bytes]; rewrite app_nil_r; reflexivity.
Qed.

(** C6. For a file whose blocks have 7-bit types and 24-bit lengths,
    [WriteTo] (in both versions) emits the header of block [i] at its
    offset with the last-flag bit (bit 7) set exactly when [i] is the
    index of the final block, and with the block's type in the low seven
    bits.  A block carries no flag of its own, so what the source had is
    irrelevant. *)
Theorem WriteTo_last_flag (c : File) (i : nat) (b : MetaDataBlock) :
  Forall blockOk (Meta c) -> Meta c !! i = Some b ->
  (exists h,
     buf_bytes (WriteTo c (NewBuffer [])).2 !! blockOffset (Meta c) i
     = Some h /\
     Z.testbit (byteZ h) 7 = bool_decide (i = (length (Meta c) - 1)%nat) /\
     byteZ h mod 128 = Type_ b) /\
  (exists h,
     buf_bytes (WriteTo_v1 c (NewBuffer [])).2 !! blockOffset (Meta c) i
     = Some h /\
     Z.testbit (byteZ h) 7 = bool_decide (i = (length (Meta c) - 1)%nat) /\
     byteZ h mod 128 = Type_ b).
Proof.
  intros Hall Hi.
  destruct (encodeBlocks_ok _ Hall) as (enc & Henc).
  pose proof (encodeBlocks_lookup _ i b enc Henc Hi) as Hl.
  assert (Hb : blockOk b).
  { rewrite Forall_forall in Hall. apply Hall.
    eapply list_elem_of_lookup_2. exact Hi. }
  destruct Hb as ((Ht0 & Ht1) & _).
  assert (Ht : Type_ b = byteZ (byteOf (Type_ b))).
  { rewrite byteZ_byteOf, Z.mod_small by lia. reflexivity. }
  destruct (header_byte_flag (byteOf (Type_ b))
              (bool_decide (i = (length (Meta c) - 1)%nat)))
    as (Hflag & Htype); [lia|].
  rewrite <- Ht in Hflag, Htype.
  assert (Hlt : (encodedSize (take i (Meta c)) < length enc)%nat).
  { apply lookup_lt_Some in Hl. exact Hl. }
  destruct (WriteTo_Buffer_prefix c enc Henc) as ((t1 & H1) & (t2 & H2)).
  unfold blockOffset. split; eexists; (split; [|split; eassumption]).
  - rewrite H1, <- !app_assoc.
    rewrite (lookup_app_r magic) by (change (length magic) with 4%nat; lia).
    change (length magic) with 4%nat.
    replace (4 + encodedSize (take i (Meta c)) - 4)%nat
      with (encodedSize (take i (Meta c))) by lia.
    rewrite lookup_app_l by exact Hlt. exact Hl.
  - rewrite H2, <- !app_assoc.
    rewrite (lookup_app_r magic) by (change (length magic) with 4%nat; lia).
    change (length magic) with 4%nat.
    replace (4 + encodedSize (take i (Meta c)) - 4)%nat
      with (encodedSize (take i (Meta c))) by lia.
    rewrite lookup_app_l by exact Hlt. exact Hl.
Qed.

Lemma sampleBlocks_ok : Forall blockOk sampleBlocks.
Proof.
  unfold sampleBlocks.
  repeat (constructor;
          [repeat split; vm_compute; first [reflexivity | discriminate]|]).
  constructor.
Qed.

Lemma WriteTo_last_flag_witness :
  Forall blockOk sampleBlocks /\
  sampleBlocks !! 2%nat = Some (mkBlock VorbisComment (bytesOf [9; 8; 7])) /\
  exists h,
    buf_bytes (WriteTo (mkFile sampleBlocks None) (NewBuffer [])).2
      !! blockOffset sampleBlocks 2 = Some h /\
    Z.testbit (byteZ h) 7 = true /\ byteZ h mod 128 = VorbisComment.
Proof.
  split; [exact sampleBlocks_ok|]. split; [reflexivity|].
  destruct (WriteTo_last_flag (mkFile sampleBlocks None) 2
              (mkBlock VorbisComment (bytesOf [9; 8; 7]))
              sampleBlocks_ok eq_refl) as ((h & Hh & Hflag & Htype) & _).
  exists h. split; [exact Hh|]. split; [exact Hflag | exact Htype].
Defined.

(** ** Writing twice *)

Lemma WriteTo_unfold {W} `{IoWriter W} (c : File) (w : W) :
  WriteTo c w
  = let '(n, err, w) := writeHeader c w in
    match err with
    | Some e => (n, Some e, c, w)
    | None =>
        match Frames c with
        | Some frames =>
            let '(n2, err, w, _) := Copy w frames in
            (n + n2, err,
             mkFile (Meta c) (Some (ErrorReader ErrorAlreadyWritten)), w)
        | None => (n, None, c, w)
        end
    end.
Proof.
  unfold WriteTo, writeHeader.
  destruct (Write w magic) as [[nInt [e|]] w']; [reflexivity|].
  destruct (writeBlocks _ _ _ _ _) as [[n [e|]] w'']; reflexivity.
Qed.

Lemma Copy_ErrorReader {W} `{IoWriter W} (w : W) (e : error) :
  e <> EOF ->
  Copy w (ErrorReader e) = (0, Some e, w, ErrorReader e).
Proof.
  intros He. unfold Copy. cbn. destruct e; try reflexivity. congruence.
Qed.

(** C8. Once a [WriteTo] call got past the metadata and streamed a non-nil
    frame source, the file holds an [ErrorReader] in its place: every
    later [WriteTo] that gets past the metadata again returns
    [ErrorAlreadyWritten], having copied no frame byte, instead of
    reporting success. *)
Theorem WriteTo_twice_fails {W} `{IoWriter W} (c : File) (frames : Reader)
    (w1 w1' w1'' : W) (n1 : Z) (r1 : Z * option error) (c1 : File) :
  Frames c = Some frames ->
  writeHeader c w1 = (n1, None, w1') ->
  WriteTo c w1 = (r1, c1, w1'') ->
  Meta c1 = Meta c /\
  Frames c1 = Some (ErrorReader ErrorAlreadyWritten) /\
  forall (w2 w2' : W) (n2 : Z),
    writeHeader c1 w2 = (n2, None, w2') ->
    WriteTo c1 w2 = (n2 + 0, Some ErrorAlreadyWritten, c1, w2').
Proof.
  intros Hfr Hhead Hfirst.
  rewrite WriteTo_unfold, Hhead, Hfr in Hfirst.
  destruct (Copy w1' frames) as [[[n err] w] fr].
  injection Hfirst as <- <- <-. cbn [Meta Frames].
  split; [reflexivity|]. split; [reflexivity|].
  intros w2 w2' n2 Hhead2.
  rewrite WriteTo_unfold, Hhead2. cbn [Meta Frames].
  rewrite Copy_ErrorReader by discriminate. reflexivity.
Qed.

Lemma WriteTo_twice_fails_witness :
  ParseBytes (RBytes (NewReader sampleContainer)) = Ok sampleFile /\
  writeHeader sampleFile (NewBuffer [])
  = (60, None, mkBuffer (take 60 sampleContainer)) /\
  WriteTo sampleFile (NewBuffer [])
  = (70, None, sampleFileWritten, mkBuffer sampleContainer) /\
  WriteTo sampleFileWritten (NewBuffer [])
  = (60 + 0, Some ErrorAlreadyWritten, sampleFileWritten,
     mkBuffer (take 60 sampleContainer)).
Proof.
  assert (H1 : writeHeader sampleFile (NewBuffer [])
               = (60, None, mkBuffer (take 60 sampleContainer)))
    by (vm_compute; reflexivity).
  assert (H2 : WriteTo sampleFile (NewBuffer [])
               = (70, None, sampleFileWritten, mkBuffer sampleContainer))
    by (vm_compute; reflexivity).
  assert (H3 : writeHeader sampleFileWritten (NewBuffer [])
               = (60, None, mkBuffer (take 60 sampleContainer)))
    by (vm_compute; reflexivity).
  split; [vm_compute; reflexivity|]. split; [exact H1|]. split; [exact H2|].
  destruct (WriteTo_twice_fails sampleFile _ _ _ _ _ _ _ eq_refl H1 H2)
    as (_ & _ & Hsecond).
  exact (Hsecond _ _ _ H3).
Defined.

(** ** The outcomes of the in-place save *)

Lemma saveInPlaceWith_parse_fails (B : Z) (c : File) (disk : list byte) :
  (forall e, ParseMetadata (mkOsFile disk 0) = Err e ->
             saveInPlaceWith B c disk = Err (ErrParseMetadata e)) /\
  (forall p, ParseMetadata (mkOsFile disk 0) = Panic p ->
             saveInPlaceWith B c disk = Panic p).
Proof.
  split; intros x Hp; unfold saveInPlaceWith; rewrite Hp; reflexivity.
Qed.

Lemma saveInPlaceWith_marshal_fails (B : Z) (c : File) (disk : list byte)
    (file0 : File) (f' : OsFile) (e : error) :
  ParseMetadata (mkOsFile disk 0) = Ok (file0, f') ->
  encodeBlocks (Meta c) = Err e ->
  saveInPlaceWith B c disk = Err e.
Proof.
  intros Hp Henc. unfold saveInPlaceWith. rewrite Hp.
  cbn [wrapErr mbind result_bind]. unfold WriteTo, NewBuffer.
  cbn [Write Buffer_IoWriter]. unfold Buffer_Write. cbn [buf_bytes Meta].
  destruct (writeBlocks_Buffer_fails (Meta c) 0
              (Z.of_nat (length (Meta c))) (Z.of_nat (length magic))
              ([] ++ magic) e Henc) as (n' & w' & ->); [lia|].
  reflexivity.
Qed.

Lemma saveInPlaceWith_inv (B : Z) (c : File) (disk disk' : list byte)
    (c' : File) :
  0 < B ->
  saveInPlaceWith B c disk = Ok (disk', c') ->
  exists original file enc,
    ParseMetadata (mkOsFile disk 0) = Ok (original, file) /\
    encodeBlocks (Meta c) = Ok enc /\
    disk' = magic ++ enc ++ drop (Z.to_nat (f_off file)) disk /\
    c' = mkFile (Meta c) None.
Proof.
  intros HB Hs.
  destruct (ParseMetadata (mkOsFile disk 0)) as [[original file]|e|p] eqn:Hp.
  - destruct (encodeBlocks (Meta c)) as [enc|e|p] eqn:Henc.
    + rewrite (saveInPlaceWith_ok B c disk original file enc HB Hp Henc)
        in Hs.
      injection Hs as <- <-. exists original, file, enc. auto.
    + rewrite (saveInPlaceWith_marshal_fails B c disk original file e Hp Henc)
        in Hs. discriminate.
    + destruct (encodeBlocks_no_panic _ _ Henc).
  - rewrite (proj1 (saveInPlaceWith_parse_fails B c disk) e Hp) in Hs.
    discriminate.
  - rewrite (proj2 (saveInPlaceWith_parse_fails B c disk) p Hp) in Hs.
    discriminate.
Qed.

Lemma encodedSize_app (l k : list MetaDataBlock) :
  encodedSize (l ++ k) = (encodedSize l + encodedSize k)%nat.
Proof.
  induction l as [|m l IH]; cbn [app encodedSize]; [reflexivity | lia].
Qed.

Lemma bufferSize_pos : 0 < bufferSize.
Proof. reflexivity. Qed.

(** C1. When [saveInPlace] returns without error, the file consists of
    the newly serialised metadata (what [WriteTo] emits for the current
    blocks and no frames: the magic and the blocks) followed by the bytes
    that followed the original header, unchanged; its size is the old size
    plus the difference of the two header lengths; and when the current
    blocks are the original ones with one block removed, the file is
    shorter by exactly that block's serialised size. *)
Theorem saveInPlace_relocates_audio (c : File) (disk disk' : list byte)
    (c' : File) :
  saveInPlace c disk = Ok (disk', c') ->
  exists (original : File) (file : OsFile) (newHeader : list byte),
    ParseMetadata (mkOsFile disk 0) = Ok (original, file) /\
    WriteTo (mkFile (Meta c) None) (NewBuffer [])
    = (Z.of_nat (length newHeader), None, mkFile (Meta c) None,
       mkBuffer newHeader) /\
    disk' = newHeader ++ drop (Z.to_nat (Tell file)) disk /\
    Z.of_nat (length disk')
    = Z.of_nat (length disk) + (Z.of_nat (length newHeader) - Tell file) /\
    forall (i : nat) (b : MetaDataBlock) (isfinal : bool) (m : list byte),
      Meta original !! i = Some b ->
      Meta c = take i (Meta original) ++ drop (S i) (Meta original) ->
      Marshal b isfinal = Ok m ->
      Z.of_nat (length disk') = Z.of_nat (length disk) - Z.of_nat (length m).
Proof.
  intros Hs.
  destruct (saveInPlaceWith_inv bufferSize c disk disk' c' bufferSize_pos Hs)
    as (original & file & enc & Hp & Henc & -> & ->).
  destruct (ParseMetadata_OsFile disk original file Hp)
    as (Hd & Hoff & enc0 & Henc0 & Hoffeq & Hdisk).
  exists original, file, (magic ++ enc). unfold Tell.
  split; [exact Hp|]. split.
  { unfold NewBuffer.
    rewrite (WriteTo_Buffer_meta (mkFile (Meta c) None) [] enc Henc eq_refl).
    rewrite length_app. change (length magic) with 4%nat.
    cbn [app]. do 3 f_equal. lia. }
  split; [rewrite <- app_assoc; reflexivity|].
  assert (Hlen : Z.of_nat (length (magic ++ enc
                                     ++ drop (Z.to_nat (f_off file)) disk))
                 = Z.of_nat (length disk)
                   + (Z.of_nat (length (magic ++ enc)) - f_off file)).
  { rewrite !length_app, length_drop. lia. }
  split; [exact Hlen|].
  intros i b isfinal m Hi Hc Hm. rewrite Hlen, Hoffeq.
  rewrite length_app, (Marshal_length _ _ _ Hm).
  rewrite (encodeBlocks_length _ _ Henc), (encodeBlocks_length _ _ Henc0).
  change (length magic) with 4%nat.
  pose proof (f_equal encodedSize (take_drop_middle (Meta original) i b Hi))
    as Hsplit.
  rewrite encodedSize_app in Hsplit. cbn [encodedSize] in Hsplit.
  rewrite Hc, encodedSize_app. lia.
Qed.

Lemma saveInPlace_relocates_audio_witness :
  saveInPlace (mkFile sampleShrunkBlocks None) sampleContainer
  = Ok (sampleShrunkContainer, mkFile sampleShrunkBlocks None) /\
  sampleShrunkContainer
  = take 49 sampleShrunkContainer ++ drop 60 sampleContainer /\
  Z.of_nat (length sampleShrunkContainer)
  = Z.of_nat (length sampleContainer) - 11.
Proof.
  assert (Hs : saveInPlace (mkFile sampleShrunkBlocks None) sampleContainer
               = Ok (sampleShrunkContainer, mkFile sampleShrunkBlocks None))
    by (vm_compute; reflexivity).
  split; [exact Hs|]. split; [vm_compute; reflexivity|].
  destruct (saveInPlace_relocates_audio _ _ _ _ Hs)
    as (original & file & newHeader & Hp & _ & _ & _ & Hremoved).
  vm_compute in Hp. injection Hp as <- <-.
  exact (Hremoved 1%nat (mkBlock Padding (bytesOf [1; 2; 3; 4; 5; 6; 7]))
           false
           (bytesOf [0x01; 0; 0; 7] ++ bytesOf [1; 2; 3; 4; 5; 6; 7])
           eq_refl eq_refl eq_refl).
Defined.

(** C3. A container that [ParseBytes] accepts is reproduced byte for byte
    by [WriteTo] (in both versions) on the unedited file, and saving the
    unedited file in place leaves the bytes of the file as they were. *)
Theorem parse_write_roundtrip (input : list byte) (f g : File) :
  ParseBytes (RBytes (NewReader input)) = Ok f ->
  ParseFile input = Ok g ->
  (exists f',
     WriteTo f (NewBuffer [])
     = (Z.of_nat (length input), None, f', mkBuffer input)) /\
  (exists f',
     WriteTo_v1 f (NewBuffer [])
     = (Z.of_nat (length input), None, f', mkBuffer input)) /\
  saveInPlace g input = Ok (input, mkFile (Meta g) None).
Proof.
  intros Hf Hg.
  assert (Hbytes :
    exists enc frames,
      encodeBlocks (Meta f) = Ok enc /\ Frames f = Some frames /\
      wf frames /\ input = magic ++ enc ++ Pending frames /\
      4 + Z.of_nat (length enc) + Z.of_nat (length (Pending frames))
      = Z.of_nat (length input)).
  { destruct (ParseBytes_inv (RBytes (NewReader input)) f (Z.le_refl 0) Hf)
      as (_ & _ & enc & frames & Henc & Hfr & Hwf & _ & Hp).
    cbn [Pending Reader_IoReader Reader_Pending BytesReader_IoReader
           NewReader br_i br_s] in Hp.
    change (Z.to_nat 0) with O in Hp. rewrite drop_0 in Hp.
    change (Reader_Pending frames) with (Pending frames) in Hp.
    exists enc, frames. repeat (split; [assumption|]).
    apply (f_equal length) in Hp. rewrite !length_app in Hp.
    change (length magic) with 4%nat in Hp. lia. }
  destruct Hbytes as (enc & frames & Henc & Hfr & Hwf & Hp & Hlen).
  split; [|split].
  - eexists. unfold NewBuffer.
    rewrite (WriteTo_Buffer_frames f frames [] enc Henc Hfr Hwf).
    cbn [app]. rewrite <- Hp, Hlen. reflexivity.
  - destruct (WriteTo_v1_Buffer_frames f frames [] enc Henc Hfr Hwf)
      as (frames' & Hw).
    eexists. unfold NewBuffer. rewrite Hw.
    cbn [app]. rewrite <- Hp, Hlen. reflexivity.
  - clear enc frames Henc Hfr Hwf Hp Hlen. unfold ParseFile in Hg.
    assert (Hwf0 : wf (BufIOWithInner (RFile (mkOsFile input 0))))
      by exact (Z.le_refl 0).
    destruct (ParseBytes_inv _ g Hwf0 Hg)
      as (Hne & Hall & enc & frames & Henc & _ & _ & _ & Hp).
    cbn [Pending Reader_IoReader Reader_Pending OsFile_IoReader
           f_off f_data] in Hp.
    change (Z.to_nat 0) with O in Hp. rewrite drop_0 in Hp.
    assert (Hwf1 : wf (mkOsFile input 0)) by exact (Z.le_refl 0).
    destruct (ParseMetadata_fwd (mkOsFile input 0) (Meta g) enc
                (Reader_Pending frames) Hwf1 Hne Hall Henc)
      as (file & Hparse & _ & Hpf).
    { cbn [Pending OsFile_IoReader f_off f_data].
      change (Z.to_nat 0) with O. rewrite drop_0. exact Hp. }
    unfold saveInPlace.
    rewrite (saveInPlaceWith_ok bufferSize g input _ file enc bufferSize_pos
               Hparse Henc).
    destruct (ParseMetadata_OsFile input _ file Hparse) as (Hd & _).
    cbn [Pending OsFile_IoReader] in Hpf. rewrite Hd in Hpf.
    rewrite Hpf, <- Hp. reflexivity.
Qed.

Lemma parse_write_roundtrip_witness :
  ParseBytes (RBytes (NewReader sampleContainer)) = Ok sampleFile /\
  ParseFile sampleContainer
  = Ok (mkFile sampleBlocks
          (Some (PrefixReader (bytesOf [0xFF; 0xF8])
                   (BufIOWithInner (RFile (mkOsFile sampleContainer 62))))))
  /\
  buf_bytes (WriteTo sampleFile (NewBuffer [])).2 = sampleContainer /\
  saveInPlace
    (mkFile sampleBlocks
       (Some (PrefixReader (bytesOf [0xFF; 0xF8])
                (BufIOWithInner (RFile (mkOsFile sampleContainer 62))))))
    sampleContainer
  = Ok (sampleContainer, mkFile sampleBlocks None).
Proof.
  assert (Hf : ParseBytes (RBytes (NewReader sampleContainer))
               = Ok sampleFile)
    by (vm_compute; reflexivity).
  assert (Hg : ParseFile sampleContainer
               = Ok (mkFile sampleBlocks
                       (Some (PrefixReader (bytesOf [0xFF; 0xF8])
                                (BufIOWithInner
                                   (RFile (mkOsFile sampleContainer 62)))))))
    by (vm_compute; reflexivity).
  split; [exact Hf|]. split; [exact Hg|].
  destruct (parse_write_roundtrip _ _ _ Hf Hg) as ((f' & Hw) & _ & Hsave).
  split; [rewrite Hw; reflexivity | exact Hsave].
Defined.

(** C10. Whenever the re-parse of the reopened file succeeds, the header
    end offset that [saveInPlace] measures lies inside the file, so the
    audio size it computes is not negative; and in no execution does
    [saveInPlace] take its negative-audio-size branch. *)
Theorem saveInPlace_audio_size_nonnegative (c : File) (disk : list byte)
    (original : File) (file : OsFile) :
  ParseMetadata (mkOsFile disk 0) = Ok (original, file) ->
  0 <= Size file - Tell file /\
  forall c0 : File, saveInPlace c0 disk <> Err ErrNegativeAudioSize.
Proof.
  intros Hp.
  destruct (ParseMetadata_OsFile disk original file Hp) as (Hd & Hoff & _).
  unfold Size, Tell. rewrite Hd. split; [lia|].
  intros c0. unfold saveInPlace.
  destruct (encodeBlocks (Meta c0)) as [enc|e|p] eqn:Henc.
  - rewrite (saveInPlaceWith_ok bufferSize c0 disk original file enc
               bufferSize_pos Hp Henc). discriminate.
  - rewrite (saveInPlaceWith_marshal_fails bufferSize c0 disk original file e
               Hp Henc).
    rewrite (encodeBlocks_error _ _ Henc). discriminate.
  - destruct (encodeBlocks_no_panic _ _ Henc).
Qed.

(** The same without the assumption: a failed re-parse is reported as a
    parse error, never as a negative audio size. *)
Lemma saveInPlace_never_negative (c : File) (disk : list byte) :
  saveInPlace c disk <> Err ErrNegativeAudioSize.
Proof.
  destruct (ParseMetadata (mkOsFile disk 0)) as [[original file]|e|p] eqn:Hp.
  - destruct (encodeBlocks (Meta c)) as [enc|e|p] eqn:Henc.
    + unfold saveInPlace.
      rewrite (saveInPlaceWith_ok bufferSize c disk original file enc
                 bufferSize_pos Hp Henc). discriminate.
    + unfold saveInPlace.
      rewrite (saveInPlaceWith_marshal_fails bufferSize c disk original file
                 e Hp Henc).
      rewrite (encodeBlocks_error _ _ Henc). discriminate.
    + destruct (encodeBlocks_no_panic _ _ Henc).
  - unfold saveInPlace.
    rewrite (proj1 (saveInPlaceWith_parse_fails bufferSize c disk) e Hp).
    discriminate.
  - unfold saveInPlace.
    rewrite (proj2 (saveInPlaceWith_parse_fails bufferSize c disk) p Hp).
    discriminate.
Qed.

Lemma saveInPlace_audio_size_nonnegative_witness :
  ParseMetadata (mkOsFile sampleContainer 0)
  = Ok (mkFile sampleBlocks None, mkOsFile sampleContainer 60) /\
  0 <= Size (mkOsFile sampleContainer 60) - Tell (mkOsFile sampleContainer 60)
  /\
  saveInPlace (mkFile sampleShrunkBlocks None) sampleContainer
  <> Err ErrNegativeAudioSize.
Proof.
  assert (Hp : ParseMetadata (mkOsFile sampleContainer 0)
               = Ok (mkFile sampleBlocks None, mkOsFile sampleContainer 60))
    by (vm_compute; reflexivity).
  split; [exact Hp|].
  destruct (saveInPlace_audio_size_nonnegative
              (mkFile sampleShrunkBlocks None) _ _ _ Hp) as (Hsize & Hnever).
  split; [exact Hsize | exact (Hnever _)].
Defined.

(** * Further properties of the code *)

(** ** Integers on the wire *)

(** X1. [encodeUint32] and [readUint32] are inverse to each other: the
    four bytes written for a [uint32] read back as the same number, and
    the bytes of any 4-byte big-endian number are written back
    unchanged. *)
Theorem encodeUint32_readUint32 (n : Z) (a b c d : byte) :
  0 <= n < 2 ^ 32 ->
  readUint32 (NewBuffer (encodeUint32 n)) = Ok (n, mkBuffer []) /\
  encodeUint32 (bigEndian [a; b; c; d]) = [a; b; c; d].
Proof.
  intros Hn. split.
  - unfold encodeUint32, NewBuffer, readUint32.
    rewrite binaryRead_Buffer by reflexivity.
    do 2 f_equal. unfold bigEndian. cbn [fold_left].
    rewrite !byteZ_byteOf, !Z.shiftr_div_pow2 by lia.
    change (2 ^ 24) with 16777216. change (2 ^ 16) with 65536.
    change (2 ^ 8) with 256. change (2 ^ 32) with 4294967296 in Hn.
    Z.div_mod_to_equations. lia.
  - unfold encodeUint32, bigEndian. cbn [fold_left].
    pose proof (byteZ_range a). pose proof (byteZ_range b).
    pose proof (byteZ_range c). pose proof (byteZ_range d).
    rewrite !Z.shiftr_div_pow2 by lia.
    change (2 ^ 24) with 16777216. change (2 ^ 16) with 65536.
    change (2 ^ 8) with 256.
    repeat f_equal; apply byteOf_eq; Z.div_mod_to_equations; lia.
Qed.

Lemma encodeUint32_readUint32_witness :
  0 <= 58388 < 2 ^ 32 /\
  readUint32 (NewBuffer (encodeUint32 58388)) = Ok (58388, mkBuffer []).
Proof.
  assert (Hn : 0 <= 58388 < 2 ^ 32) by lia.
  split; [exact Hn|].
  exact (proj1 (encodeUint32_readUint32 58388 x00 x00 x00 x00 Hn)).
Defined.

(** ** One metadata block *)

Lemma header_flag_type (h : byte) :
  negb (shr (byteZ h) 7 =? 0) = (128 <=? byteZ h) /\
  shr (shl 8 (byteZ h) 1) 1 = byteZ h mod 128.
Proof.
  destruct h; vm_compute; split; reflexivity.
Qed.

(** X2. [parseMetadataBlock] on a source that still holds a 4-byte header:
    the last flag is the top bit of byte 0, the type its low seven bits
    (every value from 0 to 127 is accepted), and the payload is the next
    [L] bytes, [L] being the big-endian number in bytes 1 to 3; the source
    is left right after the payload.  When fewer than [L] bytes follow the
    header, the call fails with [io.EOF] if none does and with
    [io.ErrUnexpectedEOF] otherwise. *)
Theorem parseMetadataBlock_decodes {R : Type} `{SeqReaderLaw R} (f : R)
    (h0 h1 h2 h3 : byte) (rest : list byte) :
  wf f -> Pending f = h0 :: h1 :: h2 :: h3 :: rest ->
  if (Z.to_nat (byteZ h1 * 65536 + byteZ h2 * 256 + byteZ h3)
      <=? length rest)%nat
  then
    exists f',
      parseMetadataBlock f
      = Ok (mkBlock (byteZ h0 mod 128)
              (take (Z.to_nat (byteZ h1 * 65536 + byteZ h2 * 256 + byteZ h3))
                 rest),
            128 <=? byteZ h0, f') /\
      wf f' /\
      Pending f'
      = drop (Z.to_nat (byteZ h1 * 65536 + byteZ h2 * 256 + byteZ h3)) rest
  else parseMetadataBlock f = Err (eofError rest).
Proof.
  intros Hwf Hp.
  destruct (ReadFull_ok f 4 Hwf) as (f1 & Heq1 & Hwf1 & Hp1).
  { rewrite Hp. simpl. lia. }
  rewrite Hp in Heq1, Hp1. cbn [take drop] in Heq1, Hp1.
  rewrite take_0 in Heq1. rewrite drop_0 in Hp1.
  unfold parseMetadataBlock. rewrite Heq1. cbn [mbind result_bind].
  change (readUint32 (NewBuffer [h0; h1; h2; h3]))
    with (Ok (bigEndian [h0; h1; h2; h3], mkBuffer [])).
  cbn [mbind result_bind]. rewrite header_length.
  destruct (header_flag_type h0) as (-> & ->).
  set (L := Z.to_nat (byteZ h1 * 65536 + byteZ h2 * 256 + byteZ h3)).
  destruct (Nat.leb_spec L (length rest)) as [Hle|Hgt].
  - destruct (ReadFull_ok f1 L Hwf1) as (f2 & Heq2 & Hwf2 & Hp2).
    { rewrite Hp1. exact Hle. }
    rewrite Hp1 in Heq2, Hp2. exists f2. rewrite Heq2. auto.
  - rewrite ReadFull_short by (try rewrite Hp1; assumption).
    rewrite Hp1. reflexivity.
Qed.

Lemma parseMetadataBlock_decodes_witness :
  wf (NewReader (bytesOf [0xFF; 0; 0; 2; 7; 8; 9])) /\
  exists f',
    parseMetadataBlock (NewReader (bytesOf [0xFF; 0; 0; 2; 7; 8; 9]))
    = Ok (mkBlock 127 (bytesOf [7; 8]), true, f') /\
    Pending f' = bytesOf [9].
Proof.
  split; [exact (Z.le_refl 0)|].
  pose proof (parseMetadataBlock_decodes
                (NewReader (bytesOf [0xFF; 0; 0; 2; 7; 8; 9]))
                (byteOf 0xFF) (byteOf 0) (byteOf 0) (byteOf 2)
                (bytesOf [7; 8; 9]) (Z.le_refl 0) eq_refl) as Hd.
  destruct Hd as (f' & Heq & _ & Hp).
  exists f'. split; [exact Heq | exact Hp].
Defined.

(** ** The magic *)

Lemma ParseMetadata_bad_magic {R : Type} `{SeqReaderLaw R} (f : R) :
  wf f -> take 4 (Pending f) <> magic ->
  ParseMetadata f
  = Err (if (4 <=? length (Pending f))%nat then ErrorNoFLACHeader
         else eofError (Pending f)).
Proof.
  intros Hwf Hne. unfold ParseMetadata, readFLACHead.
  destruct (Nat.leb_spec 4 (length (Pending f))) as [Hle|Hgt].
  - destruct (ReadFull_ok f 4 Hwf Hle) as (f1 & -> & _).
    cbn [mbind result_bind].
    destruct (decide (take 4 (Pending f) = magic)); [contradiction|].
    reflexivity.
  - rewrite ReadFull_short by assumption. reflexivity.
Qed.

(** X3. A source whose first four bytes are not the magic is rejected by
    [ParseMetadata] and by [ParseBytes] with [ErrorNoFLACHeader]; a source
    of fewer than four bytes is rejected with the end-of-input error of
    [io.ReadFull] instead ([io.EOF] when it is empty). *)
Theorem ParseBytes_bad_magic (f : Reader) :
  wf f -> take 4 (Pending f) <> magic ->
  ParseMetadata f
  = Err (if (4 <=? length (Pending f))%nat then ErrorNoFLACHeader
         else eofError (Pending f)) /\
  ParseBytes f
  = Err (if (4 <=? length (Pending f))%nat then ErrorNoFLACHeader
         else eofError (Pending f)).
Proof.
  intros Hwf Hne. pose proof (ParseMetadata_bad_magic f Hwf Hne) as Hp.
  split; [exact Hp|]. unfold ParseBytes. rewrite Hp. reflexivity.
Qed.

Lemma ParseBytes_bad_magic_witness :
  wf (RBytes (NewReader (bytesOf [0x52; 0x49; 0x46; 0x46; 0; 0]))) /\
  ParseBytes (RBytes (NewReader (bytesOf [0x52; 0x49; 0x46; 0x46; 0; 0])))
  = Err ErrorNoFLACHeader /\
  ParseBytes (RBytes (NewReader (bytesOf [0x66; 0x4C]))) = Err ErrUnexpectedEOF.
Proof.
  split; [exact (Z.le_refl 0)|]. split.
  - refine (proj2 (ParseBytes_bad_magic
                     (RBytes (NewReader (bytesOf [0x52; 0x49; 0x46; 0x46; 0; 0])))
                     (Z.le_refl 0) _)).
    vm_compute. discriminate.
  - refine (proj2 (ParseBytes_bad_magic
                     (RBytes (NewReader (bytesOf [0x66; 0x4C])))
                     (Z.le_refl 0) _)).
    vm_compute. discriminate.
Defined.

(** X4. [saveInPlace] on a file that does not start with the magic stops
    at the re-parse, whatever the file being saved holds: the error is
    the parse error wrapped as a metadata parse failure. *)
Theorem saveInPlace_bad_magic (c : File) (disk : list byte) :
  take 4 disk <> magic ->
  saveInPlace c disk
  = Err (ErrParseMetadata
           (if (4 <=? length disk)%nat then ErrorNoFLACHeader
            else eofError disk)).
Proof.
  intros Hne.
  assert (Hwf : wf (mkOsFile disk 0)) by exact (Z.le_refl 0).
  assert (Hp : Pending (mkOsFile disk 0) = disk).
  { cbn [Pending OsFile_IoReader f_off f_data].
    change (Z.to_nat 0) with O. apply drop_0. }
  pose proof (ParseMetadata_bad_magic (mkOsFile disk 0) Hwf) as Hbad.
  rewrite Hp in Hbad. specialize (Hbad Hne).
  unfold saveInPlace.
  exact (proj1 (saveInPlaceWith_parse_fails bufferSize c disk) _ Hbad).
Qed.

Lemma saveInPlace_bad_magic_witness :
  take 4 sampleFrames <> magic /\
  saveInPlace sampleFile sampleFrames
  = Err (ErrParseMetadata ErrorNoFLACHeader).
Proof.
  assert (Hne : take 4 sampleFrames <> magic) by (vm_compute; discriminate).
  split; [exact Hne|].
  exact (saveInPlace_bad_magic sampleFile sampleFrames Hne).
Defined.

(** ** Metadata and frames *)

(** X5. Once [ParseMetadata] has accepted the head of a source,
    [ParseBytes] on that source is decided by the next two bytes alone:
    with none left it fails with [io.EOF] (a stream of metadata only is
    not accepted), with one with [io.ErrUnexpectedEOF], with two that are
    not a sync code with [ErrorNoSyncCode]; otherwise it returns the same
    blocks with a frame reader over everything [ParseMetadata] left. *)
Theorem ParseBytes_after_metadata (f : Reader) (file : File) (f' : Reader) :
  wf f -> ParseMetadata f = Ok (file, f') ->
  match Pending f' with
  | b0 :: b1 :: _ =>
      if (byteZ b0 =? 255) && (byteZ b1 / 4 =? 62)
      then
        exists frames,
          ParseBytes f = Ok (mkFile (Meta file) (Some frames)) /\
          Pending frames = Pending f'
      else ParseBytes f = Err ErrorNoSyncCode
  | short => ParseBytes f = Err (eofError short)
  end.
Proof.
  intros Hwf Hp.
  destruct (ParseMetadata_inv f file f' Hwf Hp) as (Hwf' & _).
  unfold ParseBytes. rewrite Hp. cbn [mbind result_bind].
  destruct (Pending f') as [|b0 [|b1 rest]] eqn:Hpend.
  - rewrite checkFLACStream_short by (try rewrite Hpend; simpl; auto).
    rewrite Hpend. reflexivity.
  - rewrite checkFLACStream_short by (try rewrite Hpend; simpl; auto).
    rewrite Hpend. reflexivity.
  - destruct (checkFLACStream_two f' b0 b1 rest Hwf' Hpend)
      as (f2 & Hwf2 & Hp2 & Heq).
    rewrite Heq. unfold shr. rewrite Z.shiftr_div_pow2 by lia.
    change (2 ^ 2) with 4. change 0xFF with 255. change 0x3E with 62.
    destruct (byteZ b0 =? 255); cbn [negb orb andb]; [|reflexivity].
    destruct (byteZ b1 / 4 =? 62); cbn [negb]; [|reflexivity].
    eexists. split; [reflexivity|].
    cbn [Pending Reader_IoReader Reader_Pending] in *. rewrite Hp2.
    reflexivity.
Qed.

Lemma ParseBytes_after_metadata_witness :
  wf (RBytes (NewReader (take 60 sampleContainer))) /\
  ParseMetadata (RBytes (NewReader (take 60 sampleContainer)))
  = Ok (mkFile sampleBlocks None,
        RBytes (mkBytesReader (take 60 sampleContainer) 60)) /\
  ParseBytes (RBytes (NewReader (take 60 sampleContainer))) = Err EOF.
Proof.
  assert (Hp : ParseMetadata (RBytes (NewReader (take 60 sampleContainer)))
               = Ok (mkFile sampleBlocks None,
                     RBytes (mkBytesReader (take 60 sampleContainer) 60)))
    by (vm_compute; reflexivity).
  assert (Hwf : wf (RBytes (NewReader (take 60 sampleContainer))))
    by exact (Z.le_refl 0).
  split; [exact Hwf|]. split; [exact Hp|].
  exact (ParseBytes_after_metadata _ _ _ Hwf Hp).
Defined.

(** X6. What [ParseMetadata] returns has no frames, and [WriteTo] (in both
    versions) on it emits exactly the bytes [ParseMetadata] consumed and
    leaves the file as it is, so it can be written again. *)
Theorem ParseMetadata_WriteTo {R : Type} `{SeqReaderLaw R} (f : R)
    (file : File) (f' : R) :
  wf f -> ParseMetadata f = Ok (file, f') ->
  exists header,
    Pending f = header ++ Pending f' /\
    WriteTo file (NewBuffer [])
    = (Z.of_nat (length header), None, file, mkBuffer header) /\
    WriteTo_v1 file (NewBuffer [])
    = (Z.of_nat (length header), None, file, mkBuffer header).
Proof.
  intros Hwf Hp.
  destruct (ParseMetadata_inv f file f' Hwf Hp)
    as (_ & Hfr & _ & _ & enc & Henc & Hpend).
  exists (magic ++ enc). split; [rewrite <- app_assoc; exact Hpend|].
  assert (Hlen : 4 + Z.of_nat (length enc)
                 = Z.of_nat (length (magic ++ enc))).
  { rewrite length_app. change (length magic) with 4%nat. lia. }
  split.
  - unfold NewBuffer. rewrite (WriteTo_Buffer_meta file [] enc Henc Hfr).
    rewrite Hlen. reflexivity.
  - unfold WriteTo_v1, NewBuffer.
    cbn [Write Buffer_IoWriter]. unfold Buffer_Write. cbn [buf_bytes].
    rewrite (writeBlocks_Buffer _ 0 _ _ _ enc Henc) by lia.
    rewrite Hfr, <- Hlen. reflexivity.
Qed.

Lemma ParseMetadata_WriteTo_witness :
  wf (NewReader sampleContainer) /\
  ParseMetadata (NewReader sampleContainer)
  = Ok (mkFile sampleBlocks None, mkBytesReader sampleContainer 60) /\
  exists header,
    sampleContainer = header ++ drop 60 sampleContainer /\
    WriteTo (mkFile sampleBlocks None) (NewBuffer [])
    = (Z.of_nat (length header), None, mkFile sampleBlocks None,
       mkBuffer header).
Proof.
  assert (Hp : ParseMetadata (NewReader sampleContainer)
               = Ok (mkFile sampleBlocks None,
                     mkBytesReader sampleContainer 60))
    by (vm_compute; reflexivity).
  assert (Hwf : wf (NewReader sampleContainer)) by exact (Z.le_refl 0).
  split; [exact Hwf|]. split; [exact Hp|].
  destruct (ParseMetadata_WriteTo _ _ _ Hwf Hp) as (header & Hh & Hw & _).
  exists header. split; [exact Hh | exact Hw].
Defined.

(** ** STREAMINFO *)

(** X7. Whatever [GetStreamInfo] returns lies in the ranges of the bit
    fields it was cut from: block sizes below [2^16], frame sizes below
    [2^24], a sample rate below [2^20], 1 to 8 channels, 1 to 32 bits per
    sample, a sample count below [2^36] and a checksum of 16 bytes. *)
Theorem GetStreamInfo_ranges (s : list byte) (rest : list MetaDataBlock)
    (frames : option Reader) (sib : StreamInfoBlock) :
  GetStreamInfo (mkFile (mkBlock StreamInfo s :: rest) frames) = Ok sib ->
  0 <= BlockSizeMin sib < 2 ^ 16 /\ 0 <= BlockSizeMax sib < 2 ^ 16 /\
  0 <= FrameSizeMin sib < 2 ^ 24 /\ 0 <= FrameSizeMax sib < 2 ^ 24 /\
  0 <= SampleRate sib < 2 ^ 20 /\
  1 <= ChannelCount sib <= 8 /\ 1 <= BitDepth sib <= 32 /\
  0 <= SampleCount sib < 2 ^ 36 /\
  length (AudioMD5 sib) = 16%nat.
Proof.
  intros Hget.
  assert (Hlen : (19 <= length s)%nat).
  { destruct (Nat.le_gt_cases 19 (length s)) as [Hle|Hgt]; [exact Hle|].
    destruct (GetStreamInfo_rejects_below_19 s rest frames Hgt) as [He|He];
      rewrite He in Hget; discriminate. }
  rewrite GetStreamInfo_offsets_partial in Hget by exact Hlen.
  injection Hget as <-.
  cbn [BlockSizeMin BlockSizeMax FrameSizeMin FrameSizeMax SampleRate
         ChannelCount BitDepth SampleCount AudioMD5].
  assert (Hmd5 : length (take 16 (drop 18 s)
                           ++ replicate (16 - (length s - 18)) x00) = 16%nat).
  { rewrite length_app, length_take, length_drop, length_replicate. lia. }
  do 19 (destruct s as [|? s]; [simpl in Hlen; lia|]).
  clear Hlen. repeat (split; [|try exact Hmd5]).
  all: unfold bigEndian, shr, shl; cbn [fold_left take drop];
    rewrite ?Z.shiftr_div_pow2, ?Z.shiftl_mul_pow2 by lia;
    change (byteZ x00) with 0;
    repeat match goal with
      | |- context [byteZ ?b] =>
          let v := fresh "v" in
          pose proof (byteZ_range b);
          set (v := byteZ b) in *; clearbody v
      end;
    Z.div_mod_to_equations; lia.
Qed.

Lemma GetStreamInfo_ranges_witness :
  GetStreamInfo (mkFile [mkBlock StreamInfo sampleStreamInfo] None)
  = Ok (mkStreamInfoBlock 1152 1152 1650 6130 96000 2 24 3828096
          (bytesOf [229; 209; 0; 198; 63; 81; 136; 144; 12; 102; 182; 166;
                    160; 140; 226; 235])) /\
  1 <= 2 <= 8 /\ 1 <= 24 <= 32.
Proof.
  assert (Hget :
    GetStreamInfo (mkFile [mkBlock StreamInfo sampleStreamInfo] None)
    = Ok (mkStreamInfoBlock 1152 1152 1650 6130 96000 2 24 3828096
            (bytesOf [229; 209; 0; 198; 63; 81; 136; 144; 12; 102; 182; 166;
                      160; 140; 226; 235])))
    by (vm_compute; reflexivity).
  split; [exact Hget|].
  destruct (GetStreamInfo_ranges _ _ _ _ Hget)
    as (_ & _ & _ & _ & _ & Hch & Hbits & _).
  split; [exact Hch | exact Hbits].
Defined.

(** ** Truncated input *)

Section Truncated.

Context {R : Type} `{SeqReaderLaw R}.

(** A source that ends inside a block makes [parseMetadataBlock] fail. *)
Lemma parseMetadataBlock_truncated (g : R) (blk : MetaDataBlock) (fin : bool)
    (m : list byte) (k : nat) :
  wf g -> blockOk blk -> Marshal blk fin = Ok m ->
  (k < length m)%nat -> Pending g = take k m ->
  exists e, parseMetadataBlock g = Err e.
Proof.
  intros Hwf (_ & Hsize) Hm Hk Hp.
  unfold Marshal in Hm.
  destruct (Z.gtb_spec (Z.of_nat (length (Data blk))) (2 ^ 24 - 1));
    [discriminate|].
  injection Hm as <-. cbn [app length] in Hp, Hk.
  destruct (Nat.lt_ge_cases k 4) as [Hlt|Hge].
  - exists (eofError (Pending g)). unfold parseMetadataBlock.
    rewrite ReadFull_short; [reflexivity | exact Hwf |].
    rewrite Hp, length_take. lia.
  - do 4 (destruct k as [|k]; [lia|]). cbn [take] in Hp.
    destruct (ReadFull_ok g 4 Hwf) as (g1 & Heq1 & Hwf1 & Hp1).
    { rewrite Hp. simpl. lia. }
    rewrite Hp in Heq1, Hp1. cbn [take drop] in Heq1, Hp1.
    rewrite take_0 in Heq1. rewrite drop_0 in Hp1.
    exists (eofError (Pending g1)).
    unfold parseMetadataBlock. rewrite Heq1. cbn [mbind result_bind].
    match goal with
    | |- context [readUint32 (NewBuffer [?a; ?b; ?c; ?d])] =>
        change (readUint32 (NewBuffer [a; b; c; d]))
          with (Ok (bigEndian [a; b; c; d], mkBuffer []))
    end.
    cbn [mbind result_bind].
    rewrite header_length, !byteZ_byteOf.
    rewrite !Z.shiftr_div_pow2 by lia.
    change (2 ^ 16) with 65536. change (2 ^ 8) with 256.
    set (n := Z.of_nat (length (Data blk))) in *.
    replace (((n / 65536) mod 256) * 65536 + ((n / 256) mod 256) * 256
             + n mod 256)
      with n
      by (change (2 ^ 24 - 1) with 16777215 in *;
          Z.div_mod_to_equations; lia).
    subst n. rewrite Nat2Z.id.
    rewrite ReadFull_short; [reflexivity | exact Hwf1 |].
    rewrite Hp1, length_take. lia.
Qed.

Lemma readMetadataBlocksLoop_truncated (metas : list MetaDataBlock) :
  forall (fuel : nat) (g : R) acc (enc : list byte) (k : nat),
  wf g -> metas <> [] -> Forall blockOk metas ->
  encodeBlocks metas = Ok enc ->
  (k < length enc)%nat -> Pending g = take k enc ->
  exists e, readMetadataBlocksLoop fuel g acc = Err e.
Proof.
  induction metas as [|meta more IH];
    intros fuel g acc enc k Hwf Hne Hall Henc Hk Hp; [congruence|].
  destruct fuel as [|fuel]; [eexists; reflexivity|].
  destruct (encodeBlocks_cons _ _ _ Henc) as (m & e & Hm & He & ->).
  inversion Hall as [|? ? Hok Hall']; subst.
  cbn [readMetadataBlocksLoop].
  destruct (Nat.lt_ge_cases k (length m)) as [Hlt|Hge].
  - rewrite take_app_le in Hp by lia.
    destruct (parseMetadataBlock_truncated g meta _ m k Hwf Hok Hm Hlt Hp)
      as (e' & ->).
    eexists; reflexivity.
  - rewrite take_app_ge in Hp by lia.
    destruct (parseMetadataBlock_fwd g meta _ m _ Hwf Hok Hm Hp)
      as (g1 & -> & Hwf1 & Hp1).
    cbn [mbind result_bind].
    rewrite length_app in Hk.
    destruct more as [|meta' more].
    + injection He as <-. simpl in Hk. lia.
    + apply (IH fuel g1 _ e (k - length m)%nat Hwf1);
        [discriminate | exact Hall' | exact He | lia | exact Hp1].
Qed.

(** X8. A container cut anywhere inside its header is rejected: when
    [ParseMetadata] accepts a source, it fails with [io.EOF] or
    [io.ErrUnexpectedEOF] on every source that holds only the first [k]
    bytes, for [k] smaller than the number of bytes it consumed. *)
Theorem ParseMetadata_truncated (f g : R) (file : File) (f' : R) (k : nat) :
  wf f -> wf g ->
  ParseMetadata f = Ok (file, f') ->
  (k < length (Pending f) - length (Pending f'))%nat ->
  Pending g = take k (Pending f) ->
  ParseMetadata g = Err EOF \/ ParseMetadata g = Err ErrUnexpectedEOF.
Proof.
  intros Hwf Hwfg Hparse Hk Hp.
  destruct (ParseMetadata_inv f file f' Hwf Hparse)
    as (_ & _ & Hne & Hall & enc & Henc & Hpend).
  rewrite Hpend in Hk, Hp. rewrite !length_app in Hk.
  change (length magic) with 4%nat in Hk.
  assert (Hkind : forall e, e = EOF \/ e = ErrUnexpectedEOF ->
            ParseMetadata g = Err e ->
            ParseMetadata g = Err EOF \/ ParseMetadata g = Err ErrUnexpectedEOF).
  { intros e [->| ->] He; [left | right]; exact He. }
  destruct (Nat.lt_ge_cases k 4) as [Hlt|Hge].
  - apply (Hkind (eofError (Pending g))).
    + unfold eofError. destruct (Pending g); auto.
    + unfold ParseMetadata, readFLACHead.
      rewrite ReadFull_short; [reflexivity | exact Hwfg |].
      rewrite Hp, length_take. lia.
  - rewrite (take_app_ge magic) in Hp
      by (change (length magic) with 4%nat; lia).
    change (length magic) with 4%nat in Hp.
    rewrite take_app_le in Hp by lia.
    destruct (ReadFull_ok g 4 Hwfg) as (g1 & Heq1 & Hwf1 & Hp1).
    { rewrite Hp, length_app. change (length magic) with 4%nat. lia. }
    rewrite Hp in Heq1, Hp1.
    rewrite (take_app_length' magic _ 4 eq_refl) in Heq1.
    rewrite (drop_app_length' magic _ 4 eq_refl) in Hp1.
    destruct (readMetadataBlocksLoop_truncated (Meta file)
                (S (length (Pending g1))) g1 [] enc (k - 4)%nat
                Hwf1 Hne Hall Henc) as (e & He); [lia | exact Hp1 |].
    apply (Hkind e).
    + apply (readMetadataBlocks_error g1 e Hwf1 He).
    + unfold ParseMetadata, readFLACHead. rewrite Heq1.
      cbn [mbind result_bind].
      destruct (decide (magic = magic)); [|congruence].
      cbn [mbind result_bind]. unfold readMetadataBlocks. rewrite He.
      reflexivity.
Qed.

End Truncated.

Lemma ParseMetadata_truncated_witness :
  ParseMetadata (NewReader (take 30 sampleContainer)) = Err EOF \/
  ParseMetadata (NewReader (take 30 sampleContainer)) = Err ErrUnexpectedEOF.
Proof.
  assert (Hwf : wf (NewReader sampleContainer)) by exact (Z.le_refl 0).
  assert (Hwfg : wf (NewReader (take 30 sampleContainer)))
    by exact (Z.le_refl 0).
  apply (ParseMetadata_truncated (NewReader sampleContainer)
           (NewReader (take 30 sampleContainer))
           (mkFile sampleBlocks None) (mkBytesReader sampleContainer 60)
           30 Hwf Hwfg).
  - vm_compute. reflexivity.
  - vm_compute. lia.
  - reflexivity.
Defined.

(** ** Writing twice with the first version *)

(** [io.Copy] into a buffer leaves a well-formed source with nothing
    pending. *)
Lemma copyLoop_Buffer_drains (fuel : nat) : forall (src : Reader)
    (acc : list byte) (n : Z),
  wf src -> (length (Pending src) < fuel)%nat ->
  exists src',
    copyLoop fuel (mkBuffer acc) src n
    = (n + Z.of_nat (length (Pending src)), None,
       mkBuffer (acc ++ Pending src), src') /\
    wf src' /\ Pending src' = [].
Proof.
  induction fuel as [|fuel IH]; intros src acc n Hwf Hfuel; [lia|].
  cbn [copyLoop].
  destruct (Read src copyBufSize) as [[bs e] src1] eqn:E.
  destruct (read_step src _ bs e src1 Hwf E) as (Hwf1 & Hlen & Hpend & He).
  destruct e as [e|].
  - destruct He as (-> & -> & Hnil). rewrite Hnil.
    cbn [length Z.of_nat Z.ltb Z.compare]. exists src1.
    rewrite Z.add_0_r, app_nil_r. split; [reflexivity|].
    split; [exact Hwf1|]. rewrite Hnil in Hpend. exact (eq_sym Hpend).
  - destruct He as [He|He]; [discriminate|].
    assert (Hbs : (0 < length bs)%nat) by (destruct bs; simpl; [easy|lia]).
    destruct (Z.ltb_spec 0 (Z.of_nat (length bs))) as [_|]; [|lia].
    cbn [Write Buffer_IoWriter]. unfold Buffer_Write. cbn [buf_bytes].
    rewrite Z.eqb_refl. cbn [negb].
    destruct (IH src1 (acc ++ bs) (n + Z.of_nat (length bs)) Hwf1)
      as (src' & Heq & Hdone).
    { rewrite Hpend, length_app in Hfuel. lia. }
    exists src'. split; [|exact Hdone].
    rewrite Heq, Hpend, length_app, <- app_assoc.
    do 3 f_equal. lia.
Qed.

(** X9. The first version of [WriteTo] leaves the drained frames reader in
    the file, so a second call does not fail: after a successful
    [ParseBytes], the first call writes the whole input and the second one
    reports success while it writes the metadata only, a proper prefix of
    the input that is at least two bytes shorter. *)
Theorem WriteTo_v1_twice (f : Reader) (file : File) :
  wf f -> ParseBytes f = Ok file ->
  exists file1 file2 header audio,
    WriteTo_v1 file (NewBuffer [])
    = (Z.of_nat (length (Pending f)), None, file1, mkBuffer (Pending f)) /\
    WriteTo_v1 file1 (NewBuffer [])
    = (Z.of_nat (length header), None, file2, mkBuffer header) /\
    Pending f = header ++ audio /\ (2 <= length audio)%nat.
Proof.
  intros Hwf Hparse.
  destruct (ParseBytes_inv f file Hwf Hparse)
    as (_ & _ & enc & frames & Henc & Hfr & Hwffr & Hlen & Hpend).
  destruct (copyLoop_Buffer_drains (S (length (Pending frames))) frames
              (([] ++ magic) ++ enc) 0 Hwffr) as (fr1 & Hcopy1 & Hwf1 & Hnil);
    [lia|].
  destruct (copyLoop_Buffer_drains (S (length (Pending fr1))) fr1
              (([] ++ magic) ++ enc) 0 Hwf1) as (fr2 & Hcopy2 & _ & _);
    [lia|].
  exists (mkFile (Meta file) (Some fr1)), (mkFile (Meta file) (Some fr2)),
    (magic ++ enc), (Pending frames).
  split; [|split; [|split]].
  - unfold WriteTo_v1, NewBuffer.
    cbn [Write Buffer_IoWriter]. unfold Buffer_Write. cbn [buf_bytes].
    rewrite (writeBlocks_Buffer _ 0 _ _ _ enc Henc) by lia.
    rewrite Hfr. unfold Copy. rewrite Hcopy1, Hpend.
    cbn [app]. rewrite <- !app_assoc, !length_app.
    change (length magic) with 4%nat. do 3 f_equal. lia.
  - unfold WriteTo_v1, NewBuffer. cbn [Meta Frames].
    cbn [Write Buffer_IoWriter]. unfold Buffer_Write. cbn [buf_bytes].
    rewrite (writeBlocks_Buffer _ 0 _ _ _ enc Henc) by lia.
    unfold Copy. rewrite Hcopy2, Hnil.
    cbn [app length]. rewrite app_nil_r, length_app.
    change (length magic) with 4%nat. do 3 f_equal. lia.
  - rewrite Hpend, <- app_assoc. reflexivity.
  - exact Hlen.
Qed.

Lemma WriteTo_v1_twice_witness :
  exists file1 file2 header audio,
    WriteTo_v1 sampleFile (NewBuffer [])
    = (Z.of_nat (length sampleContainer), None, file1,
       mkBuffer sampleContainer) /\
    WriteTo_v1 file1 (NewBuffer [])
    = (Z.of_nat (length header), None, file2, mkBuffer header) /\
    sampleContainer = header ++ audio /\ (2 <= length audio)%nat.
Proof.
  assert (Hwf : wf (RBytes (NewReader sampleContainer)))
    by exact (Z.le_refl 0).
  assert (Hparse : ParseBytes (RBytes (NewReader sampleContainer))
                   = Ok sampleFile) by (vm_compute; reflexivity).
  destruct (WriteTo_v1_twice _ _ Hwf Hparse)
    as (file1 & file2 & header & audio & H1 & H2 & H3 & H4).
  change (Pending (RBytes (NewReader sampleContainer))) with sampleContainer
    in H1, H3.
  exists file1, file2, header, audio.
  split; [exact H1|]. split; [exact H2|]. split; [exact H3 | exact H4].
Defined.

(** ** Writing to a destination that runs out of room *)

(** Facts about one [Write] on a sink. *)
Lemma Sink_Write_eta (w : Sink) :
  Sink_Write w [] = (0, None, w).
Proof.
  destruct w as [acc [k|]]; unfold Sink_Write; cbn [room written length];
    rewrite ?app_nil_r, ?Nat.sub_0_r; reflexivity.
Qed.

Lemma Sink_Write_count (w : Sink) (p : list byte) :
  (Sink_Write w p).1.2 = None ->
  (Sink_Write w p).1.1 = Z.of_nat (length p).
Proof.
  destruct w as [acc [k|]]; unfold Sink_Write; cbn [room written];
    [|reflexivity].
  destruct (length p <=? k)%nat; [reflexivity | discriminate].
Qed.

Lemma Sink_Write_app (w : Sink) (p q : list byte) :
  Sink_Write w (p ++ q)
  = match (Sink_Write w p).1.2 with
    | Some _ => Sink_Write w p
    | None =>
        ((Sink_Write w p).1.1 + (Sink_Write (Sink_Write w p).2 q).1.1,
         (Sink_Write (Sink_Write w p).2 q).1.2,
         (Sink_Write (Sink_Write w p).2 q).2)
    end.
Proof.
  destruct w as [acc [k|]]; unfold Sink_Write; cbn [room written].
  - rewrite length_app.
    destruct (Nat.leb_spec (length p) k) as [Hp|Hp]; cbn [fst snd room written].
    + destruct (Nat.leb_spec (length p + length q) k) as [Hq|Hq];
        destruct (Nat.leb_spec (length q) (k - length p)) as [Hq'|Hq'];
        try lia; cbn [fst snd]; rewrite <- ?app_assoc.
      * f_equal; [f_equal; lia|]. do 2 f_equal. lia.
      * rewrite take_app_ge by lia. f_equal. f_equal. lia.
    + destruct (Nat.leb_spec (length p + length q) k) as [Hq|Hq]; [lia|].
      rewrite take_app_le by lia. reflexivity.
  - cbn [fst snd room written]. rewrite length_app, <- app_assoc.
    do 2 f_equal. lia.
Qed.

(** The block loop and [io.Copy] write what one [Write] of all their bytes
    would. *)
Lemma writeBlocks_Sink (metas : list MetaDataBlock) : forall (i len n : Z)
    (w : Sink) (enc : list byte),
  encodeBlocks metas = Ok enc ->
  len = i + Z.of_nat (length metas) ->
  writeBlocks metas i len n w
  = (n + (Sink_Write w enc).1.1, (Sink_Write w enc).1.2, (Sink_Write w enc).2).
Proof.
  induction metas as [|meta rest IH]; intros i len n w enc Henc Hlen.
  - injection Henc as <-. rewrite Sink_Write_eta. cbn [writeBlocks fst snd].
    rewrite Z.add_0_r. reflexivity.
  - destruct (encodeBlocks_cons _ _ _ Henc) as (m & e & Hm & He & ->).
    cbn [writeBlocks].
    replace (i =? len - 1) with (match rest with [] => true | _ => false end).
    2:{ cbn [length] in Hlen. destruct rest; cbn [length] in Hlen; symmetry;
        [apply Z.eqb_eq | apply Z.eqb_neq]; lia. }
    rewrite Hm, Sink_Write_app.
    change (Write w m) with (Sink_Write w m).
    destruct (Sink_Write w m) as [[n2 [e2|]] w2]; cbn [fst snd];
      [reflexivity|].
    rewrite (IH (i + 1) len _ _ e He) by (cbn [length] in Hlen; lia).
    rewrite Z.add_assoc. reflexivity.
Qed.

Lemma copyLoop_Sink (fuel : nat) : forall (src : Reader) (w : Sink) (n : Z),
  wf src -> (length (Pending src) < fuel)%nat ->
  exists src',
    copyLoop fuel w src n
    = (n + (Sink_Write w (Pending src)).1.1,
       (Sink_Write w (Pending src)).1.2,
       (Sink_Write w (Pending src)).2, src').
Proof.
  induction fuel as [|fuel IH]; intros src w n Hwf Hfuel; [lia|].
  cbn [copyLoop].
  destruct (Read src copyBufSize) as [[bs e] src1] eqn:E.
  destruct (read_step src _ bs e src1 Hwf E) as (Hwf1 & Hlen & Hpend & He).
  destruct e as [e|].
  - destruct He as (-> & -> & Hnil). rewrite Hnil.
    change (0 <? Z.of_nat (length (@nil byte))) with false. cbv iota.
    rewrite (Sink_Write_eta w).
    cbn [fst snd]. exists src1.
    rewrite Z.add_0_r. reflexivity.
  - destruct He as [He|He]; [discriminate|].
    assert (Hbs : (0 < length bs)%nat) by (destruct bs; simpl; [easy|lia]).
    destruct (Z.ltb_spec 0 (Z.of_nat (length bs))) as [_|]; [|lia].
    rewrite Hpend, Sink_Write_app.
    change (Write w bs) with (Sink_Write w bs).
    pose proof (Sink_Write_count w bs) as Hcount.
    destruct (Sink_Write w bs) as [[nw [ew|]] w1]; cbn [fst snd] in *.
    + exists src1. reflexivity.
    + rewrite Hcount by reflexivity. rewrite Z.eqb_refl. cbn [negb].
      destruct (IH src1 w1 (n + Z.of_nat (length bs)) Hwf1)
        as (src' & Heq).
      { rewrite Hpend, length_app in Hfuel. lia. }
      exists src'. rewrite Heq, Z.add_assoc. reflexivity.
Qed.

(** [WriteTo] into a sink is one [Write] of the whole container. *)
Lemma WriteTo_Sink_whole (c : File) (w : Sink) (enc : list byte) :
  encodeBlocks (Meta c) = Ok enc ->
  match Frames c with Some frames => wf frames | None => True end ->
  WriteTo c w
  = let audio := match Frames c with
                 | Some frames => Pending frames
                 | None => []
                 end in
    let r := Sink_Write w (magic ++ enc ++ audio) in
    (r.1.1, r.1.2,
     match (Sink_Write w (magic ++ enc)).1.2, Frames c with
     | None, Some _ => mkFile (Meta c) (Some (ErrorReader ErrorAlreadyWritten))
     | _, _ => c
     end, r.2).
Proof.
  intros Henc Hwf. cbv zeta. unfold WriteTo.
  rewrite (Sink_Write_app w magic (enc ++ _)), (Sink_Write_app w magic enc).
  change (Write w magic) with (Sink_Write w magic).
  destruct (Sink_Write w magic) as [[n0 [e0|]] w0]; cbn [fst snd];
    [reflexivity|].
  rewrite (writeBlocks_Sink _ 0 _ _ _ enc Henc) by lia.
  rewrite Sink_Write_app.
  destruct (Sink_Write w0 enc) as [[n1 [e1|]] w1]; cbn [fst snd];
    [reflexivity|].
  destruct (Frames c) as [frames|].
  - unfold Copy.
    destruct (copyLoop_Sink (S (length (Pending frames))) frames w1 0 Hwf)
      as (src' & ->); [lia|].
    rewrite Z.add_0_l, Z.add_assoc. reflexivity.
  - rewrite Sink_Write_eta. cbn [fst snd]. rewrite !Z.add_0_r. reflexivity.
Qed.

(** X10. [WriteTo] into a destination with room for [k] more bytes
    delivers the first [k] bytes of the container (magic, blocks, frames)
    and nothing else; the count it returns is the number of bytes
    delivered, and it reports the write error exactly when the container
    does not fit.  The frames are replaced by the [ErrorReader] as soon as
    the magic and the blocks fitted, also when the copy of the frames
    failed; a failure before that leaves the file as it was. *)
Theorem WriteTo_Sink_room (c : File) (enc acc : list byte) (k : nat) :
  encodeBlocks (Meta c) = Ok enc ->
  match Frames c with Some frames => wf frames | None => True end ->
  let audio := match Frames c with
               | Some frames => Pending frames
               | None => []
               end in
  let full := magic ++ enc ++ audio in
  WriteTo c (mkSink acc (Some k))
  = (Z.of_nat (Nat.min k (length full)),
     if (length full <=? k)%nat then None else Some ErrNoSpace,
     if (4 + length enc <=? k)%nat then
       match Frames c with
       | Some _ => mkFile (Meta c) (Some (ErrorReader ErrorAlreadyWritten))
       | None => c
       end
     else c,
     mkSink (acc ++ take k full) (Some (k - length full)%nat)).
Proof.
  intros Henc Hwf audio full.
  rewrite (WriteTo_Sink_whole c _ enc Henc Hwf). cbv zeta.
  fold audio. fold full.
  unfold Sink_Write. cbn [room written].
  replace (length (magic ++ enc)) with (4 + length enc)%nat
    by (rewrite length_app; reflexivity).
  destruct (Nat.leb_spec (4 + length enc) k) as [Hh|Hh];
    destruct (Nat.leb_spec (length full) k) as [Hf|Hf]; cbn [fst snd].
  - rewrite Nat.min_r, take_ge by lia. reflexivity.
  - rewrite Nat.min_l by lia. replace (k - length full)%nat with O by lia.
    destruct (Frames c); reflexivity.
  - exfalso. subst full. rewrite !length_app in Hf.
    change (length magic) with 4%nat in Hf. lia.
  - rewrite Nat.min_l by lia. replace (k - length full)%nat with O by lia.
    reflexivity.
Qed.

Lemma WriteTo_Sink_room_witness :
  WriteTo sampleFile (mkSink [] (Some 65%nat))
  = (65, Some ErrNoSpace, sampleFileWritten,
     mkSink (take 65 sampleContainer) (Some O)).
Proof.
  assert (Henc : encodeBlocks (Meta sampleFile)
                 = Ok (drop 4 (take 60 sampleContainer)))
    by (vm_compute; reflexivity).
  assert (Hwf : match Frames sampleFile with
                | Some frames => wf frames
                | None => True
                end) by (vm_compute; discriminate).
  exact (WriteTo_Sink_room sampleFile _ [] 65 Henc Hwf).
Defined.

(** With unbounded room everything is written. *)
Lemma WriteTo_Sink_unbounded (c : File) (enc acc : list byte) :
  encodeBlocks (Meta c) = Ok enc ->
  match Frames c with Some frames => wf frames | None => True end ->
  WriteTo c (mkSink acc None)
  = (Z.of_nat (length (magic ++ enc ++
                 match Frames c with
                 | Some frames => Pending frames
                 | None => []
                 end)), None,
     match Frames c with
     | Some _ => mkFile (Meta c) (Some (ErrorReader ErrorAlreadyWritten))
     | None => c
     end,
     mkSink (acc ++ magic ++ enc ++
               match Frames c with
               | Some frames => Pending frames
               | None => []
               end) None).
Proof.
  intros Henc Hwf.
  rewrite (WriteTo_Sink_whole c _ enc Henc Hwf). cbv zeta.
  unfold Sink_Write. cbn [room written fst snd].
  destruct (Frames c); reflexivity.
Qed.

(** ** Where the frames come from *)

Lemma Reader_Read_backedBy (contents : list byte) (r : Reader) (n : nat) :
  backedBy contents r -> backedBy contents (Read r n).2.
Proof.
  unfold backedBy. cbn [Read Reader_IoReader].
  induction r as [b|f0|inner IH|prefix inner IH|e];
    intros (f & Hb & Hw); cbn [isFileBacked] in Hb; try discriminate.
  - injection Hb as ->. cbn [Reader_Read].
    pose proof (OsFile_Read_within contents f n Hw) as Hw'.
    cbn [Read OsFile_IoReader] in Hw'.
    destruct (OsFile_Read f n) as [[bs e] f']. cbn [snd] in *.
    exists f'. split; [reflexivity | exact Hw'].
  - cbn [Reader_Read]. destruct (IH (ex_intro _ f (conj Hb Hw)))
      as (f' & Hb' & Hw').
    destruct (Reader_Read inner n) as [[bs e] inner']. cbn [snd] in *.
    exists f'. split; assumption.
  - cbn [Reader_Read]. destruct prefix as [|p prefix].
    + destruct (IH (ex_intro _ f (conj Hb Hw))) as (f' & Hb' & Hw').
      destruct (Reader_Read inner n) as [[bs e] inner']. cbn [snd] in *.
      exists f'. split; assumption.
    + cbn [snd isFileBacked]. exists f. split; assumption.
Qed.

Lemma Reader_Read_not_backed (r : Reader) (n : nat) :
  isFileBacked r = None -> isFileBacked (Read r n).2 = None.
Proof.
  cbn [Read Reader_IoReader].
  induction r as [b|f0|inner IH|prefix inner IH|e]; intros Hb;
    cbn [isFileBacked] in Hb; try discriminate; cbn [Reader_Read].
  - destruct (BytesReader_Read b n) as [[bs e] b']. reflexivity.
  - specialize (IH Hb).
    destruct (Reader_Read inner n) as [[bs e] inner']. exact IH.
  - destruct prefix as [|p prefix].
    + specialize (IH Hb).
      destruct (Reader_Read inner n) as [[bs e] inner']. exact IH.
    + exact Hb.
  - reflexivity.
Qed.

Lemma Reader_Read_Close (r : Reader) (n : nat) :
  Reader_Close r = None -> Reader_Close (Read r n).2 = None.
Proof.
  cbn [Read Reader_IoReader].
  induction r as [b|f0|inner IH|prefix inner IH|e]; intros Hb;
    cbn [Reader_Close] in Hb; try discriminate; cbn [Reader_Read].
  - destruct (BytesReader_Read b n) as [[bs e] b']. reflexivity.
  - destruct (Reader_Read inner n) as [[bs e] inner']. reflexivity.
  - destruct prefix as [|p prefix].
    + specialize (IH Hb).
      destruct (Reader_Read inner n) as [[bs e] inner']. exact IH.
    + exact Hb.
  - reflexivity.
Qed.

(** What a successful [ParseBytes] did: [ParseMetadata], then a two-byte
    read that found the sync code. *)
Lemma ParseBytes_shape (f : Reader) (file : File) :
  wf f -> ParseBytes f = Ok file ->
  exists res f1 f2 b0 b1,
    ParseMetadata f = Ok (res, f1) /\ wf f1 /\
    ReadFull f1 2 = Ok ([b0; b1], f2) /\ wf f2 /\
    Pending f1 = b0 :: b1 :: Pending f2 /\
    byteZ b0 = 255 /\ byteZ b1 / 4 = 62 /\
    file = mkFile (Meta res) (Some (PrefixReader [b0; b1] f2)).
Proof.
  intros Hwf Hp. unfold ParseBytes in Hp.
  destruct (ParseMetadata f) as [[res f1]| |] eqn:E1;
    cbn [mbind result_bind] in Hp; try discriminate.
  destruct (ParseMetadata_inv _ _ _ Hwf E1) as (Hwf1 & _).
  unfold checkFLACStream in Hp.
  destruct (ReadFull f1 2) as [[bs f2]| |] eqn:E2;
    cbn [mbind result_bind] in Hp; try discriminate.
  destruct (ReadFull_inv _ _ _ _ Hwf1 E2) as (Hwf2 & Hlen & Hpend).
  destruct bs as [|b0 [|b1 [|? ?]]]; try (simpl in Hlen; lia).
  destruct (negb (byteZ b0 =? 255) || negb (shr (byteZ b1) 2 =? 62)) eqn:Hs;
    cbn [mbind result_bind] in Hp; [discriminate|].
  apply orb_false_elim in Hs. destruct Hs as (Hs0 & Hs1).
  apply negb_false_iff, Z.eqb_eq in Hs0, Hs1.
  unfold shr in Hs1. rewrite Z.shiftr_div_pow2 in Hs1 by lia.
  injection Hp as <-.
  exists res, f1, f2, b0, b1. auto 10.
Qed.

(** Every well-formed source that holds a serialised container whose
    frames start with the sync code is accepted. *)
Lemma ParseBytes_fwd (f : Reader) (metas : list MetaDataBlock)
    (enc : list byte) (b0 b1 : byte) (rest : list byte) :
  wf f -> metas <> [] -> Forall blockOk metas -> encodeBlocks metas = Ok enc ->
  byteZ b0 = 255 -> byteZ b1 / 4 = 62 ->
  Pending f = magic ++ enc ++ b0 :: b1 :: rest ->
  exists frames,
    ParseBytes f = Ok (mkFile metas (Some frames)) /\
    Pending frames = b0 :: b1 :: rest.
Proof.
  intros Hwf Hne Hall Henc Hb0 Hb1 Hp.
  destruct (ParseMetadata_fwd f metas enc (b0 :: b1 :: rest) Hwf Hne Hall
              Henc Hp) as (f1 & Hparse & Hwf1 & Hp1).
  destruct (checkFLACStream_two f1 b0 b1 rest Hwf1 Hp1)
    as (f2 & Hwf2 & Hp2 & Hcheck).
  unfold shr in Hcheck. rewrite Z.shiftr_div_pow2 in Hcheck by lia.
  change (2 ^ 2) with 4 in Hcheck. rewrite Hb0, Hb1 in Hcheck.
  cbn [Z.eqb Pos.eqb negb orb] in Hcheck.
  exists (PrefixReader [b0; b1] f2). split.
  - unfold ParseBytes. rewrite Hparse. cbn [mbind result_bind].
    rewrite Hcheck. reflexivity.
  - cbn [Pending Reader_IoReader Reader_Pending] in *. rewrite Hp2.
    reflexivity.
Qed.

(** A property of readers that reading and the [PrefixReader] wrapper
    keep holds of the frames [ParseBytes] returns. *)
Lemma ParseBytes_preserves (P : Reader -> Prop) (f : Reader) (file : File) :
  (forall r n, P r -> P (Read r n).2) ->
  (forall prefix r, P r -> P (PrefixReader prefix r)) ->
  wf f -> P f -> ParseBytes f = Ok file ->
  exists frames, Frames file = Some frames /\ P frames.
Proof.
  intros HRead HPrefix Hwf HP Hparse.
  destruct (ParseBytes_shape f file Hwf Hparse)
    as (res & f1 & f2 & b0 & b1 & Hmeta & _ & Hfull & _ & _ & _ & _ & ->).
  exists (PrefixReader [b0; b1] f2). split; [reflexivity|].
  apply HPrefix.
  apply (ReadFull_preserves P HRead f1 2 [b0; b1] f2); [|exact Hfull].
  apply (ParseMetadata_preserves P HRead f res f1 HP Hmeta).
Qed.

(** Parsing a file-backed source returns file-backed frames. *)
Lemma ParseBytes_backedBy (contents : list byte) (f : Reader) (file : File) :
  wf f -> backedBy contents f -> ParseBytes f = Ok file ->
  exists frames, Frames file = Some frames /\ backedBy contents frames.
Proof.
  intros Hwf Hb Hparse.
  exact (ParseBytes_preserves (backedBy contents) f file
           (Reader_Read_backedBy contents) (fun prefix r HP => HP)
           Hwf Hb Hparse).
Qed.

Lemma ParseFile_source (contents : list byte) :
  wf (BufIOWithInner (RFile (mkOsFile contents 0))) /\
  backedBy contents (BufIOWithInner (RFile (mkOsFile contents 0))).
Proof.
  split; [exact (Z.le_refl 0)|].
  exists (mkOsFile contents 0). split; [reflexivity|].
  split; [reflexivity|]. cbn [f_off]. lia.
Qed.

(** X11. The frames of a file returned by [ParseFile] are file-backed:
    [isFileBacked] walks through the [PrefixReader] and the
    [BufIOWithInner] that parsing left around the opened file and finds
    it, with the bytes the file was opened with. *)
Theorem ParseFile_file_backed (contents : list byte) (g : File) :
  ParseFile contents = Ok g ->
  exists frames file,
    Frames g = Some frames /\ isFileBacked frames = Some file /\
    f_data file = contents.
Proof.
  intros Hparse. unfold ParseFile in Hparse.
  destruct (ParseFile_source contents) as (Hwf & Hb).
  destruct (ParseBytes_backedBy contents _ g Hwf Hb Hparse)
    as (frames & Hfr & file & Hfb & Hd & _).
  exists frames, file. auto.
Qed.

Lemma ParseFile_file_backed_witness :
  exists frames file,
    Frames sampleOpenedFile = Some frames /\
    isFileBacked frames = Some file /\ f_data file = sampleContainer.
Proof.
  apply (ParseFile_file_backed sampleContainer).
  vm_compute. reflexivity.
Defined.

(** X12. [Close] on a file returned by the second version's [ParseFile]
    never reaches the opened [*os.File]: [PrefixReader.Close] asks its
    inner reader for an [io.Closer], the inner reader is the
    [BufIOWithInner], which has no [Close] method, and the call returns
    nil with the file still open. *)
Theorem Close_after_ParseFile (contents : list byte) (g : File) :
  ParseFile contents = Ok g -> Close g = None.
Proof.
  intros Hparse. unfold ParseFile in Hparse.
  assert (Hwf : wf (BufIOWithInner (RFile (mkOsFile contents 0))))
    by exact (Z.le_refl 0).
  destruct (ParseBytes_preserves (fun r => Reader_Close r = None) _ g
              Reader_Read_Close (fun prefix r HP => HP) Hwf eq_refl Hparse)
    as (frames & Hfr & Hclose).
  unfold Close. rewrite Hfr. exact Hclose.
Qed.

Lemma Close_after_ParseFile_witness :
  Close sampleOpenedFile = None.
Proof.
  apply (Close_after_ParseFile sampleContainer).
  vm_compute. reflexivity.
Defined.

(** X13. [Save] of a freshly parsed file to another path (a path where
    nothing or another file is, or any path when the frames are not
    file-backed) creates a byte-for-byte copy of the parsed input, returns
    no error and leaves the [ErrorReader] in place of the frames. *)
Theorem Save_creates_copy (f : Reader) (file : File) (dst : Destination) :
  wf f -> ParseBytes f = Ok file ->
  isFileBacked f = None \/ dst = DestOther \/ dst = DestMissing ->
  Save file dst None
  = SavedTo None (Pending f)
      (mkFile (Meta file) (Some (ErrorReader ErrorAlreadyWritten))).
Proof.
  intros Hwf Hparse Hdst.
  destruct (ParseBytes_inv f file Hwf Hparse)
    as (_ & _ & enc & frames & Henc & Hfr & Hwffr & _ & Hpend).
  assert (Hcreate :
    (let '(_, err, c, w) := WriteTo file (mkSink [] None) in
     SavedTo err (written w) c)
    = SavedTo None (Pending f)
        (mkFile (Meta file) (Some (ErrorReader ErrorAlreadyWritten)))).
  { rewrite (WriteTo_Sink_unbounded file enc [] Henc)
      by (rewrite Hfr; exact Hwffr).
    rewrite Hfr, Hpend. reflexivity. }
  unfold Save. rewrite Hfr.
  destruct Hdst as [Hnone|[-> | ->]].
  - destruct (ParseBytes_preserves (fun r => isFileBacked r = None) f file
                Reader_Read_not_backed (fun prefix r HP => HP) Hwf Hnone
                Hparse) as (frames' & Hfr' & Hnb).
    rewrite Hfr in Hfr'. injection Hfr' as <-. rewrite Hnb. exact Hcreate.
  - destruct (isFileBacked frames); exact Hcreate.
  - destruct (isFileBacked frames); exact Hcreate.
Qed.

Lemma Save_creates_copy_witness :
  Save sampleFile DestMissing None
  = SavedTo None sampleContainer sampleFileWritten.
Proof.
  assert (Hwf : wf (RBytes (NewReader sampleContainer)))
    by exact (Z.le_refl 0).
  apply (Save_creates_copy (RBytes (NewReader sampleContainer)) sampleFile
           DestMissing Hwf).
  - vm_compute. reflexivity.
  - left. reflexivity.
Defined.

(** X14. Edit, save over the input, open again: after [ParseFile], with
    the blocks replaced by any non-empty list of blocks that fit the
    header fields, [Save] to the path of the input goes in place and
    succeeds, and [ParseFile] on the rewritten file returns exactly the
    new blocks and the same frame bytes as before. *)
Theorem Save_same_file_reparse (disk : list byte) (g : File)
    (metas : list MetaDataBlock) (room : option nat) :
  ParseFile disk = Ok g -> metas <> [] -> Forall blockOk metas ->
  exists disk' g' frames frames',
    Save (mkFile metas (Frames g)) DestSame room
    = SavedInPlace (Ok (disk', mkFile metas None)) /\
    ParseFile disk' = Ok g' /\ Meta g' = metas /\
    Frames g = Some frames /\ Frames g' = Some frames' /\
    Pending frames' = Pending frames.
Proof.
  intros Hparse Hne Hall.
  unfold ParseFile in Hparse.
  destruct (ParseFile_source disk) as (Hwf & Hsrc).
  destruct (ParseBytes_backedBy disk _ g Hwf Hsrc Hparse)
    as (frames & Hfr & file & Hb & Hd & _).
  destruct (ParseBytes_shape _ g Hwf Hparse)
    as (res & f1 & f2 & b0 & b1 & Hmeta & Hwf1 & _ & _ & Hp1 & Hb0 & Hb1 & Hg).
  destruct (ParseMetadata_inv _ _ _ Hwf Hmeta)
    as (_ & _ & Hne0 & Hall0 & enc0 & Henc0 & Hpend).
  change (Pending (BufIOWithInner (RFile (mkOsFile disk 0)))) with disk
    in Hpend.
  rewrite Hp1 in Hpend.
  assert (Hwf0 : wf (mkOsFile disk 0)) by exact (Z.le_refl 0).
  destruct (ParseMetadata_fwd (mkOsFile disk 0) (Meta res) enc0
              (b0 :: b1 :: Pending f2) Hwf0 Hne0 Hall0 Henc0 Hpend)
    as (file' & Hparse0 & _ & Hp').
  destruct (ParseMetadata_OsFile disk _ file' Hparse0) as (Hd' & _).
  cbn [Pending OsFile_IoReader] in Hp'. rewrite Hd' in Hp'.
  destruct (encodeBlocks_ok metas Hall) as (enc & Henc).
  pose proof (saveInPlaceWith_ok bufferSize (mkFile metas (Frames g)) disk
                _ file' enc bufferSize_pos Hparse0 Henc) as Hsave.
  rewrite Hp' in Hsave. cbn [Meta] in Hsave.
  assert (Hwf' : wf (BufIOWithInner
                       (RFile (mkOsFile (magic ++ enc ++ b0 :: b1 :: Pending f2)
                                 0))))
    by exact (Z.le_refl 0).
  destruct (ParseBytes_fwd _ metas enc b0 b1 (Pending f2) Hwf' Hne Hall Henc
              Hb0 Hb1 eq_refl) as (frames' & Hparse' & Hpf').
  exists (magic ++ enc ++ b0 :: b1 :: Pending f2),
    (mkFile metas (Some frames')), frames, frames'.
  split; [|split; [exact Hparse'|split; [reflexivity|]]].
  - unfold Save. cbn [Frames]. rewrite Hfr, Hb, Hd.
    unfold saveInPlace. rewrite Hfr in Hsave. rewrite Hsave. reflexivity.
  - split; [exact Hfr|]. split; [reflexivity|].
    rewrite Hpf'. rewrite Hg in Hfr. cbn [Frames] in Hfr.
    injection Hfr as <-. reflexivity.
Qed.

Lemma Save_same_file_reparse_witness :
  exists disk' g' frames frames',
    Save (mkFile sampleShrunkBlocks (Frames sampleOpenedFile)) DestSame None
    = SavedInPlace (Ok (disk', mkFile sampleShrunkBlocks None)) /\
    ParseFile disk' = Ok g' /\ Meta g' = sampleShrunkBlocks /\
    Frames sampleOpenedFile = Some frames /\ Frames g' = Some frames' /\
    Pending frames' = Pending frames.
Proof.
  assert (Hparse : ParseFile sampleContainer = Ok sampleOpenedFile)
    by (vm_compute; reflexivity).
  assert (Hne : sampleShrunkBlocks <> []) by discriminate.
  assert (Hall : Forall blockOk sampleShrunkBlocks).
  { unfold sampleShrunkBlocks, sampleBlocks. cbn [take drop app].
    repeat (constructor;
            [repeat split; vm_compute; first [reflexivity | discriminate]|]).
    constructor. }
  exact (Save_same_file_reparse sampleContainer sampleOpenedFile
           sampleShrunkBlocks None Hparse Hne Hall).
Defined.

(** ** Every way the parsers and the in-place save can end *)

Section ParseOutcomes.

Context {R : Type} `{SeqReaderLaw R}.

Lemma ReadFull_no_panic (r : R) (n : nat) (p : panic) :
  ReadFull r n <> Panic p.
Proof.
  unfold ReadFull. destruct (ReadAtLeast _ _ _ _) as [[bs [e|]] r'];
    discriminate.
Qed.

Lemma parseMetadataBlock_no_panic (f : R) (p : panic) :
  wf f -> parseMetadataBlock f <> Panic p.
Proof.
  intros Hwf Hp. unfold parseMetadataBlock in Hp.
  destruct (ReadFull f 4) as [[header f1]|e1|p1] eqn:E1;
    cbn [mbind result_bind] in Hp; try discriminate.
  - destruct (ReadFull_inv _ _ _ _ Hwf E1) as (Hwf1 & Hlen1 & _).
    destruct header as [|h0 [|h1 [|h2 [|h3 [|]]]]]; try discriminate.
    change (readUint32 (NewBuffer [h0; h1; h2; h3]))
      with (Ok (bigEndian [h0; h1; h2; h3], mkBuffer [])) in Hp.
    cbn [mbind result_bind] in Hp.
    destruct (ReadFull f1 _) as [[buf f2]|e2|p2] eqn:E2;
      cbn [mbind result_bind] in Hp; try discriminate.
    exact (ReadFull_no_panic _ _ _ E2).
  - exact (ReadFull_no_panic _ _ _ E1).
Qed.

Lemma readMetadataBlocksLoop_no_panic (fuel : nat) : forall (f : R) acc
    (p : panic),
  wf f -> readMetadataBlocksLoop fuel f acc <> Panic p.
Proof.
  induction fuel as [|fuel IH]; intros f acc p Hwf Hl; [discriminate|].
  cbn [readMetadataBlocksLoop] in Hl.
  destruct (parseMetadataBlock f) as [[[blk fin] f1]|e1|p1] eqn:E;
    cbn [mbind result_bind] in Hl; try discriminate.
  - destruct (parseMetadataBlock_inv _ _ _ _ Hwf E) as (Hwf1 & _).
    destruct fin; [discriminate|].
    exact (IH f1 _ p Hwf1 Hl).
  - exact (parseMetadataBlock_no_panic f p1 Hwf E).
Qed.

Lemma ParseMetadata_outcomes (f : R) :
  wf f ->
  (exists file f', ParseMetadata f = Ok (file, f')) \/
  ParseMetadata f = Err ErrorNoFLACHeader \/
  ParseMetadata f = Err EOF \/ ParseMetadata f = Err ErrUnexpectedEOF.
Proof.
  intros Hwf. unfold ParseMetadata, readFLACHead.
  destruct (ReadFull f 4) as [[buf f1]|e1|p1] eqn:E1;
    cbn [mbind result_bind].
  - destruct (ReadFull_inv _ _ _ _ Hwf E1) as (Hwf1 & _).
    destruct (decide (buf = magic)); cbn [mbind result_bind]; [|auto].
    destruct (readMetadataBlocks f1) as [[meta f2]|e2|p2] eqn:E2;
      cbn [mbind result_bind].
    + left. eauto.
    + destruct (readMetadataBlocks_error f1 e2 Hwf1 E2) as [-> | ->]; auto.
    + destruct (readMetadataBlocksLoop_no_panic _ _ _ _ Hwf1 E2).
  - destruct (ReadFull_error f 4 e1 Hwf E1) as [-> | ->]; auto.
  - destruct (ReadFull_no_panic _ _ _ E1).
Qed.

End ParseOutcomes.

(** X15. [ParseBytes] on a well-formed reader returns a file or one of
    four errors: [ErrorNoFLACHeader], [ErrorNoSyncCode], [io.EOF] or
    [io.ErrUnexpectedEOF].  It never panics and its loops terminate. *)
Theorem ParseBytes_outcomes (f : Reader) :
  wf f ->
  (exists file, ParseBytes f = Ok file) \/
  ParseBytes f = Err ErrorNoFLACHeader \/
  ParseBytes f = Err ErrorNoSyncCode \/
  ParseBytes f = Err EOF \/ ParseBytes f = Err ErrUnexpectedEOF.
Proof.
  intros Hwf. unfold ParseBytes.
  destruct (ParseMetadata_outcomes f Hwf)
    as [(file & f1 & Hp)|[Hp|[Hp|Hp]]]; rewrite Hp;
    cbn [mbind result_bind]; auto.
  destruct (ParseMetadata_inv _ _ _ Hwf Hp) as (Hwf1 & _).
  destruct (Pending f1) as [|b0 [|b1 rest]] eqn:Hpend.
  - rewrite checkFLACStream_short by (try rewrite Hpend; simpl; auto).
    rewrite Hpend. cbn [mbind result_bind eofError]. auto.
  - rewrite checkFLACStream_short by (try rewrite Hpend; simpl; auto).
    rewrite Hpend. cbn [mbind result_bind eofError]. auto 6.
  - destruct (checkFLACStream_two f1 b0 b1 rest Hwf1 Hpend)
      as (f2 & _ & _ & ->).
    destruct (_ || _); cbn [mbind result_bind]; [auto|].
    left. eauto.
Qed.

Lemma ParseBytes_outcomes_witness :
  (exists file, ParseBytes (RBytes (NewReader (take 61 sampleContainer)))
                = Ok file) \/
  ParseBytes (RBytes (NewReader (take 61 sampleContainer)))
  = Err ErrorNoFLACHeader \/
  ParseBytes (RBytes (NewReader (take 61 sampleContainer)))
  = Err ErrorNoSyncCode \/
  ParseBytes (RBytes (NewReader (take 61 sampleContainer))) = Err EOF \/
  ParseBytes (RBytes (NewReader (take 61 sampleContainer)))
  = Err ErrUnexpectedEOF.
Proof.
  apply ParseBytes_outcomes. exact (Z.le_refl 0).
Defined.

(** X16. [saveInPlace] of blocks that fit the header fields, on a storage
    that does not fail by itself, either succeeds and clears the frames,
    or fails with the wrapped error of [ParseMetadata] on the file
    ([ErrorNoFLACHeader], [io.EOF] or [io.ErrUnexpectedEOF]).  The
    relocation loops never fail, whatever the sizes of the old and new
    headers, and nothing panics. *)
Theorem saveInPlace_outcomes (c : File) (disk : list byte) :
  Forall blockOk (Meta c) ->
  (exists disk', saveInPlace c disk = Ok (disk', mkFile (Meta c) None)) \/
  saveInPlace c disk = Err (ErrParseMetadata ErrorNoFLACHeader) \/
  saveInPlace c disk = Err (ErrParseMetadata EOF) \/
  saveInPlace c disk = Err (ErrParseMetadata ErrUnexpectedEOF).
Proof.
  intros Hall.
  assert (Hwf : wf (mkOsFile disk 0)) by exact (Z.le_refl 0).
  destruct (encodeBlocks_ok (Meta c) Hall) as (enc & Henc).
  unfold saveInPlace.
  destruct (ParseMetadata_outcomes (mkOsFile disk 0) Hwf)
    as [(file & f1 & Hp)|[Hp|[Hp|Hp]]].
  - left. eexists.
    exact (saveInPlaceWith_ok bufferSize c disk file f1 enc bufferSize_pos
             Hp Henc).
  - rewrite (proj1 (saveInPlaceWith_parse_fails bufferSize c disk) _ Hp).
    auto.
  - rewrite (proj1 (saveInPlaceWith_parse_fails bufferSize c disk) _ Hp).
    auto.
  - rewrite (proj1 (saveInPlaceWith_parse_fails bufferSize c disk) _ Hp).
    auto 6.
Qed.

Lemma saveInPlace_outcomes_witness :
  (exists disk',
     saveInPlace (mkFile sampleBlocks None) (take 30 sampleContainer)
     = Ok (disk', mkFile sampleBlocks None)) \/
  saveInPlace (mkFile sampleBlocks None) (take 30 sampleContainer)
  = Err (ErrParseMetadata ErrorNoFLACHeader) \/
  saveInPlace (mkFile sampleBlocks None) (take 30 sampleContainer)
  = Err (ErrParseMetadata EOF) \/
  saveInPlace (mkFile sampleBlocks None) (take 30 sampleContainer)
  = Err (ErrParseMetadata ErrUnexpectedEOF).
Proof.
  exact (saveInPlace_outcomes (mkFile sampleBlocks None)
           (take 30 sampleContainer) sampleBlocks_ok).
Defined.

(** ** Parsing depends on the bytes only *)

Section ByBytes.

Context {R1 : Type} `{SeqReaderLaw R1} {R2 : Type} `{SeqReaderLaw R2}.

Lemma ReadFull_by_bytes (f : R1) (g : R2) (n : nat) :
  wf f -> wf g -> Pending f = Pending g ->
  match ReadFull f n, ReadFull g n with
  | Ok (bs, f'), Ok (bs', g') =>
      bs = bs' /\ wf f' /\ wf g' /\ Pending f' = Pending g'
  | Err e, Err e' => e = e'
  | _, _ => False
  end.
Proof.
  intros Hf Hg Hp.
  destruct (Nat.le_gt_cases n (length (Pending f))) as [Hle|Hgt].
  - destruct (ReadFull_ok f n Hf Hle) as (f' & -> & Hf' & Hpf).
    rewrite Hp in Hle.
    destruct (ReadFull_ok g n Hg Hle) as (g' & -> & Hg' & Hpg).
    rewrite Hpf, Hpg, Hp. auto.
  - rewrite (ReadFull_short f n Hf Hgt).
    rewrite Hp in Hgt. rewrite (ReadFull_short g n Hg Hgt), Hp.
    reflexivity.
Qed.

Lemma parseMetadataBlock_by_bytes (f : R1) (g : R2) :
  wf f -> wf g -> Pending f = Pending g ->
  match parseMetadataBlock f, parseMetadataBlock g with
  | Ok (blk, fin, f'), Ok (blk', fin', g') =>
      blk = blk' /\ fin = fin' /\ wf f' /\ wf g' /\ Pending f' = Pending g'
  | Err e, Err e' => e = e'
  | Panic p, Panic p' => p = p'
  | _, _ => False
  end.
Proof.
  intros Hf Hg Hp. unfold parseMetadataBlock.
  pose proof (ReadFull_by_bytes f g 4 Hf Hg Hp) as Hhd.
  destruct (ReadFull f 4) as [[hd f1]|e1|p1], (ReadFull g 4) as [[hd' g1]|e1'|p1'];
    cbn [mbind result_bind]; try contradiction; try exact Hhd.
  destruct Hhd as (<- & Hf1 & Hg1 & Hp1).
  destruct hd as [|h0 hd]; [reflexivity|].
  destruct (readUint32 (NewBuffer (h0 :: hd))) as [[len b]|e|p];
    cbn [mbind result_bind]; try reflexivity.
  pose proof (ReadFull_by_bytes f1 g1 (Z.to_nat (shr (shl 32 len 8) 8))
                Hf1 Hg1 Hp1) as Hd.
  destruct (ReadFull f1 _) as [[buf f2]|e2|p2],
           (ReadFull g1 _) as [[buf' g2]|e2'|p2'];
    cbn [mbind result_bind]; try contradiction; try exact Hd.
  destruct Hd as (<- & Hf2 & Hg2 & Hp2). auto.
Qed.

Lemma readMetadataBlocksLoop_by_bytes (fuel : nat) : forall (f : R1) (g : R2)
    acc,
  wf f -> wf g -> Pending f = Pending g ->
  match readMetadataBlocksLoop fuel f acc, readMetadataBlocksLoop fuel g acc
  with
  | Ok (blocks, f'), Ok (blocks', g') =>
      blocks = blocks' /\ wf f' /\ wf g' /\ Pending f' = Pending g'
  | Err e, Err e' => e = e'
  | Panic p, Panic p' => p = p'
  | _, _ => False
  end.
Proof.
  induction fuel as [|fuel IH]; intros f g acc Hf Hg Hp; [reflexivity|].
  cbn [readMetadataBlocksLoop].
  pose proof (parseMetadataBlock_by_bytes f g Hf Hg Hp) as Hb.
  destruct (parseMetadataBlock f) as [[[blk fin] f1]|e1|p1],
           (parseMetadataBlock g) as [[[blk' fin'] g1]|e1'|p1'];
    cbn [mbind result_bind]; try contradiction; try exact Hb.
  destruct Hb as (<- & <- & Hf1 & Hg1 & Hp1).
  destruct fin; [auto|].
  apply IH; assumption.
Qed.

Lemma ParseMetadata_by_bytes (f : R1) (g : R2) :
  wf f -> wf g -> Pending f = Pending g ->
  match ParseMetadata f, ParseMetadata g with
  | Ok (file, f'), Ok (file', g') =>
      file = file' /\ wf f' /\ wf g' /\ Pending f' = Pending g'
  | Err e, Err e' => e = e'
  | Panic p, Panic p' => p = p'
  | _, _ => False
  end.
Proof.
  intros Hf Hg Hp. unfold ParseMetadata, readFLACHead.
  pose proof (ReadFull_by_bytes f g 4 Hf Hg Hp) as Hhd.
  destruct (ReadFull f 4) as [[hd f1]|e1|p1], (ReadFull g 4) as [[hd' g1]|e1'|p1'];
    cbn [mbind result_bind]; try contradiction; try exact Hhd.
  destruct Hhd as (<- & Hf1 & Hg1 & Hp1).
  destruct (decide (hd = magic)); cbn [mbind result_bind]; [|reflexivity].
  unfold readMetadataBlocks. rewrite Hp1.
  pose proof (readMetadataBlocksLoop_by_bytes (S (length (Pending g1))) f1 g1
                [] Hf1 Hg1 Hp1) as Hl.
  destruct (readMetadataBlocksLoop _ f1 []) as [[meta f2]|e2|p2],
           (readMetadataBlocksLoop _ g1 []) as [[meta' g2]|e2'|p2'];
    cbn [mbind result_bind]; try contradiction; try exact Hl.
  destruct Hl as (<- & Hf2 & Hg2 & Hp2). auto.
Qed.

End ByBytes.

(** X17. The outcome of [ParseBytes] depends on the pending bytes only,
    not on the kind of reader: two well-formed readers with the same
    pending bytes (a [bytes.Reader], an opened file, a wrapped reader)
    give the same blocks and frames with the same bytes, or the same
    error. *)
Theorem ParseBytes_by_bytes (f g : Reader) :
  wf f -> wf g -> Pending f = Pending g ->
  match ParseBytes f, ParseBytes g with
  | Ok a, Ok b =>
      Meta a = Meta b /\
      exists fa fb,
        Frames a = Some fa /\ Frames b = Some fb /\ Pending fa = Pending fb
  | Err e, Err e' => e = e'
  | _, _ => False
  end.
Proof.
  intros Hf Hg Hp. unfold ParseBytes.
  pose proof (ParseMetadata_by_bytes f g Hf Hg Hp) as Hm.
  pose proof (ParseMetadata_outcomes f Hf) as Hof.
  pose proof (ParseMetadata_outcomes g Hg) as Hog.
  destruct (ParseMetadata f) as [[file f1]|e1|p1],
           (ParseMetadata g) as [[file' g1]|e1'|p1'];
    cbn [mbind result_bind]; try contradiction; try exact Hm.
  2:{ destruct Hof as [(? & ? & ?)|[?|[?|?]]]; discriminate. }
  destruct Hm as (<- & Hf1 & Hg1 & Hp1).
  assert (Hq : Pending g1 = Pending f1) by (symmetry; exact Hp1).
  clear Hp1 Hof Hog.
  destruct (Pending f1) as [|b0 [|b1 rest]] eqn:Hpend.
  - rewrite !checkFLACStream_short
      by (try rewrite Hq; try rewrite Hpend; simpl; auto).
    rewrite Hq, Hpend. reflexivity.
  - rewrite !checkFLACStream_short
      by (try rewrite Hq; try rewrite Hpend; simpl; auto).
    rewrite Hq, Hpend. reflexivity.
  - destruct (checkFLACStream_two f1 b0 b1 rest Hf1 Hpend)
      as (f2 & _ & Hp2 & ->).
    destruct (checkFLACStream_two g1 b0 b1 rest Hg1 Hq)
      as (g2 & _ & Hq2 & ->).
    destruct (_ || _); cbn [mbind result_bind]; [reflexivity|].
    split; [reflexivity|].
    exists (PrefixReader [b0; b1] f2), (PrefixReader [b0; b1] g2).
    cbn [Frames Pending Reader_IoReader Reader_Pending] in *.
    rewrite Hp2, Hq2. auto.
Qed.

Lemma ParseBytes_by_bytes_witness :
  match ParseBytes (RBytes (NewReader sampleContainer)),
        ParseBytes (BufIOWithInner (RFile (mkOsFile sampleContainer 0))) with
  | Ok a, Ok b =>
      Meta a = Meta b /\
      exists fa fb,
        Frames a = Some fa /\ Frames b = Some fb /\ Pending fa = Pending fb
  | Err e, Err e' => e = e'
  | _, _ => False
  end.
Proof.
  assert (Hf : wf (RBytes (NewReader sampleContainer)))
    by exact (Z.le_refl 0).
  assert (Hg : wf (BufIOWithInner (RFile (mkOsFile sampleContainer 0))))
    by exact (Z.le_refl 0).
  exact (ParseBytes_by_bytes _ _ Hf Hg eq_refl).
Defined.

(** ** Writing, then parsing *)

(** X18. Writing, then parsing: a file with at least one block, blocks
    that fit the header fields and frames that start with the sync code is
    written by [WriteTo] to a stream that [ParseBytes] accepts, returning
    the same blocks and the same frame bytes. *)
Theorem WriteTo_ParseBytes (c : File) (frames : Reader) (b0 b1 : byte)
    (rest : list byte) :
  Meta c <> [] -> Forall blockOk (Meta c) ->
  Frames c = Some frames -> wf frames ->
  Pending frames = b0 :: b1 :: rest ->
  byteZ b0 = 255 -> byteZ b1 / 4 = 62 ->
  exists out frames',
    WriteTo c (NewBuffer [])
    = (Z.of_nat (length out), None,
       mkFile (Meta c) (Some (ErrorReader ErrorAlreadyWritten)),
       mkBuffer out) /\
    ParseBytes (RBytes (NewReader out)) = Ok (mkFile (Meta c) (Some frames')) /\
    Pending frames' = Pending frames.
Proof.
  intros Hne Hall Hfr Hwf Hpend Hb0 Hb1.
  destruct (encodeBlocks_ok (Meta c) Hall) as (enc & Henc).
  assert (Hwf0 : wf (RBytes (NewReader (magic ++ enc ++ b0 :: b1 :: rest))))
    by exact (Z.le_refl 0).
  destruct (ParseBytes_fwd _ (Meta c) enc b0 b1 rest Hwf0 Hne Hall Henc
              Hb0 Hb1) as (frames' & Hparse & Hp').
  { cbn [Pending Reader_IoReader Reader_Pending BytesReader_IoReader
           NewReader br_i br_s].
    change (Z.to_nat 0) with O. apply drop_0. }
  exists (magic ++ enc ++ b0 :: b1 :: rest), frames'.
  split; [|split; [exact Hparse | rewrite Hp', Hpend; reflexivity]].
  unfold NewBuffer.
  rewrite (WriteTo_Buffer_frames c frames [] enc Henc Hfr Hwf), Hpend.
  cbn [app]. rewrite !length_app. change (length magic) with 4%nat.
  do 3 f_equal. lia.
Qed.

Lemma WriteTo_ParseBytes_witness :
  exists out frames',
    WriteTo sampleFile (NewBuffer [])
    = (Z.of_nat (length out), None, sampleFileWritten, mkBuffer out) /\
    ParseBytes (RBytes (NewReader out))
    = Ok (mkFile sampleBlocks (Some frames')) /\
    Pending frames' = sampleFrames.
Proof.
  assert (Hwf : wf (PrefixReader (bytesOf [0xFF; 0xF8])
                      (RBytes (mkBytesReader sampleContainer 62))))
    by (vm_compute; discriminate).
  refine (WriteTo_ParseBytes sampleFile _ (byteOf 0xFF) (byteOf 0xF8)
            (drop 2 sampleFrames) _ sampleBlocks_ok eq_refl Hwf eq_refl
            eq_refl eq_refl).
  discriminate.
Defined.
